(** * bullreckon shared/py: job queue and WebSocket connection registry

    A shallow embedding of [redisManager.py], [queueManager.py],
    [webSocketServer.py] and the shutdown of [baseApp.py], and the
    properties of the job lifecycle, the worker loop and the connection
    registry stated in the specification.

    Every [async def] of the source is a computation in the monad [M S] of
    state passing with exceptions: a Python exception keeps the mutations
    made before it was raised, so a computation returns its outcome together
    with the state reached.  Only one coroutine runs at a time in a process;
    the embedding follows one coroutine from call to return. *)

From Stdlib Require Import ZArith String List Lia.
From stdpp Require Import base option list gmap sets strings pretty.

Local Open Scope string_scope.

(** ** Exceptions and the computation monad *)

(** A raised exception: its class name and the text [str(e)]. *)
Record exn := Exn { exn_class : string; exn_str : string }.

(** [isinstance(e, Exception)]: the classes of Python and of [asyncio]
    that derive from [BaseException] without deriving from [Exception] are
    the ones an [except Exception] clause lets through. *)
Definition is_exception (e : exn) : bool :=
  negb (existsb (String.eqb (exn_class e))
          ["BaseException"; "CancelledError"; "KeyboardInterrupt"; "SystemExit";
           "GeneratorExit"]).

Inductive res (A : Type) : Type :=
| Ok (a : A)
| Raise (e : exn).
Arguments Ok {A} a.
Arguments Raise {A} e.

Definition M (S A : Type) : Type := S -> res A * S.

Definition ret {S A} (a : A) : M S A := fun s => (Ok a, s).

Definition bind {S A B} (m : M S A) (k : A -> M S B) : M S B :=
  fun s => match m s with
           | (Ok a, s') => k a s'
           | (Raise e, s') => (Raise e, s')
           end.

Definition raise {S A} (e : exn) : M S A := fun s => (Raise e, s).

(** [try: m except cls: h] for one exception class. *)
Definition try_except_only {S A} (cls : string) (m : M S A) (h : M S A) : M S A :=
  fun s => match m s with
           | (Ok a, s') => (Ok a, s')
           | (Raise e, s') =>
               if decide (exn_class e = cls) then h s' else (Raise e, s')
           end.

(** [try: m except Exception as e: h e] *)
Definition try_except {S A} (m : M S A) (h : exn -> M S A) : M S A :=
  fun s => match m s with
           | (Ok a, s') => (Ok a, s')
           | (Raise e, s') => if is_exception e then h e s' else (Raise e, s')
           end.

(** A computation that only returns or raises. *)
Definition of_res {S A} (r : res A) : M S A := fun s => (r, s).

Definition gets {S A} (f : S -> A) : M S A := fun s => (Ok (f s), s).
Definition modify {S} (f : S -> S) : M S unit := fun s => (Ok tt, f s).

(** Run a computation of a component on the component held in a field. *)
Definition zoom {S T A} (get : S -> T) (put : T -> S -> S) (m : M T A) : M S A :=
  fun s => match m (get s) with (r, t) => (r, put t s) end.

(** stdpp's monad notations [x ← m; k] and [m;; k] are used for [M S]. *)
#[global] Instance M_ret {S} : MRet (M S) := fun A => @ret S A.
#[global] Instance M_bind {S} : MBind (M S) := fun A B k m => bind m k.

Definition outcome {S A} (p : res A * S) : res A := fst p.
Definition final {S A} (p : res A * S) : S := snd p.

Definition raises {A} (r : res A) : Prop := exists e, r = Raise e.

(** ** JSON values and Python truthiness *)

(** The JSON-serialisable Python values: what [json.dumps] accepts and
    [json.loads] returns.  [JNull] is [None]. *)
#[warnings="-register-all"]
Inductive json : Type :=
| JNull
| JBool (b : bool)
| JNum (n : Z)
| JStr (s : string)
| JArr (xs : list json)
| JObj (kvs : list (string * json)).

Definition str_truthy (s : string) : bool :=
  match s with EmptyString => false | _ => true end.

(** [bool(v)] *)
Definition truthy (v : json) : bool :=
  match v with
  | JNull => false
  | JBool b => b
  | JNum n => negb (n =? 0)%Z
  | JStr s => str_truthy s
  | JArr xs => match xs with [] => false | _ => true end
  | JObj kvs => match kvs with [] => false | _ => true end
  end.

(** ** Python dictionaries, in insertion order *)

Module Dict.
Section dict.
Context {V : Type}.

Fixpoint get (k : string) (d : list (string * V)) : option V :=
  match d with
  | [] => None
  | (k', v) :: d' => if decide (k' = k) then Some v else get k d'
  end.

(** [d[k] = v]: an existing key keeps its place, a new key goes last. *)
Fixpoint set (k : string) (v : V) (d : list (string * V)) : list (string * V) :=
  match d with
  | [] => [(k, v)]
  | (k', v') :: d' =>
      if decide (k' = k) then (k, v) :: d' else (k', v') :: set k v d'
  end.

(** [del d[k]] for a key that is present. *)
Fixpoint del (k : string) (d : list (string * V)) : list (string * V) :=
  match d with
  | [] => []
  | (k', v') :: d' =>
      if decide (k' = k) then d' else (k', v') :: del k d'
  end.

Definition keys (d : list (string * V)) : list string := d.*1.

Definition mem (k : string) (d : list (string * V)) : bool :=
  match get k d with Some _ => true | None => false end.
End dict.
End Dict.

(** ** Text held in the store, and the JSON codec *)

(** A string value of the store.  [Dumps j] is the text [json.dumps(j)];
    [Raw s] is a string that is not a JSON document (the empty string
    included).  [json.loads] inverts [json.dumps] and rejects the rest. *)
Inductive text : Type :=
| Raw (s : string)
| Dumps (j : json).

Definition text_truthy (t : text) : bool :=
  match t with
  | Raw s => str_truthy s
  | Dumps _ => true
  end.

Definition json_dumps {S} (j : json) : M S text := ret (Dumps j).

(** Why [json.dumps] refuses a value: an object of a class it cannot
    serialise, a dictionary key of such a class, or a container that holds
    itself. *)
Inductive dumps_error : Type :=
| NotSerializable (type_name : string)
| BadKey (type_name : string)
| Circular.

Definition dumps_exn (d : dumps_error) : exn :=
  match d with
  | NotSerializable ty =>
      Exn "TypeError" ("Object of type " +:+ ty +:+ " is not JSON serializable")
  | BadKey ty =>
      Exn "TypeError" ("keys must be str, int, float, bool or None, not " +:+ ty)
  | Circular => Exn "ValueError" "Circular reference detected"
  end.

(** A Python value as [json.dumps] sees it: one it serialises, or one it
    refuses. *)
Inductive value : Type :=
| Json (j : json)
| Refused (d : dumps_error).

Coercion Json : json >-> value.

Definition json_loads {S} (t : text) : M S json :=
  match t with
  | Dumps j => ret j
  | Raw _ => raise (Exn "JSONDecodeError" "Expecting value")
  end.

(** [o[k] = v] and [o[k]] for a string key [k]. *)
Definition py_setitem {S} (o : json) (k : string) (v : json) : M S json :=
  match o with
  | JObj kvs => ret (JObj (Dict.set k v kvs))
  | _ => raise (Exn "TypeError" "object does not support item assignment")
  end.

Definition py_getitem {S} (o : json) (k : string) : M S json :=
  match o with
  | JObj kvs =>
      match Dict.get k kvs with
      | Some v => ret v
      | None => raise (Exn "KeyError" ("'" +:+ k +:+ "'"))
      end
  | _ => raise (Exn "TypeError" "object is not subscriptable by a string")
  end.

(** ** redisManager.py *)

Module RedisManager.

(** The commands that reach the server, newest first (ghost state: the
    order in which the store was written). *)
Inductive command : Type :=
| SET (key : string) (value : text) (ex : option Z)
| DEL (key : string)
| EXPIRE (key : string) (time : Z)
| LPUSH (key : string) (value : string)
| RPOP (key : string)
| PUBLISH (channel : string) (message : text)
| SUBSCRIBE (channels : list string).

(** The manager and the store it talks to.  [client] is [self.client is
    not None].  The store follows the contract of the specification (§6):
    string values with an optional expiry, lists pushed at the head and
    popped at the tail, channels with subscribers.  It is reliable: a
    command that reaches it succeeds.  String keys and list keys are two
    families ([job:...] and [queue:...] in this subsystem). *)
Record t : Type := mk {
  client : bool;
  strings : gmap string text;
  expiry : gmap string Z;
  lists : gmap string (list string);
  subscriptions : list string;
  commands : list command
}.

Definition init : t := mk false ∅ ∅ ∅ [] [].

Definition log (c : command) (r : t) : t :=
  mk (client r) (strings r) (expiry r) (lists r) (subscriptions r) (c :: commands r).
Definition with_client (b : bool) (r : t) : t :=
  mk b (strings r) (expiry r) (lists r) (subscriptions r) (commands r).
Definition with_strings (m : gmap string text) (r : t) : t :=
  mk (client r) m (expiry r) (lists r) (subscriptions r) (commands r).
Definition with_expiry (m : gmap string Z) (r : t) : t :=
  mk (client r) (strings r) m (lists r) (subscriptions r) (commands r).
Definition with_lists (m : gmap string (list string)) (r : t) : t :=
  mk (client r) (strings r) (expiry r) m (subscriptions r) (commands r).
Definition with_subscriptions (l : list string) (r : t) : t :=
  mk (client r) (strings r) (expiry r) (lists r) l (commands r).

Definition connect : M t unit := modify (with_client true).

(** [disconnect] closes the connection of the client when there is one;
    [self.client] stays set, and the store is not touched. *)
Definition disconnect : M t unit :=
  c ← gets client;
  if c : bool then ret tt else ret tt.

Definition get (key : string) : M t (option text) :=
  c ← gets client;
  if negb c then ret None
  else gets (fun r => strings r !! key).

(** What the commands the server accepts do to the store. *)
Definition store_set (key : string) (value : text) (ex : option Z) (r : t) : t :=
  log (SET key value ex)
    (with_expiry (match ex with
                  | Some ex => <[key := ex]> (expiry r)
                  | None => base.delete key (expiry r)
                  end)
       (with_strings (<[key := value]> (strings r)) r)).

Definition store_lpush (key value : string) (r : t) : t :=
  log (LPUSH key value)
    (with_lists (<[key := value :: default [] (lists r !! key)]> (lists r)) r).

(** The tail of a list, and the list without it. *)
Definition pop_tail (l : list string) : option (string * list string) :=
  match reverse l with
  | [] => None
  | x :: r => Some (x, reverse r)
  end.

(** A list that becomes empty is removed with its key. *)
Definition store_rpop (key : string) (r : t) : t :=
  log (RPOP key)
    (match pop_tail (default [] (lists r !! key)) with
     | None => r
     | Some (_, []) => with_lists (base.delete key (lists r)) r
     | Some (_, l') => with_lists (<[key := l']> (lists r)) r
     end).

(** The server refuses [SET] with an expiry that is not positive. *)
Definition bad_expiry (expire : option Z) : bool :=
  match expire with
  | Some ex => (ex <=? 0)%Z
  | None => false
  end.

Definition set (key : string) (value : text) (expire : option Z) : M t bool :=
  c ← gets client;
  if negb c then ret false
  else if bad_expiry expire
  then raise (Exn "ResponseError" "invalid expire time in 'set' command")
  else modify (store_set key value expire);; ret true.

Definition present (key : string) (r : t) : bool :=
  bool_decide (is_Some (strings r !! key)) || bool_decide (is_Some (lists r !! key)).

Definition delete (key : string) : M t Z :=
  c ← gets client;
  if negb c then ret 0%Z
  else
    p ← gets (present key);
    modify (fun r =>
      log (DEL key)
        (with_lists (base.delete key (lists r))
           (with_expiry (base.delete key (expiry r))
              (with_strings (base.delete key (strings r)) r))));;
    ret (if p : bool then 1%Z else 0%Z).

(** [False] without a client, otherwise the number of keys found. *)
Definition exists_ (key : string) : M t json :=
  c ← gets client;
  if negb c then ret (JBool false)
  else p ← gets (present key); ret (JNum (if p : bool then 1%Z else 0%Z)).

Definition expire (key : string) (time : Z) : M t bool :=
  c ← gets client;
  if negb c then ret false
  else
    p ← gets (present key);
    (if p : bool
     then modify (fun r =>
            log (EXPIRE key time)
              (if (time <=? 0)%Z
               then with_lists (base.delete key (lists r))
                      (with_expiry (base.delete key (expiry r))
                         (with_strings (base.delete key (strings r)) r))
               else with_expiry (<[key := time]> (expiry r)) r))
     else modify (log (EXPIRE key time)));;
    ret p.

Definition publish (channel : string) (message : text) : M t Z :=
  c ← gets client;
  if negb c then ret 0%Z
  else
    modify (log (PUBLISH channel message));;
    gets (fun r => Z.of_nat (length (filter (fun ch => ch = channel) (subscriptions r)))).

(** The pubsub object returned is represented by its channels. *)
Definition subscribe (channels : list string) : M t (option (list string)) :=
  c ← gets client;
  if negb c then ret None
  else
    modify (fun r =>
      log (SUBSCRIBE channels) (with_subscriptions (subscriptions r ++ channels)%list r));;
    ret (Some channels).

(** Entering the [pipeline] context manager. *)
Definition pipeline : M t unit :=
  c ← gets client;
  if negb c then raise (Exn "RuntimeError" "Redis client not connected")
  else ret tt.

Definition health_check : M t bool :=
  try_except (c ← gets client; if negb c then ret false else ret true)
             (fun _ => ret false).

(** *** Methods of [self.client], reached as [redis.client.lpush] etc.
    Without a client the attribute lookup on [None] raises. *)
Definition no_attribute (name : string) : exn :=
  Exn "AttributeError" ("'NoneType' object has no attribute '" +:+ name +:+ "'").

Definition client_lpush (key value : string) : M t Z :=
  c ← gets client;
  if negb c then raise (no_attribute "lpush")
  else
    modify (store_lpush key value);;
    gets (fun r => Z.of_nat (length (default [] (lists r !! key)))).

Definition client_rpop (key : string) : M t (option string) :=
  c ← gets client;
  if negb c then raise (no_attribute "rpop")
  else
    l ← gets (fun r => default [] (lists r !! key));
    modify (store_rpop key);;
    ret (fst <$> pop_tail l).

Definition client_llen (key : string) : M t Z :=
  c ← gets client;
  if negb c then raise (no_attribute "llen")
  else gets (fun r => Z.of_nat (length (default [] (lists r !! key)))).

End RedisManager.

(** ** queueManager.py *)

Module QueueManager.

(** A registered handler: called with [job["data"]], it returns a value or
    raises.  Handlers are taken to act on nothing but their argument. *)
Definition handler : Type := json -> res value.

(** What the worker did besides store commands, newest first (ghost). *)
Inductive event : Type :=
| Slept (seconds : Z)
| Invoked (queue_name : string) (data : json).

Record t : Type := mk {
  redis : RedisManager.t;
  jobs : gmap string json;
  handlers : gmap string handler;
  clock_reads : nat;
  journal : list event
}.

Definition init (r : RedisManager.t) : t := mk r ∅ ∅ 0 [].

Definition with_redis (r : RedisManager.t) (q : t) : t :=
  mk r (jobs q) (handlers q) (clock_reads q) (journal q).
Definition with_jobs (m : gmap string json) (q : t) : t :=
  mk (redis q) m (handlers q) (clock_reads q) (journal q).
Definition with_handlers (m : gmap string handler) (q : t) : t :=
  mk (redis q) (jobs q) m (clock_reads q) (journal q).
Definition with_clock_reads (n : nat) (q : t) : t :=
  mk (redis q) (jobs q) (handlers q) n (journal q).
Definition record (e : event) (q : t) : t :=
  mk (redis q) (jobs q) (handlers q) (clock_reads q) (e :: journal q).

(** A call through [self.redis]. *)
Definition on_redis {A} (m : M RedisManager.t A) : M t A :=
  zoom redis with_redis m.

Definition job_key (job_id : string) : string := "job:" +:+ job_id.
Definition queue_key (queue_name : string) : string := "queue:" +:+ queue_name.

Section clock.
(** The wall clock: [now n] is what the [n]-th call of [datetime.now()]
    of this process reads, in microseconds since the epoch; [isoformat]
    renders a reading. *)
Context (now : nat -> Z) (isoformat : Z -> string).

Definition datetime_now : M t Z :=
  n ← gets clock_reads;
  modify (with_clock_reads (S n));;
  ret (now n).

(** [int(d.timestamp() * 1000)] *)
Definition epoch_ms (d : Z) : Z := (d ÷ 1000)%Z.

Definition sleep (seconds : Z) : M t unit := modify (record (Slept seconds)).

Definition add_job (queue_name : string) (job_data : json)
    (job_id : option string) : M t string :=
  job_id ←
    match job_id with
    | Some i =>
        if str_truthy i then ret i
        else d ← datetime_now; ret (queue_name +:+ "_" +:+ pretty (epoch_ms d))
    | None => d ← datetime_now; ret (queue_name +:+ "_" +:+ pretty (epoch_ms d))
    end;
  created ← datetime_now;
  updated ← datetime_now;
  let job := JObj [("id", JStr job_id);
                   ("queue", JStr queue_name);
                   ("data", job_data);
                   ("status", JStr "queued");
                   ("created_at", JStr (isoformat created));
                   ("updated_at", JStr (isoformat updated))] in
  (* Store job in Redis *)
  doc ← json_dumps job;
  on_redis (RedisManager.set (job_key job_id) doc None);;
  (* Add to queue *)
  on_redis (RedisManager.client_lpush (queue_key queue_name) job_id);;
  modify (fun q => with_jobs (<[job_id := job]> (jobs q)) q);;
  ret job_id.

Definition get_job (job_id : string) : M t (option json) :=
  job_data ← on_redis (RedisManager.get (job_key job_id));
  match job_data with
  | Some doc =>
      if text_truthy doc then job ← json_loads doc; ret (Some job)
      else ret None
  | None => ret None
  end.

(** [result] is [JNull] for the default [None].  A result that
    [json.dumps] refuses is put in the dictionary, and the serialisation of
    the job then raises. *)
Definition update_job_status (job_id : string) (status : string)
    (result : value) : M t unit :=
  job ← get_job job_id;
  match job with
  | Some job =>
      if truthy job then
        job ← py_setitem job "status" (JStr status);
        d ← datetime_now;
        job ← py_setitem job "updated_at" (JStr (isoformat d));
        match result with
        | Json result =>
            job ← match result with
                  | JNull => ret job
                  | _ => py_setitem job "result" result
                  end;
            doc ← json_dumps job;
            on_redis (RedisManager.set (job_key job_id) doc None);;
            modify (fun q => with_jobs (<[job_id := job]> (jobs q)) q)
        | Refused d => raise (dumps_exn d)
        end
      else ret tt
  | None => ret tt
  end.

Definition call (h : handler) (queue_name : string) (data : json) : M t value :=
  modify (record (Invoked queue_name data));;
  of_res (h data).

(** One turn of the [while True] loop of [process_queue]. *)
Definition process_queue_turn (queue_name : string) : M t unit :=
  try_except
    ((* Get next job from queue *)
     popped ← on_redis (RedisManager.client_rpop (queue_key queue_name));
     match popped with
     | None => sleep 1
     | Some job_id =>
         if negb (str_truthy job_id) then sleep 1
         else
           job ← get_job job_id;
           match job with
           | None => ret tt
           | Some job =>
               if negb (truthy job) then ret tt
               else
                 (* Mark job as processing *)
                 update_job_status job_id "processing" JNull;;
                 (* Process the job *)
                 h ← gets (fun q => handlers q !! queue_name);
                 match h with
                 | Some h =>
                     try_except
                       (data ← py_getitem job "data";
                        result ← call h queue_name data;
                        update_job_status job_id "completed" result)
                       (fun e => update_job_status job_id "failed" (JStr (exn_str e)))
                 | None => update_job_status job_id "failed" (JStr "No handler")
                 end
           end
     end)
    (fun e => sleep 5).

(** The loop has no exit of its own; [process_queue n] is its first [n]
    turns, and an exception that escapes a turn ends it. *)
Fixpoint process_queue (turns : nat) (queue_name : string) : M t unit :=
  match turns with
  | O => ret tt
  | S n => process_queue_turn queue_name;; process_queue n queue_name
  end.

Definition register_handler (queue_name : string) (h : handler) : M t unit :=
  modify (fun q => with_handlers (<[queue_name := h]> (handlers q)) q).

Definition start_worker (turns : nat) (queue_name : string) : M t unit :=
  process_queue turns queue_name.

End clock.

(** [j["queue"] == queue_name and j["status"] == status], for strings. *)
Definition job_matches (queue_name status : string) (j : json) : M t bool :=
  q ← py_getitem j "queue";
  match q with
  | JStr q =>
      if decide (q = queue_name) then
        st ← py_getitem j "status";
        ret (match st with JStr st => bool_decide (st = status) | _ => false end)
      else ret false
  | _ => ret false
  end.

(** [len([j for j in self.jobs.values() if ...])] *)
Fixpoint count_jobs (queue_name status : string) (js : list json) : M t Z :=
  match js with
  | [] => ret 0%Z
  | j :: js =>
      hit ← job_matches queue_name status j;
      n ← count_jobs queue_name status js;
      ret (if hit : bool then 1 + n else n)%Z
  end.

(** The mirror [self.jobs] is read in the order of the map's listing. *)
Definition get_queue_stats (queue_name : string) : M t json :=
  queue_length ← on_redis (RedisManager.client_llen (queue_key queue_name));
  js ← gets (fun q => (map_to_list (jobs q)).*2);
  active ← count_jobs queue_name "processing" js;
  completed ← count_jobs queue_name "completed" js;
  failed ← count_jobs queue_name "failed" js;
  ret (JObj [("queue_length", JNum queue_length);
             ("active_jobs", JNum active);
             ("completed_jobs", JNum completed);
             ("failed_jobs", JNum failed)]).

End QueueManager.

(** ** webSocketServer.py *)

Module WebSocketServer.

(** A WebSocket handle, by what its methods do: [true] returns, [false]
    raises. *)
Record WebSocket : Type := {
  accepts : bool;
  sends : json -> bool;
  closes : bool
}.

(** An [asyncio] task running [_listen_pubsub]: created and not yet run,
    waiting in [pubsub.listen()], returned, or cancelled. *)
Inductive task_state : Type :=
| Pending
| Listening
| Finished
| Cancelled.

#[global] Instance task_state_eq_dec : EqDecision task_state.
Proof. solve_decision. Defined.

Definition running (st : task_state) : bool :=
  match st with
  | Pending | Listening => true
  | Finished | Cancelled => false
  end.

(** What went over the handles, newest first (ghost). *)
Inductive event : Type :=
| Sent (connection_id : string) (message : json)
| Closed (connection_id : string).

(** [tasks] is the table of the tasks this registry created, indexed by
    creation order; [uuids] counts the draws of [uuid.uuid4()]. *)
Record t : Type := mk {
  redis : option RedisManager.t;
  active_connections : list (string * WebSocket);
  user_connections : list (string * gset string);
  pubsub_task : option nat;
  tasks : list task_state;
  uuids : nat;
  wire : list event
}.

Definition init (r : option RedisManager.t) : t := mk r [] [] None [] 0 [].

Definition with_redis (r : option RedisManager.t) (w : t) : t :=
  mk r (active_connections w) (user_connections w) (pubsub_task w) (tasks w) (uuids w) (wire w).
Definition with_active (a : list (string * WebSocket)) (w : t) : t :=
  mk (redis w) a (user_connections w) (pubsub_task w) (tasks w) (uuids w) (wire w).
Definition with_users (u : list (string * gset string)) (w : t) : t :=
  mk (redis w) (active_connections w) u (pubsub_task w) (tasks w) (uuids w) (wire w).
Definition with_pubsub_task (p : option nat) (w : t) : t :=
  mk (redis w) (active_connections w) (user_connections w) p (tasks w) (uuids w) (wire w).
Definition with_tasks (l : list task_state) (w : t) : t :=
  mk (redis w) (active_connections w) (user_connections w) (pubsub_task w) l (uuids w) (wire w).
Definition with_uuids (n : nat) (w : t) : t :=
  mk (redis w) (active_connections w) (user_connections w) (pubsub_task w) (tasks w) n (wire w).
Definition record (e : event) (w : t) : t :=
  mk (redis w) (active_connections w) (user_connections w) (pubsub_task w) (tasks w) (uuids w)
     (e :: wire w).

(** A call through [self.redis], for a registry that has one. *)
Definition on_redis {A} (m : M RedisManager.t A) : M t A :=
  fun w => match redis w with
           | Some r => match m r with (a, r') => (a, with_redis (Some r') w) end
           | None => (Raise (RedisManager.no_attribute "redis"), w)
           end.

(** *** The handle's methods *)
Definition ws_accept (ws : WebSocket) : M t unit :=
  if accepts ws then ret tt else raise (Exn "RuntimeError" "accept failed").

Definition ws_close (connection_id : string) (ws : WebSocket) : M t unit :=
  if closes ws then modify (record (Closed connection_id))
  else raise (Exn "RuntimeError" "close failed").

Definition ws_send_json (connection_id : string) (ws : WebSocket) (message : json) : M t unit :=
  if sends ws message then modify (record (Sent connection_id message))
  else raise (Exn "WebSocketDisconnect" "send failed").

(** *** The task table *)
Definition create_task : M t nat :=
  n ← gets (fun w => length (tasks w));
  modify (fun w => with_tasks (tasks w ++ [Pending])%list w);;
  ret n.

Definition set_task (task : nat) (st : task_state) : M t unit :=
  modify (fun w => with_tasks (<[task := st]> (tasks w)) w).

(** [task.cancel()]: a task that is not done becomes cancelled. *)
Definition task_cancel (task : nat) : M t unit :=
  st ← gets (fun w => tasks w !! task);
  match st with
  | Some st => if running st then set_task task Cancelled else ret tt
  | None => ret tt
  end.

(** [await task], after [cancel]: a cancelled task raises
    [CancelledError] in the awaiter, a returned one gives its result. *)
Definition task_await (task : nat) : M t unit :=
  st ← gets (fun w => tasks w !! task);
  match st with
  | Some Cancelled => raise (Exn "CancelledError" EmptyString)
  | _ => ret tt
  end.

(** The loop of [disconnect] over [user_connections.items()]: the first
    user whose set holds the id loses it, and loses its entry when the
    set becomes empty; then [break]. *)
Fixpoint forget (connection_id : string) (ucs : list (string * gset string))
    : list (string * gset string) :=
  match ucs with
  | [] => []
  | (user_id, connections) :: rest =>
      if decide (connection_id ∈ connections) then
        let connections := connections ∖ {[connection_id]} in
        if decide (connections = ∅) then rest
        else (user_id, connections) :: rest
      else (user_id, connections) :: forget connection_id rest
  end.

(** The lookup loop of [broadcast]: the first user whose set holds the id. *)
Fixpoint owner (connection_id : string) (ucs : list (string * gset string))
    : option string :=
  match ucs with
  | [] => None
  | (uid, connections) :: rest =>
      if decide (connection_id ∈ connections) then Some uid
      else owner connection_id rest
  end.

Section uuid.
(** [uuid4 n] is the [n]-th identifier drawn by [str(uuid.uuid4())]. *)
Context (uuid4 : nat -> string).

Definition new_uuid : M t string :=
  n ← gets uuids;
  modify (with_uuids (S n));;
  ret (uuid4 n).

Definition connect (websocket : WebSocket) (user_id : option string) : M t string :=
  ws_accept websocket;;
  connection_id ← new_uuid;
  modify (fun w => with_active (Dict.set connection_id websocket (active_connections w)) w);;
  match user_id with
  | Some user_id =>
      if str_truthy user_id then
        modify (fun w =>
          let ucs := user_connections w in
          let ucs := if negb (Dict.mem user_id ucs)
                     then Dict.set user_id (∅ : gset string) ucs else ucs in
          with_users
            (Dict.set user_id (default ∅ (Dict.get user_id ucs) ∪ {[connection_id]}) ucs) w)
      else ret tt
  | None => ret tt
  end;;
  (* Start listening for messages if Redis is available *)
  r ← gets redis;
  match r with
  | Some _ =>
      task ← create_task;
      modify (with_pubsub_task (Some task))
  | None => ret tt
  end;;
  ret connection_id.

Definition disconnect (connection_id : string) : M t unit :=
  ac ← gets active_connections;
  match Dict.get connection_id ac with
  | Some websocket =>
      try_except (ws_close connection_id websocket) (fun _ => ret tt);;
      modify (fun w => with_active (Dict.del connection_id (active_connections w)) w);;
      (* Remove from user connections *)
      modify (fun w => with_users (forget connection_id (user_connections w)) w)
  | None => ret tt
  end.

Definition send_to_connection (connection_id : string) (message : json) : M t bool :=
  ac ← gets active_connections;
  match Dict.get connection_id ac with
  | None => ret false
  | Some websocket =>
      try_except
        (ws_send_json connection_id websocket message;; ret true)
        (fun e => disconnect connection_id;; ret false)
  end.

(** The counting loop shared by [send_to_user] and, without exclusion,
    by [broadcast]. *)
Fixpoint send_each (connection_ids : list string) (message : json)
    (sent_count : Z) : M t Z :=
  match connection_ids with
  | [] => ret sent_count
  | connection_id :: rest =>
      ok ← send_to_connection connection_id message;
      send_each rest message (if ok : bool then sent_count + 1 else sent_count)%Z
  end.

Definition send_to_user (user_id : string) (message : json) : M t Z :=
  ucs ← gets user_connections;
  match Dict.get user_id ucs with
  | None => ret 0%Z
  | Some connections => send_each (elements connections) message 0%Z
  end.

Fixpoint broadcast_loop (items : list (string * WebSocket)) (message : json)
    (exclude_user : option string) (sent_count : Z) : M t Z :=
  match items with
  | [] => ret sent_count
  | (connection_id, websocket) :: rest =>
      (* Skip if user should be excluded *)
      skip ← match exclude_user with
             | Some x =>
                 if str_truthy x then
                   ucs ← gets user_connections;
                   ret (bool_decide (owner connection_id ucs = Some x))
                 else ret false
             | None => ret false
             end;
      if skip : bool then broadcast_loop rest message exclude_user sent_count
      else
        ok ← send_to_connection connection_id message;
        broadcast_loop rest message exclude_user
          (if ok : bool then sent_count + 1 else sent_count)%Z
  end.

Definition broadcast (message : json) (exclude_user : option string) : M t Z :=
  items ← gets active_connections;
  broadcast_loop items message exclude_user 0%Z.

Definition publish_message (channel : string) (message : json) : M t unit :=
  r ← gets redis;
  match r with
  | Some _ =>
      doc ← json_dumps message;
      on_redis (RedisManager.publish channel doc);;
      ret tt
  | None => ret tt
  end.

(** [_listen_pubsub] from the first run of its task to the wait in
    [pubsub.listen()]. *)
Definition listen_pubsub_start (task : nat) : M t unit :=
  st ← gets (fun w => tasks w !! task);
  match st with
  | Some Pending =>
      r ← gets redis;
      match r with
      | None => set_task task Finished
      | Some _ =>
          try_except
            (pubsub ← on_redis (RedisManager.subscribe ["websocket_broadcast"]);
             match pubsub with
             | Some _ => set_task task Listening
             | None => raise (RedisManager.no_attribute "listen")
             end)
            (fun e => set_task task Finished)
      end
  | _ => ret tt
  end.

(** [_listen_pubsub] on one message of kind [type] delivered to a
    listening task. *)
Definition listen_pubsub_message (task : nat) (type : string) (data : text) : M t unit :=
  st ← gets (fun w => tasks w !! task);
  match st with
  | Some Listening =>
      try_except
        (if decide (type = "message") then
           try_except_only "JSONDecodeError"
             (data ← json_loads data; broadcast data None;; ret tt)
             (ret tt)
         else ret tt)
        (fun e => set_task task Finished)
  | _ => ret tt
  end.

Definition get_connection_count : M t Z :=
  gets (fun w => Z.of_nat (length (active_connections w))).

Definition get_user_count : M t Z :=
  gets (fun w => Z.of_nat (length (user_connections w))).

Fixpoint disconnect_each (connection_ids : list string) : M t unit :=
  match connection_ids with
  | [] => ret tt
  | connection_id :: rest => disconnect connection_id;; disconnect_each rest
  end.

Definition cleanup : M t unit :=
  connection_ids ← gets (fun w => Dict.keys (active_connections w));
  disconnect_each connection_ids;;
  task ← gets pubsub_task;
  match task with
  | Some task =>
      task_cancel task;;
      try_except_only "CancelledError" (task_await task) (ret tt)
  | None => ret tt
  end.

End uuid.

(** What [websocket.receive_json()] gives next: a message, or an exception
    ([WebSocketDisconnect] when the peer has closed). *)
Inductive received : Type :=
| Message (data : json)
| Failure (e : exn).

(** [data.get(key)] *)
Definition py_get (o : json) (key : string) : M t (option json) :=
  match o with
  | JObj kvs => ret (Dict.get key kvs)
  | _ => raise (Exn "AttributeError" "object has no attribute 'get'")
  end.

Definition is_str (v : option json) (s : string) : bool :=
  match v with
  | Some (JStr s') => bool_decide (s' = s)
  | _ => false
  end.

(** The body of the receive loop for one message. *)
Definition handle_message (connection_id : string) (data : json) : M t unit :=
  (* Handle different message types *)
  message_type ← py_get data "type";
  if is_str message_type "ping" then
    send_to_connection connection_id (JObj [("type", JStr "pong")]);; ret tt
  else if is_str message_type "subscribe" then
    py_get data "channels";; ret tt
  else if is_str message_type "unsubscribe" then
    py_get data "channels";; ret tt
  else
    (* Echo or handle custom messages *)
    send_to_connection connection_id (JObj [("type", JStr "echo"); ("data", data)]);;
    ret tt.

(** The [while True] loop over what the socket gives; at the end of
    [inbox] the coroutine is waiting for the next message. *)
Fixpoint receive_loop (connection_id : string) (inbox : list received) : M t unit :=
  match inbox with
  | [] => ret tt
  | Message data :: inbox =>
      handle_message connection_id data;; receive_loop connection_id inbox
  | Failure e :: _ => raise e
  end.

Definition handle_client_messages (connection_id : string) (inbox : list received)
    : M t unit :=
  ac ← gets active_connections;
  match Dict.get connection_id ac with
  | None => ret tt
  | Some _ =>
      try_except (receive_loop connection_id inbox)
                 (fun e => disconnect connection_id)
  end.

End WebSocketServer.

(** ** baseApp.py: shutdown *)

Module BaseApp.

(** [DBManager], by its client: whether there is one, and whether it was
    closed. *)
Record DBManager : Type := {
  db_client : bool;
  db_closed : bool
}.

Definition db_disconnect (d : DBManager) : DBManager :=
  if db_client d then {| db_client := db_client d; db_closed := true |} else d.

(** The managers of the application. *)
Record t : Type := mk {
  redis_manager : option RedisManager.t;
  db_manager : option DBManager;
  websocket_server : option WebSocketServer.t
}.

(** [_shutdown].  Its last call, [self.websocket_server.disconnect()],
    gives no [connection_id], which Python refuses with [TypeError] before
    the method runs. *)
Definition _shutdown : M t unit :=
  (* Close connections *)
  r ← gets redis_manager;
  match r with
  | Some r =>
      zoom (fun _ => r) (fun r' a => mk (Some r') (db_manager a) (websocket_server a))
        RedisManager.disconnect
  | None => ret tt
  end;;
  d ← gets db_manager;
  match d with
  | Some d => modify (fun a => mk (redis_manager a) (Some (db_disconnect d)) (websocket_server a))
  | None => ret tt
  end;;
  w ← gets websocket_server;
  match w with
  | Some _ =>
      raise (Exn "TypeError"
               "disconnect() missing 1 required positional argument: 'connection_id'")
  | None => ret tt
  end.

End BaseApp.


(** ** Observations on the store and on the registry *)

Module Lifecycle.

(** The [status] field of a stored job document. *)
Definition status_of (doc : text) : option json :=
  match doc with
  | Dumps (JObj kvs) => Dict.get "status" kvs
  | _ => None
  end.

Definition result_of (doc : text) : option json :=
  match doc with
  | Dumps (JObj kvs) => Dict.get "result" kvs
  | _ => None
  end.

(** The statuses written under [job:<id>], newest first. *)
Fixpoint status_writes (job_id : string) (cs : list RedisManager.command)
    : list (option json) :=
  match cs with
  | [] => []
  | RedisManager.SET key value _ :: cs =>
      if decide (key = QueueManager.job_key job_id)
      then status_of value :: status_writes job_id cs
      else status_writes job_id cs
  | _ :: cs => status_writes job_id cs
  end.

(** Every status the store ever held for the job, oldest first. *)
Definition status_history (job_id : string) (r : RedisManager.t) : list (option json) :=
  reverse (status_writes job_id (RedisManager.commands r)).

Definition queued : option json := Some (JStr "queued").
Definition processing : option json := Some (JStr "processing").
Definition completed : option json := Some (JStr "completed").
Definition failed : option json := Some (JStr "failed").

(** One move along queued → processing → {completed, failed}. *)
Definition forward (a b : option json) : bool :=
  match a, b with
  | Some (JStr a), Some (JStr b) =>
      (String.eqb a "queued" && String.eqb b "processing")
      || (String.eqb a "processing"
          && (String.eqb b "completed" || String.eqb b "failed"))
  | _, _ => false
  end.

Fixpoint forward_only (h : list (option json)) : bool :=
  match h with
  | a :: (b :: _) as t => forward a b && forward_only t
  | _ => true
  end.

(** How many times an id sits in the queue lists of the store. *)
Definition count (job_id : string) (l : list string) : nat :=
  length (filter (fun x => x = job_id) l).

Definition occurrences (job_id : string) (m : gmap string (list string)) : nat :=
  map_fold (fun _ l n => (count job_id l + n)%nat) 0%nat m.

(** The document [add_job] builds. *)
Definition queued_job (job_id queue_name : string) (job_data : json)
    (created_at updated_at : string) : json :=
  JObj [("id", JStr job_id);
        ("queue", JStr queue_name);
        ("data", job_data);
        ("status", JStr "queued");
        ("created_at", JStr created_at);
        ("updated_at", JStr updated_at)].

(** The fields of a job after [update_job_status] set them. *)
Definition stamp (status : string) (result : json) (updated_at : string)
    (kvs : list (string * json)) : list (string * json) :=
  let kvs := Dict.set "updated_at" (JStr updated_at)
               (Dict.set "status" (JStr status) kvs) in
  match result with
  | JNull => kvs
  | _ => Dict.set "result" result kvs
  end.

Definition settled (f : option json) : Prop := f = completed \/ f = failed.

(** A document of the mirror that has a queue and a status, and whether
    it is a job of the queue in the status. *)
Definition job_document (j : json) : bool :=
  match j with
  | JObj kvs =>
      match Dict.get "queue" kvs, Dict.get "status" kvs with
      | Some _, Some _ => true
      | _, _ => false
      end
  | _ => false
  end.

Definition in_status (queue_name status : string) (j : json) : bool :=
  match j with
  | JObj kvs =>
      match Dict.get "queue" kvs, Dict.get "status" kvs with
      | Some (JStr q), Some (JStr st) =>
          bool_decide (q = queue_name) && bool_decide (st = status)
      | _, _ => false
      end
  | _ => false
  end.

Definition number_in_status (queue_name status : string) (js : list json) : Z :=
  Z.of_nat (length (filter (fun j => in_status queue_name status j = true) js)).

(** What holds of a job id [j] that is fresh at first and enqueued at most
    once: before it is enqueued nothing was written for it; once enqueued
    it is either waiting, once in the lists with its document queued, or
    it went through processing to completed or failed and left the lists,
    or it was left processing by a handler whose exception ended the
    turn. *)
Definition lifecycle_inv (j : string) (enqueued : bool) (s : QueueManager.t) : Prop :=
  let r := QueueManager.redis s in
  if enqueued then
    (RedisManager.client r = true
     /\ j ≠ EmptyString
     /\ occurrences j (RedisManager.lists r) = 1%nat
     /\ status_history j r = [queued]
     /\ exists kvs,
          RedisManager.strings r !! QueueManager.job_key j = Some (Dumps (JObj kvs))
          /\ kvs ≠ []
          /\ Dict.get "status" kvs = Some (JStr "queued"))
    \/ (occurrences j (RedisManager.lists r) = 0%nat
        /\ exists f,
             settled f
             /\ status_history j r = [queued; processing; f]
             /\ status_of <$> RedisManager.strings r !! QueueManager.job_key j = Some f)
    \/ (occurrences j (RedisManager.lists r) = 0%nat
        /\ status_history j r = [queued; processing]
        /\ status_of <$> RedisManager.strings r !! QueueManager.job_key j
           = Some processing)
  else
    occurrences j (RedisManager.lists r) = 0%nat /\ status_history j r = [].

(** An operation that leaves the job [j] alone. *)
Definition frame (j : string) (r r' : RedisManager.t) : Prop :=
  (RedisManager.client r = true -> RedisManager.client r' = true)
  /\ RedisManager.strings r' !! QueueManager.job_key j
     = RedisManager.strings r !! QueueManager.job_key j
  /\ status_history j r' = status_history j r
  /\ occurrences j (RedisManager.lists r') = occurrences j (RedisManager.lists r).

Section clock.
Context (now : nat -> Z) (isoformat : Z -> string).

(** The state after [update_job_status] rewrote the document [kvs]. *)
Definition written (job_id status : string) (result : json)
    (kvs : list (string * json)) (s : QueueManager.t) : QueueManager.t :=
  let kvs' := stamp status result (isoformat (now (QueueManager.clock_reads s))) kvs in
  QueueManager.mk
    (RedisManager.store_set (QueueManager.job_key job_id) (Dumps (JObj kvs')) None
       (QueueManager.redis s))
    (<[job_id := JObj kvs']> (QueueManager.jobs s))
    (QueueManager.handlers s)
    (S (QueueManager.clock_reads s))
    (QueueManager.journal s).

(** The state a turn reaches when it pops the id of a job whose document
    is in the store.  A result that [json.dumps] refuses costs the
    completing update its clock reading before the job is marked failed;
    an exception of the handler that is not an [Exception] leaves the job
    processing. *)
Definition after_turn (queue_name job_id : string) (kvs : list (string * json))
    (q : QueueManager.t) : QueueManager.t :=
  let q1 := QueueManager.with_redis
              (RedisManager.store_rpop (QueueManager.queue_key queue_name)
                 (QueueManager.redis q)) q in
  let kvs1 := stamp "processing" JNull (isoformat (now (QueueManager.clock_reads q))) kvs in
  let q2 := written job_id "processing" JNull kvs q1 in
  match (QueueManager.handlers q !! queue_name : option QueueManager.handler) with
  | None => written job_id "failed" (JStr "No handler") kvs1 q2
  | Some h =>
      match Dict.get "data" kvs with
      | None => written job_id "failed" (JStr "'data'") kvs1 q2
      | Some data =>
          let q3 := QueueManager.record (QueueManager.Invoked queue_name data) q2 in
          match h data with
          | Ok (Json result) => written job_id "completed" result kvs1 q3
          | Ok (Refused d) =>
              written job_id "failed" (JStr (exn_str (dumps_exn d))) kvs1
                (QueueManager.with_clock_reads (S (QueueManager.clock_reads q3)) q3)
          | Raise e =>
              if is_exception e
              then written job_id "failed" (JStr (exn_str e)) kvs1 q3
              else q3
          end
      end
  end.

(** What such a turn gives: it returns, unless the handler raised outside
    [Exception]. *)
Definition turn_result (queue_name : string) (kvs : list (string * json))
    (q : QueueManager.t) : res unit :=
  match (QueueManager.handlers q !! queue_name : option QueueManager.handler) with
  | None => Ok tt
  | Some h =>
      match Dict.get "data" kvs with
      | None => Ok tt
      | Some data =>
          match h data with
          | Ok _ => Ok tt
          | Raise e => if is_exception e then Ok tt else Raise e
          end
      end
  end.

(** The statuses a turn writes after processing, by what the handler
    gave, and what the turn adds to the journal. *)
Definition settles (r : res value) : list (option json) :=
  match r with
  | Ok (Json _) => [completed]
  | Ok (Refused _) => [failed]
  | Raise e => if is_exception e then [failed] else []
  end.

Definition turn_statuses (queue_name : string) (kvs : list (string * json))
    (q : QueueManager.t) : list (option json) :=
  match (QueueManager.handlers q !! queue_name : option QueueManager.handler) with
  | None => [failed]
  | Some h =>
      match Dict.get "data" kvs with
      | None => [failed]
      | Some data => settles (h data)
      end
  end.

Definition turn_journal (queue_name : string) (kvs : list (string * json))
    (q : QueueManager.t) : list QueueManager.event :=
  match (QueueManager.handlers q !! queue_name : option QueueManager.handler) with
  | None => QueueManager.journal q
  | Some h =>
      match Dict.get "data" kvs with
      | None => QueueManager.journal q
      | Some data => QueueManager.Invoked queue_name data :: QueueManager.journal q
      end
  end.

(** Every exception the handler registered for the queue raises is an
    [Exception]. *)
Definition catchable (queue_name : string) (q : QueueManager.t) : Prop :=
  forall h data e,
    QueueManager.handlers q !! queue_name = Some h -> h data = Raise e ->
    is_exception e = true.

(** The operations of the subsystem that write to the store. *)
Inductive op : Type :=
| Connect
| RegisterHandler (queue_name : string) (h : QueueManager.handler)
| AddJob (queue_name : string) (job_data : json) (job_id : option string)
| Turn (queue_name : string).

Definition run_op (o : op) : M QueueManager.t unit :=
  match o with
  | Connect => QueueManager.on_redis RedisManager.connect
  | RegisterHandler queue_name h => QueueManager.register_handler queue_name h
  | AddJob queue_name job_data job_id =>
      QueueManager.add_job now isoformat queue_name job_data job_id;; ret tt
  | Turn queue_name => QueueManager.process_queue_turn now isoformat queue_name
  end.

(** The operation enqueues a job under the id [j]. *)
Definition enqueues (j : string) (o : op) (s : QueueManager.t) : Prop :=
  match o with
  | AddJob queue_name job_data job_id =>
      outcome (QueueManager.add_job now isoformat queue_name job_data job_id s) = Ok j
  | _ => False
  end.

(** The states reached from [s0] by operations of which at most one
    enqueues [j]; the flag tells whether it has happened. *)
Inductive reach (j : string) (s0 : QueueManager.t) : bool -> QueueManager.t -> Prop :=
| reach_start : reach j s0 false s0
| reach_step b s o :
    reach j s0 b s -> ¬ enqueues j o s -> reach j s0 b (final (run_op o s))
| reach_enqueue s o :
    reach j s0 false s -> enqueues j o s -> reach j s0 true (final (run_op o s)).

(** The states reached by any operations, [update_job_status] included. *)
Inductive reach_any (s0 : QueueManager.t) : QueueManager.t -> Prop :=
| any_start : reach_any s0 s0
| any_op s o : reach_any s0 s -> reach_any s0 (final (run_op o s))
| any_update s job_id status result :
    reach_any s0 s ->
    reach_any s0
      (final (QueueManager.update_job_status now isoformat job_id status result s)).
End clock.

End Lifecycle.

Module Registry.
Import WebSocketServer.

(** The dictionaries have one entry per key. *)
Definition well_formed (w : t) : Prop :=
  NoDup (Dict.keys (active_connections w)) /\ NoDup (Dict.keys (user_connections w)).

(** Every id in a user's set is a key of the active connections. *)
Definition sets_within_active (w : t) : Prop :=
  forall user_id connections connection_id,
    Dict.get user_id (user_connections w) = Some connections ->
    connection_id ∈ connections ->
    is_Some (Dict.get connection_id (active_connections w)).

Definition sets_nonempty (w : t) : Prop :=
  forall user_id connections,
    Dict.get user_id (user_connections w) = Some connections -> connections ≠ ∅.

(** A connection id belongs to at most one user's set. *)
Definition single_owner (w : t) : Prop :=
  forall u1 s1 u2 s2 connection_id,
    Dict.get u1 (user_connections w) = Some s1 ->
    Dict.get u2 (user_connections w) = Some s2 ->
    connection_id ∈ s1 -> connection_id ∈ s2 -> u1 = u2.

Definition registry_inv (w : t) : Prop :=
  well_formed w /\ sets_within_active w /\ sets_nonempty w /\ single_owner w.

(** The messages delivered to a connection, newest first. *)
Definition delivered (connection_id : string) (w : t) : list json :=
  omap (fun e => match e with
                 | Sent c m => if decide (c = connection_id) then Some m else None
                 | Closed _ => None
                 end) (wire w).

(** The listener tasks that are not done. *)
Definition running_tasks (w : t) : list nat :=
  omap (fun '(i, st) => if running st then Some i else None) (imap pair (tasks w)).

(** The connection is registered and its handle takes the message. *)
Definition will_send (message : json) (w : t) (connection_id : string) : bool :=
  match Dict.get connection_id (active_connections w) with
  | Some websocket => sends websocket message
  | None => false
  end.

(** [broadcast] skips the connection: a user to exclude is given and owns it. *)
Definition excluded (exclude_user : option string) (w : t) (connection_id : string) : bool :=
  match exclude_user with
  | Some x =>
      str_truthy x && bool_decide (owner connection_id (user_connections w) = Some x)
  | None => false
  end.

(** The connections a broadcast reaches. *)
Definition reached (message : json) (exclude_user : option string) (w : t)
    (connection_id : string) : bool :=
  negb (excluded exclude_user w connection_id) && will_send message w connection_id.

(** What ends the receive loop: an exception of the socket, or a message
    that is not an object. *)
Definition breaks (r : received) : bool :=
  match r with
  | Failure _ => true
  | Message (JObj _) => false
  | Message _ => true
  end.

(** The exception that ends the receive loop, if one does: the one the
    socket raised, or the [AttributeError] of a message that is not an
    object. *)
Fixpoint loop_exit (inbox : list received) : option exn :=
  match inbox with
  | [] => None
  | Message (JObj _) :: inbox => loop_exit inbox
  | Message _ :: _ => Some (Exn "AttributeError" "object has no attribute 'get'")
  | Failure e :: _ => Some e
  end.

(** The answer of the receive loop to one message: [pong] to a ping,
    nothing to a subscription, an echo to anything else. *)
Definition reply (data : json) : option json :=
  match data with
  | JObj kvs =>
      let message_type := Dict.get "type" kvs in
      if is_str message_type "ping" then Some (JObj [("type", JStr "pong")])
      else if is_str message_type "subscribe" then None
      else if is_str message_type "unsubscribe" then None
      else Some (JObj [("type", JStr "echo"); ("data", data)])
  | _ => None
  end.

Definition reply_of (r : received) : option json :=
  match r with
  | Message data => reply data
  | Failure _ => None
  end.

End Registry.

(** ** Concrete states *)

Module Examples.

Definition now0 (n : nat) : Z := (1700000000000000 + Z.of_nat n)%Z.
Definition iso0 (d : Z) : string := pretty d.

Definition payload : json := JObj [("x", JNum 1)].

(** A connected, empty store and a manager on it. *)
Definition store0 : RedisManager.t := RedisManager.with_client true RedisManager.init.
Definition q0 : QueueManager.t := QueueManager.init store0.

(** The job ["a"] enqueued on ["jobs"]. *)
Definition q_a : QueueManager.t :=
  final (QueueManager.add_job now0 iso0 "jobs" payload (Some "a") q0).

Definition fields_a : list (string * json) :=
  [("id", JStr "a"); ("queue", JStr "jobs"); ("data", payload);
   ("status", JStr "queued");
   ("created_at", JStr "1700000000000000");
   ("updated_at", JStr "1700000000000001")].

(** An id in the queue with no document behind it. *)
Definition q_ghost : QueueManager.t :=
  QueueManager.init (RedisManager.store_lpush "queue:jobs" "ghost" store0).

(** ["a"] enqueued, processed by one turn, and enqueued again. *)
Definition q_processed : QueueManager.t :=
  final (Lifecycle.run_op now0 iso0 (Lifecycle.Turn "jobs")
           (final (Lifecycle.run_op now0 iso0
                     (Lifecycle.AddJob "jobs" payload (Some "a")) q0))).

Definition q_again : QueueManager.t :=
  final (Lifecycle.run_op now0 iso0 (Lifecycle.AddJob "jobs" payload (Some "a"))
           q_processed).

(** Identifiers drawn in order: "0", "1", ... *)
Definition uuid0 (n : nat) : string := pretty n.

(** A handle that works, and one whose sends fail. *)
Definition ws_ok : WebSocketServer.WebSocket :=
  {| WebSocketServer.accepts := true;
     WebSocketServer.sends := fun _ => true;
     WebSocketServer.closes := true |}.

Definition ws_dead : WebSocketServer.WebSocket :=
  {| WebSocketServer.accepts := true;
     WebSocketServer.sends := fun _ => false;
     WebSocketServer.closes := false |}.

(** A registry with a connected manager, and one without a manager. *)
Definition w0 : WebSocketServer.t := WebSocketServer.init (Some store0).
Definition w_local : WebSocketServer.t := WebSocketServer.init None.

(** alice on two connections and an anonymous one, without a manager. *)
Definition w_alice : WebSocketServer.t :=
  final (WebSocketServer.connect uuid0 ws_ok None
    (final (WebSocketServer.connect uuid0 ws_dead (Some "alice")
      (final (WebSocketServer.connect uuid0 ws_ok (Some "alice") w_local))))).

(** alice alone, on her two connections. *)
Definition w_only_alice : WebSocketServer.t :=
  final (WebSocketServer.connect uuid0 ws_dead (Some "alice")
    (final (WebSocketServer.connect uuid0 ws_ok (Some "alice") w_local))).

(** Two clients connect, the listener tasks run to their wait; then the
    registry is torn down. *)
Definition w_two : WebSocketServer.t :=
  final ((WebSocketServer.connect uuid0 ws_ok (Some "alice");;
          WebSocketServer.listen_pubsub_start 0;;
          WebSocketServer.connect uuid0 ws_ok (Some "bob");;
          WebSocketServer.listen_pubsub_start 1) w0).

Definition w_torn_down : WebSocketServer.t := final (WebSocketServer.cleanup w_two).

(** A handler that returns its argument, and one that raises. *)
Definition echo : QueueManager.handler := fun data => Ok (Json data).
Definition broken : QueueManager.handler := fun _ => Raise (Exn "ValueError" "broken").

(** A handler that returns a set, which [json.dumps] refuses, and one that
    is cancelled while it runs. *)
Definition gives_set : QueueManager.handler :=
  fun _ => Ok (Refused (NotSerializable "set")).
Definition cancelled : QueueManager.handler :=
  fun _ => Raise (Exn "CancelledError" EmptyString).

(** The job ["a"] enqueued on ["jobs"], with a handler for the queue. *)
Definition q_handled : QueueManager.t :=
  final (QueueManager.register_handler "jobs" echo q_a).

Definition q_broken : QueueManager.t :=
  final (QueueManager.register_handler "jobs" broken q_a).

Definition q_gives_set : QueueManager.t :=
  final (QueueManager.register_handler "jobs" gives_set q_a).

Definition q_cancelled : QueueManager.t :=
  final (QueueManager.register_handler "jobs" cancelled q_a).

(** A connected manager with a handler for ["jobs"] and nothing queued. *)
Definition q_worker : QueueManager.t :=
  final (QueueManager.register_handler "jobs" echo q0).

(** A manager that was never connected. *)
Definition q_off : QueueManager.t := QueueManager.init RedisManager.init.

(** An id in the queue whose stored text is not JSON. *)
Definition q_raw : QueueManager.t :=
  QueueManager.init
    (RedisManager.store_lpush "queue:jobs" "bad"
       (RedisManager.store_set "job:bad" (Raw "not json") None store0)).

(** An id in the queue whose document has no data, with a handler. *)
Definition fields_b : list (string * json) := [("id", JStr "b"); ("queue", JStr "jobs")].

Definition q_nodata : QueueManager.t :=
  final (QueueManager.register_handler "jobs" echo
           (QueueManager.init
              (RedisManager.store_lpush "queue:jobs" "b"
                 (RedisManager.store_set "job:b" (Dumps (JObj fields_b)) None store0)))).

(** One client connected on a registry with a manager: its listener task
    has not run yet. *)
Definition w_pending : WebSocketServer.t :=
  final (WebSocketServer.connect uuid0 ws_ok None w0).

Definition ping : json := JObj [("type", JStr "ping")].
Definition subscribe_news : json :=
  JObj [("type", JStr "subscribe"); ("channels", JArr [JStr "news"])].
Definition hello : json := JObj [("text", JStr "hello")].

End Examples.

(** * Facts *)

(** ** Dictionaries *)

Module DictFacts.
Import Dict.
Section dict.
Context {V : Type}.
Implicit Types (d : list (string * V)) (k : string) (v : V).

Lemma get_set_eq k v d : get k (set k v d) = Some v.
Proof.
  induction d as [|[k' v'] d IH]; simpl.
  - by rewrite decide_True.
  - destruct (decide (k' = k)) as [->|Hne]; simpl.
    + by rewrite decide_True.
    + by rewrite decide_False.
Qed.

Lemma get_set_ne k k' v d : k ≠ k' -> get k' (set k v d) = get k' d.
Proof.
  intros Hne. induction d as [|[k0 v0] d IH]; simpl.
  - by rewrite decide_False.
  - destruct (decide (k0 = k)) as [->|Hk]; simpl.
    + by rewrite !decide_False.
    + destruct (decide (k0 = k')); done.
Qed.

Lemma get_None k d : get k d = None <-> k ∉ keys d.
Proof.
  unfold keys. induction d as [|[k' v'] d IH]; simpl.
  - split; [intros _; apply not_elem_of_nil | done].
  - rewrite not_elem_of_cons. destruct (decide (k' = k)) as [->|Hne].
    + split; [done | intros [? _]; done].
    + rewrite IH. split; [intros ?; split; [congruence | done] | by intros [_ ?]].
Qed.

Lemma keys_del_subseteq k d : keys (del k d) ⊆ keys d.
Proof.
  unfold keys. induction d as [|[k' v'] d IH]; simpl; [done|].
  destruct (decide (k' = k)); simpl.
  - intros x Hx. by apply list_elem_of_further.
  - intros x. rewrite !elem_of_cons. intros [->|?]; [by left | right; by apply IH].
Qed.

Lemma NoDup_del k d : NoDup (keys d) -> NoDup (keys (del k d)).
Proof.
  unfold keys. induction d as [|[k' v'] d IH]; simpl; [done|].
  rewrite NoDup_cons. intros [Hk Hnd].
  destruct (decide (k' = k)); simpl; [done|].
  apply NoDup_cons. split; [|auto].
  intros Hin. apply Hk. by apply (keys_del_subseteq k d).
Qed.

Lemma get_del_eq k d : NoDup (keys d) -> get k (del k d) = None.
Proof.
  unfold keys. induction d as [|[k' v'] d IH]; simpl; [done|].
  rewrite NoDup_cons. intros [Hk Hnd].
  destruct (decide (k' = k)) as [->|Hne]; simpl.
  - by apply get_None.
  - rewrite decide_False; auto.
Qed.

Lemma get_del_ne k k' d : k ≠ k' -> get k' (del k d) = get k' d.
Proof.
  intros Hne. induction d as [|[k0 v0] d IH]; simpl; [done|].
  destruct (decide (k0 = k)) as [->|Hk]; simpl.
  - by rewrite decide_False.
  - destruct (decide (k0 = k')); done.
Qed.

Lemma keys_set k v d :
  keys (set k v d) = if mem k d then keys d else (keys d ++ [k])%list.
Proof.
  unfold keys, mem. induction d as [|[k' v'] d IH]; csimpl; [done|].
  destruct (decide (k' = k)) as [->|Hne]; csimpl; [done|].
  rewrite IH. by destruct (get k d).
Qed.

Lemma set_nonempty k v d : set k v d ≠ [].
Proof. destruct d as [|[k' v'] d]; simpl; [done|]. by case_decide. Qed.

Lemma get_Some_keys k v d : get k d = Some v -> k ∈ keys d.
Proof.
  intros H. destruct (decide (k ∈ keys d)) as [|Hn]; [done|].
  apply get_None in Hn. congruence.
Qed.

Lemma elem_keys_get k d : k ∈ keys d -> is_Some (get k d).
Proof.
  intros H. destruct (get k d) eqn:E; [by eexists|].
  by apply get_None in E.
Qed.

Lemma set_set k v v0 d : set k v (set k v0 d) = set k v d.
Proof.
  induction d as [|[k' v'] d IH]; simpl.
  - by rewrite decide_True.
  - destruct (decide (k' = k)) as [->|Hne]; simpl.
    + by rewrite decide_True.
    + rewrite decide_False by done. by rewrite IH.
Qed.

Lemma NoDup_set k v d : NoDup (keys d) -> NoDup (keys (set k v d)).
Proof.
  intros Hnd. rewrite keys_set. unfold mem.
  destruct (get k d) eqn:E; [done|].
  apply NoDup_app. split_and!; [done| |apply NoDup_singleton].
  intros x Hx Hx'. apply list_elem_of_singleton in Hx' as ->.
  by apply get_None in E.
Qed.
End dict.
End DictFacts.

(** ** Evaluating computations *)

Ltac unfold_monad :=
  unfold mbind, mret, M_bind, M_ret, bind, ret, raise, gets, modify, of_res,
    try_except, try_except_only, zoom, outcome, final in *.

(** ** The store *)

Module RedisFacts.
Import RedisManager.

Lemma pop_tail_snoc l x : pop_tail (l ++ [x]) = Some (x, l).
Proof. unfold pop_tail. by rewrite reverse_snoc, reverse_involutive. Qed.

Lemma pop_tail_Some l x l' : pop_tail l = Some (x, l') -> l = (l' ++ [x])%list.
Proof.
  unfold pop_tail. destruct (reverse l) as [|y r] eqn:E; [done|].
  intros [= -> <-]. by rewrite <- (reverse_involutive l), E, reverse_cons.
Qed.

Lemma client_store_rpop key r : client (store_rpop key r) = client r.
Proof. unfold store_rpop. by destruct (pop_tail _) as [[x [|]]|]. Qed.

Lemma strings_store_rpop key r : strings (store_rpop key r) = strings r.
Proof. unfold store_rpop. by destruct (pop_tail _) as [[x [|]]|]. Qed.

Lemma commands_store_rpop key r :
  commands (store_rpop key r) = RPOP key :: commands r.
Proof. unfold store_rpop. by destruct (pop_tail _) as [[x [|]]|]. Qed.

Lemma lists_store_rpop key r :
  lists (store_rpop key r) =
    match pop_tail (default [] (lists r !! key)) with
    | None => lists r
    | Some (_, []) => base.delete key (lists r)
    | Some (_, l') => <[key := l']> (lists r)
    end.
Proof. unfold store_rpop. by destruct (pop_tail _) as [[x [|]]|]. Qed.

Lemma client_rpop_connected key r :
  client r = true ->
  client_rpop key r
    = (Ok (fst <$> pop_tail (default [] (lists r !! key))), store_rpop key r).
Proof.
  intros Hc. unfold client_rpop. unfold_monad. by rewrite Hc.
Qed.

End RedisFacts.

Module QueueFacts.
Import RedisManager QueueManager Lifecycle RedisFacts.

Section clock.
Context (now : nat -> Z) (isoformat : Z -> string).

Local Abbreviation add_job := (QueueManager.add_job now isoformat).
Local Abbreviation get_job := (QueueManager.get_job).
Local Abbreviation update_job_status := (QueueManager.update_job_status now isoformat).
Local Abbreviation process_queue_turn := (QueueManager.process_queue_turn now isoformat).
Local Abbreviation process_queue := (QueueManager.process_queue now isoformat).
Local Abbreviation written := (Lifecycle.written now isoformat).
Local Abbreviation after_turn := (Lifecycle.after_turn now isoformat).

(** *** What [add_job] does *)

Lemma add_job_connected queue_name job_data job_id q :
  client (redis q) = true ->
  let synth := negb (from_option str_truthy false job_id) in
  let k := (clock_reads q + (if synth then 1 else 0))%nat in
  let id := if synth
            then queue_name +:+ "_" +:+ pretty (epoch_ms (now (clock_reads q)))
            else default EmptyString job_id in
  let job := queued_job id queue_name job_data
               (isoformat (now k)) (isoformat (now (S k))) in
  add_job queue_name job_data job_id q =
    (Ok id,
     QueueManager.mk
       (store_lpush (queue_key queue_name) id
          (store_set (job_key id) (Dumps job) None (redis q)))
       (<[id := job]> (jobs q)) (handlers q) (S (S k)) (journal q)).
Proof.
  intros Hc. destruct q as [[c strs ex ls subs cmds] jobs hs n jnl].
  simpl in Hc. subst c.
  unfold QueueManager.add_job, on_redis, RedisManager.set, client_lpush,
    datetime_now, json_dumps.
  destruct job_id as [[|a i]|]; unfold_monad; simpl;
    rewrite ?Nat.add_0_r, ?Nat.add_1_r; reflexivity.
Qed.

Lemma add_job_unconnected queue_name job_data job_id q :
  client (redis q) = false ->
  outcome (add_job queue_name job_data job_id q) = Raise (no_attribute "lpush")
  /\ redis (final (add_job queue_name job_data job_id q)) = redis q.
Proof.
  intros Hc. destruct q as [[c strs ex ls subs cmds] jobs hs n jnl].
  simpl in Hc. subst c.
  unfold QueueManager.add_job, on_redis, RedisManager.set, client_lpush,
    datetime_now, json_dumps.
  destruct job_id as [[|a i]|]; unfold_monad; simpl; done.
Qed.

Lemma synthesized_truthy queue_name (suffix : string) :
  str_truthy (queue_name +:+ "_" +:+ suffix) = true.
Proof. by destruct queue_name. Qed.

(** **** C5 *)

(** C5, as amended.  On a connected store, [add_job] writes the job
    document, with status queued and both timestamps read from the clock,
    under [job:<id>] and only then pushes the id on [queue:<queue_name>];
    it returns the id, which is the caller's when one is given and not
    empty, and [<queue_name>_<milliseconds>] when none is given or the one
    given is the empty string. *)
Theorem add_job_record_before_push queue_name job_data job_id q :
  client (redis q) = true ->
  let run := add_job queue_name job_data job_id q in
  exists id created updated,
    (forall i, job_id = Some i -> i ≠ EmptyString -> id = i)
    /\ (job_id = None ->
        id = queue_name +:+ "_" +:+ pretty (now (clock_reads q) ÷ 1000)%Z)
    /\ (job_id = Some EmptyString ->
        id = queue_name +:+ "_" +:+ pretty (now (clock_reads q) ÷ 1000)%Z)
    /\ outcome run = Ok id
    /\ let job := JObj [("id", JStr id);
                        ("queue", JStr queue_name);
                        ("data", job_data);
                        ("status", JStr "queued");
                        ("created_at", JStr (isoformat (now created)));
                        ("updated_at", JStr (isoformat (now updated)))] in
       redis (final run) =
         store_lpush (queue_key queue_name) id
           (store_set (job_key id) (Dumps job) None (redis q))
       /\ commands (redis (final run)) =
            LPUSH (queue_key queue_name) id
              :: SET (job_key id) (Dumps job) None :: commands (redis q)
       /\ strings (redis (final run)) !! job_key id = Some (Dumps job)
       /\ lists (redis (final run)) !! queue_key queue_name =
            Some (id :: default [] (lists (redis q) !! queue_key queue_name)).
Proof.
  intros Hc run. subst run. rewrite (add_job_connected _ _ _ _ Hc).
  set (synth := negb (from_option str_truthy false job_id)).
  set (k := (clock_reads q + (if synth then 1 else 0))%nat).
  eexists _, k, (S k). split_and!; [| | |reflexivity|].
  - intros i -> Hi. subst synth. destruct i; done.
  - by intros ->.
  - by intros ->.
  - lazy zeta. split_and!; [reflexivity|reflexivity| |].
    + simpl. by rewrite lookup_insert_eq.
    + simpl. by rewrite lookup_insert_eq.
Qed.

(** *** What [update_job_status] and one turn of the worker do *)

Lemma stamp_nonempty status result updated_at kvs :
  stamp status result updated_at kvs ≠ [].
Proof. unfold stamp. destruct result; apply DictFacts.set_nonempty. Qed.

Lemma stamp_status status result updated_at kvs :
  Dict.get "status" (stamp status result updated_at kvs) = Some (JStr status).
Proof.
  unfold stamp.
  destruct result;
    rewrite ?(DictFacts.get_set_ne "result" "status") by done;
    rewrite (DictFacts.get_set_ne "updated_at" "status") by done;
    apply DictFacts.get_set_eq.
Qed.

Lemma stamp_result status result updated_at kvs :
  result ≠ JNull ->
  Dict.get "result" (stamp status result updated_at kvs) = Some result.
Proof.
  unfold stamp. destruct result; try done; intros _; apply DictFacts.get_set_eq.
Qed.

Lemma stamp_other status result updated_at kvs k :
  k ≠ "status" -> k ≠ "updated_at" -> k ≠ "result" ->
  Dict.get k (stamp status result updated_at kvs) = Dict.get k kvs.
Proof.
  intros H1 H2 H3. unfold stamp.
  destruct result;
    rewrite ?(DictFacts.get_set_ne "result" k) by congruence;
    rewrite (DictFacts.get_set_ne "updated_at" k) by congruence;
    by rewrite (DictFacts.get_set_ne "status" k) by congruence.
Qed.

Lemma stamp_updated_at status result updated_at kvs :
  Dict.get "updated_at" (stamp status result updated_at kvs) = Some (JStr updated_at).
Proof.
  unfold stamp.
  destruct result;
    rewrite ?(DictFacts.get_set_ne "result" "updated_at") by done;
    apply DictFacts.get_set_eq.
Qed.

Lemma stamp_keeps_result status updated_at kvs :
  Dict.get "result" (stamp status JNull updated_at kvs) = Dict.get "result" kvs.
Proof.
  unfold stamp.
  rewrite (DictFacts.get_set_ne "updated_at" "result") by done.
  by rewrite (DictFacts.get_set_ne "status" "result") by done.
Qed.

Lemma update_job_status_dict job_id status (result : json) kvs q :
  client (redis q) = true ->
  strings (redis q) !! job_key job_id = Some (Dumps (JObj kvs)) ->
  kvs ≠ [] ->
  update_job_status job_id status result q
    = (Ok tt, written job_id status result kvs q).
Proof.
  intros Hc Hdoc Hne. destruct q as [[c strs ex ls subs cmds] jobs hs n jnl].
  simpl in Hc, Hdoc. subst c.
  unfold QueueManager.update_job_status, QueueManager.get_job, on_redis,
    RedisManager.get, RedisManager.set, datetime_now, json_dumps, json_loads,
    py_setitem.
  unfold_monad. simpl. rewrite Hdoc. simpl.
  destruct kvs as [|kv kvs]; [done|]. simpl.
  unfold Lifecycle.written, stamp. simpl.
  destruct result; reflexivity.
Qed.

(** A result that [json.dumps] refuses: the update reads the clock and
    raises, with nothing written. *)
Lemma update_job_status_refused job_id status d kvs q :
  client (redis q) = true ->
  strings (redis q) !! job_key job_id = Some (Dumps (JObj kvs)) ->
  kvs ≠ [] ->
  update_job_status job_id status (Refused d) q
    = (Raise (dumps_exn d), with_clock_reads (S (clock_reads q)) q).
Proof.
  intros Hc Hdoc Hne. destruct q as [[c strs ex ls subs cmds] jobs hs n jnl].
  simpl in Hc, Hdoc. subst c.
  unfold QueueManager.update_job_status, QueueManager.get_job, on_redis,
    RedisManager.get, datetime_now, json_loads, py_setitem.
  unfold_monad. simpl. rewrite Hdoc. simpl.
  destruct kvs as [|kv kvs]; [done|]. reflexivity.
Qed.

Lemma dumps_exn_is_exception d : is_exception (dumps_exn d) = true.
Proof. by destruct d. Qed.

Lemma turn_result_cases queue_name kvs q :
  turn_result queue_name kvs q = Ok tt
  \/ exists h data e,
       handlers q !! queue_name = Some h /\ Dict.get "data" kvs = Some data
       /\ h data = Raise e /\ is_exception e = false
       /\ turn_result queue_name kvs q = Raise e.
Proof.
  unfold turn_result.
  destruct (handlers q !! queue_name) as [h|]; [|by left].
  destruct (Dict.get "data" kvs) as [data|]; [|by left].
  destruct (h data) as [v|e] eqn:Hr; [by left|].
  destruct (is_exception e) eqn:He; [by left|].
  right. by exists h, data, e.
Qed.

Lemma turn_statuses_cases queue_name kvs q :
  (turn_result queue_name kvs q = Ok tt
   /\ (turn_statuses queue_name kvs q = [completed]
       \/ turn_statuses queue_name kvs q = [failed]))
  \/ ((exists e, turn_result queue_name kvs q = Raise e)
      /\ turn_statuses queue_name kvs q = []).
Proof.
  unfold turn_result, turn_statuses, settles.
  destruct (handlers q !! queue_name) as [h|]; [|by left; split; [|right]].
  destruct (Dict.get "data" kvs) as [data|]; [|by left; split; [|right]].
  destruct (h data) as [[result|d]|e].
  - left. split; [done|by left].
  - left. split; [done|by right].
  - destruct (is_exception e); [left; split; [done|by right]|right].
    split; [by eexists|done].
Qed.

(** A turn that pops the id of a stored job. *)
Lemma process_queue_turn_job queue_name job_id l kvs q :
  client (redis q) = true ->
  lists (redis q) !! queue_key queue_name = Some (l ++ [job_id])%list ->
  str_truthy job_id = true ->
  strings (redis q) !! job_key job_id = Some (Dumps (JObj kvs)) ->
  kvs ≠ [] ->
  process_queue_turn queue_name q
    = (turn_result queue_name kvs q, after_turn queue_name job_id kvs q).
Proof.
  intros Hc Hl Hid Hdoc Hne.
  set (q1 := with_redis (store_rpop (queue_key queue_name) (redis q)) q).
  assert (Hc1 : client (redis q1) = true).
  { subst q1. unfold with_redis. cbn [redis]. by rewrite client_store_rpop. }
  assert (Hdoc1 : strings (redis q1) !! job_key job_id = Some (Dumps (JObj kvs))).
  { subst q1. unfold with_redis. cbn [redis]. by rewrite strings_store_rpop. }
  pose proof (update_job_status_dict job_id "processing" JNull kvs q1 Hc1 Hdoc1 Hne) as Hup.
  set (kvs1 := stamp "processing" JNull (isoformat (now (clock_reads q))) kvs).
  set (q2 := written job_id "processing" JNull kvs q1) in *.
  assert (Hc2 : client (redis q2) = true) by (subst q2; simpl; done).
  assert (Hdoc2 : strings (redis q2) !! job_key job_id = Some (Dumps (JObj kvs1))).
  { subst q2 q1 kvs1. destruct q as [[]]; simpl. by rewrite lookup_insert_eq. }
  assert (Hne1 : kvs1 ≠ []) by apply stamp_nonempty.
  assert (Hfin : forall st (res : json) q',
    redis q' = redis q2 ->
    update_job_status job_id st res q' = (Ok tt, written job_id st res kvs1 q')).
  { intros st res q' Hq'. apply update_job_status_dict; rewrite ?Hq'; done. }
  assert (Hrefused : forall st d q',
    redis q' = redis q2 ->
    update_job_status job_id st (Refused d) q'
      = (Raise (dumps_exn d), with_clock_reads (S (clock_reads q')) q')).
  { intros st d q' Hq'. apply (update_job_status_refused job_id st d kvs1);
      rewrite ?Hq'; done. }
  unfold QueueManager.process_queue_turn.
  unfold try_except at 1.
  match goal with |- (match ?m q with _ => _ end) = _ =>
    assert (Hm : m q = (turn_result queue_name kvs q, after_turn queue_name job_id kvs q))
  end.
  2:{ rewrite Hm.
      destruct (turn_result_cases queue_name kvs q)
        as [->|(h & data & e & _ & _ & _ & He & ->)]; [done|by rewrite He]. }
  unfold Lifecycle.after_turn, Lifecycle.turn_result. cbn zeta.
  fold q1. fold kvs1. fold q2.
  unfold mbind at 1. unfold M_bind, bind.
  assert (Hpop : on_redis (client_rpop (queue_key queue_name)) q = (Ok (Some job_id), q1)).
  { subst q1. unfold on_redis, zoom. rewrite client_rpop_connected by done.
    by rewrite Hl; simpl; rewrite pop_tail_snoc. }
  rewrite Hpop. rewrite Hid. simpl.
  unfold mbind at 1. unfold M_bind, bind.
  assert (Hget : QueueManager.get_job job_id q1 = (Ok (Some (JObj kvs)), q1)).
  { unfold QueueManager.get_job, on_redis, RedisManager.get, json_loads.
    unfold_monad. destruct q1 as [[c1 strs1 ? ? ? ?] ? ? ? ?]. simpl in *.
    subst c1. simpl. rewrite Hdoc1. simpl. done. }
  rewrite Hget.
  assert (Htr : truthy (JObj kvs) = true) by (destruct kvs; done).
  rewrite Htr. simpl.
  unfold mbind at 1. unfold M_bind, bind. rewrite Hup.
  unfold mbind at 1. unfold M_bind, bind. unfold gets at 1.
  assert (Hh : handlers q2 = handlers q) by (subst q2 q1; destruct q; done).
  rewrite Hh.
  destruct (handlers q !! queue_name) as [h|].
  - unfold try_except, py_getitem.
    destruct (Dict.get "data" kvs) as [data|].
    + unfold call. unfold_monad.
      destruct (h data) as [[result|d]|e]; simpl.
      * rewrite Hfin by done. done.
      * rewrite Hrefused by done. rewrite dumps_exn_is_exception.
        rewrite Hfin by done. done.
      * destruct (is_exception e); [|done]. rewrite Hfin by done. done.
    + unfold_monad. simpl. rewrite Hfin by done. done.
  - by rewrite Hfin.
Qed.

(** The store after such a turn: the pop and the processing write, then
    the settling write unless the handler's exception ended the turn. *)
Lemma after_turn_store queue_name job_id kvs q :
  let kvs1 := stamp "processing" JNull (isoformat (now (clock_reads q))) kvs in
  let r1 := store_set (job_key job_id) (Dumps (JObj kvs1)) None
              (store_rpop (queue_key queue_name) (redis q)) in
  handlers (after_turn queue_name job_id kvs q) = handlers q
  /\ journal (after_turn queue_name job_id kvs q) = turn_journal queue_name kvs q
  /\ match turn_statuses queue_name kvs q with
     | [] => redis (after_turn queue_name job_id kvs q) = r1
     | f :: _ =>
         exists status (result : json) t,
           f = Some (JStr status)
           /\ redis (after_turn queue_name job_id kvs q)
              = store_set (job_key job_id)
                  (Dumps (JObj (stamp status result t kvs1))) None r1
     end.
Proof.
  unfold Lifecycle.after_turn, turn_journal, turn_statuses, settles. cbn zeta.
  destruct (handlers q !! queue_name) as [h|].
  - destruct (Dict.get "data" kvs) as [data|].
    + destruct (h data) as [[result|d]|e]; [| |destruct (is_exception e)].
      * split_and!; [by destruct q|done|]. by eexists _, _, _.
      * split_and!; [by destruct q|done|]. by eexists _, _, _.
      * split_and!; [by destruct q|done|]. by eexists _, _, _.
      * split_and!; [by destruct q|done|done].
    + split_and!; [by destruct q|done|]. by eexists _, _, _.
  - split_and!; [by destruct q|done|]. by eexists _, _, _.
Qed.

Lemma after_turn_lists queue_name job_id kvs q :
  lists (redis (after_turn queue_name job_id kvs q))
    = lists (store_rpop (queue_key queue_name) (redis q)).
Proof.
  destruct (after_turn_store queue_name job_id kvs q) as (_ & _ & H). cbn zeta in H.
  destruct (turn_statuses queue_name kvs q) as [|f fs].
  - by rewrite H.
  - destruct H as (status & result & t & _ & ->). done.
Qed.

Lemma after_turn_no_push queue_name job_id kvs q key v :
  LPUSH key v ∈ commands (redis (after_turn queue_name job_id kvs q)) ->
  LPUSH key v ∈ commands (redis q).
Proof.
  destruct (after_turn_store queue_name job_id kvs q) as (_ & _ & H). cbn zeta in H.
  destruct (turn_statuses queue_name kvs q) as [|f fs].
  - rewrite H. cbn [commands store_set log with_expiry with_strings].
    rewrite commands_store_rpop. rewrite !elem_of_cons.
    intros [?|[?|?]]; done.
  - destruct H as (status & result & t & _ & ->).
    cbn [commands store_set log with_expiry with_strings].
    rewrite commands_store_rpop. rewrite !elem_of_cons.
    intros [?|[?|[?|?]]]; done.
Qed.

(** **** C6 *)

(** C6, as amended.  When a turn of the worker pops the id of a stored
    job: with no handler registered for the queue the job is left failed
    with result "No handler" and nothing is invoked; with a handler that
    raises an [Exception] it is left failed with the text of the exception
    as result; with a handler that raises outside [Exception] (a
    cancellation, an exit) the exception leaves the turn and the job stays
    processing; and in every case the id is not pushed back: the turn only
    pops the queue and no LPUSH is issued. *)
Theorem failed_job_not_requeued queue_name job_id l kvs q :
  client (redis q) = true ->
  lists (redis q) !! queue_key queue_name = Some (l ++ [job_id])%list ->
  job_id ≠ EmptyString ->
  strings (redis q) !! job_key job_id = Some (Dumps (JObj kvs)) ->
  kvs ≠ [] ->
  let run := process_queue_turn queue_name q in
  let q' := final run in
  (handlers q !! queue_name = None ->
     outcome run = Ok tt
     /\ (exists doc, strings (redis q') !! job_key job_id = Some doc
                     /\ status_of doc = Some (JStr "failed")
                     /\ result_of doc = Some (JStr "No handler"))
     /\ journal q' = journal q)
  /\ (forall (h : handler) data e,
        handlers q !! queue_name = Some h -> Dict.get "data" kvs = Some data ->
        h data = Raise e -> is_exception e = true ->
        outcome run = Ok tt
        /\ (exists doc, strings (redis q') !! job_key job_id = Some doc
                        /\ status_of doc = Some (JStr "failed")
                        /\ result_of doc = Some (JStr (exn_str e)))
        /\ journal q' = Invoked queue_name data :: journal q)
  /\ (forall (h : handler) data e,
        handlers q !! queue_name = Some h -> Dict.get "data" kvs = Some data ->
        h data = Raise e -> is_exception e = false ->
        outcome run = Raise e
        /\ (exists doc, strings (redis q') !! job_key job_id = Some doc
                        /\ status_of doc = Some (JStr "processing")
                        /\ result_of doc = Dict.get "result" kvs)
        /\ journal q' = Invoked queue_name data :: journal q)
  /\ lists (redis q') = lists (store_rpop (queue_key queue_name) (redis q))
  /\ lists (redis q') !! queue_key queue_name
     = match l with [] => None | _ => Some l end
  /\ (forall key value,
        LPUSH key value ∈ commands (redis q') -> LPUSH key value ∈ commands (redis q)).
Proof.
  intros Hc Hl Hid Hdoc Hne run q'. subst q' run.
  rewrite (process_queue_turn_job queue_name job_id l kvs q) by (by destruct job_id).
  unfold final, outcome. cbn [fst snd].
  split_and!.
  - intros Hh. unfold Lifecycle.after_turn, turn_result. rewrite Hh. cbn zeta.
    split_and!; [done| |done].
    eexists. split.
    { cbn [redis Lifecycle.written strings store_set log with_expiry with_strings].
      apply lookup_insert_eq. }
    split; [apply stamp_status|by apply stamp_result].
  - intros h data e Hh Hd Hr He.
    unfold Lifecycle.after_turn, turn_result. rewrite Hh, Hd, Hr, He. cbn zeta.
    split_and!; [done| |done].
    eexists. split.
    { cbn [redis Lifecycle.written strings store_set log with_expiry with_strings].
      apply lookup_insert_eq. }
    split; [apply stamp_status|by apply stamp_result].
  - intros h data e Hh Hd Hr He.
    unfold Lifecycle.after_turn, turn_result. rewrite Hh, Hd, Hr, He. cbn zeta.
    split_and!; [done| |done].
    eexists. split.
    { cbn [redis Lifecycle.written strings store_set log with_expiry with_strings
             record with_redis].
      apply lookup_insert_eq. }
    split; [apply stamp_status|apply stamp_keeps_result].
  - apply after_turn_lists.
  - rewrite after_turn_lists, lists_store_rpop, Hl.
    change (default [] (Some (l ++ [job_id])%list)) with (l ++ [job_id])%list.
    rewrite pop_tail_snoc.
    destruct l; [by rewrite lookup_delete_eq | by rewrite lookup_insert_eq].
  - intros key value. apply after_turn_no_push.
Qed.

(** *** The history of a job's status *)

Lemma job_key_inj a b : job_key a = job_key b -> a = b.
Proof. unfold job_key. cbn. intros H. by injection H. Qed.

Lemma status_history_set_same j doc ex r :
  status_history j (store_set (job_key j) doc ex r)
    = (status_history j r ++ [status_of doc])%list.
Proof.
  unfold status_history. cbn [commands store_set log status_writes].
  rewrite decide_True by done. by rewrite reverse_cons.
Qed.

Lemma status_history_set_other j i doc ex r :
  i ≠ j ->
  status_history j (store_set (job_key i) doc ex r) = status_history j r.
Proof.
  intros Hne. unfold status_history. cbn [commands store_set log status_writes].
  rewrite decide_False; [done|]. intros H. by apply job_key_inj in H.
Qed.

Lemma status_history_lpush j key value r :
  status_history j (store_lpush key value r) = status_history j r.
Proof. done. Qed.

Lemma status_history_rpop j key r :
  status_history j (store_rpop key r) = status_history j r.
Proof. unfold status_history. by rewrite commands_store_rpop. Qed.

(** [add_job] on a connected store, by what the store holds afterwards. *)
Lemma add_job_facts queue_name job_data job_id q :
  client (redis q) = true ->
  exists id q' created updated,
    add_job queue_name job_data job_id q = (Ok id, q')
    /\ str_truthy id = true
    /\ (forall i, job_id = Some i -> i ≠ EmptyString -> id = i)
    /\ client (redis q') = true
    /\ strings (redis q') !! job_key id
       = Some (Dumps (queued_job id queue_name job_data created updated))
    /\ (forall k, k ≠ job_key id -> strings (redis q') !! k = strings (redis q) !! k)
    /\ lists (redis q')
       = <[queue_key queue_name :=
             id :: default [] (lists (redis q) !! queue_key queue_name)]>
           (lists (redis q))
    /\ handlers q' = handlers q
    /\ (forall j, status_history j (redis q')
                  = (status_history j (redis q)
                     ++ if decide (j = id) then [queued] else [])%list).
Proof.
  intros Hc. rewrite add_job_connected by done.
  set (synth := negb (from_option str_truthy false job_id)).
  set (id := if synth then _ else _).
  eexists id, _, _, _. split; [reflexivity|].
  cbn [redis handlers strings lists client store_lpush store_set log with_lists
         with_expiry with_strings].
  split_and!.
  - subst id synth. destruct job_id as [[|a i]|]; try done;
      apply synthesized_truthy.
  - intros i -> Hi. subst id synth. by destruct i.
  - done.
  - apply lookup_insert_eq.
  - intros k Hk. by rewrite lookup_insert_ne.
  - done.
  - done.
  - intros j. rewrite status_history_lpush.
    destruct (decide (j = id)) as [->|Hne].
    + by rewrite status_history_set_same.
    + rewrite status_history_set_other by done. by rewrite app_nil_r.
Qed.

Lemma add_job_journal queue_name job_data job_id q :
  client (redis q) = true ->
  journal (final (add_job queue_name job_data job_id q)) = journal q.
Proof. intros Hc. by rewrite add_job_connected. Qed.

(** A turn that pops the id of a stored job, by what the store holds
    afterwards. *)
Lemma turn_on_job queue_name job_id l kvs q :
  client (redis q) = true ->
  lists (redis q) !! queue_key queue_name = Some (l ++ [job_id])%list ->
  job_id ≠ EmptyString ->
  strings (redis q) !! job_key job_id = Some (Dumps (JObj kvs)) ->
  kvs ≠ [] ->
  exists q' kvs',
    process_queue_turn queue_name q = (turn_result queue_name kvs q, q')
    /\ client (redis q') = true
    /\ strings (redis q') !! job_key job_id = Some (Dumps (JObj kvs'))
    /\ kvs' ≠ []
    /\ last (processing :: turn_statuses queue_name kvs q)
       = Some (Dict.get "status" kvs')
    /\ Dict.get "data" kvs' = Dict.get "data" kvs
    /\ (forall k, k ≠ job_key job_id -> strings (redis q') !! k = strings (redis q) !! k)
    /\ lists (redis q') = lists (store_rpop (queue_key queue_name) (redis q))
    /\ handlers q' = handlers q
    /\ journal q' = turn_journal queue_name kvs q
    /\ (forall j, status_history j (redis q')
                  = (status_history j (redis q)
                     ++ if decide (j = job_id)
                        then processing :: turn_statuses queue_name kvs q
                        else [])%list).
Proof.
  intros Hc Hl Hid Hdoc Hne.
  rewrite (process_queue_turn_job queue_name job_id l kvs q) by (by destruct job_id).
  destruct (after_turn_store queue_name job_id kvs q) as (Hh & Hj & Hredis).
  cbn zeta in Hredis.
  exists (after_turn queue_name job_id kvs q).
  destruct (turn_statuses queue_name kvs q) as [|f fs] eqn:Hts.
  - eexists. split; [reflexivity|]. rewrite Hredis.
    cbn [strings lists client store_set log with_expiry with_strings].
    split_and!.
    + by rewrite client_store_rpop.
    + apply lookup_insert_eq.
    + apply stamp_nonempty.
    + cbn [last]. by rewrite stamp_status.
    + by rewrite stamp_other.
    + intros k Hk. rewrite !lookup_insert_ne by done. by rewrite strings_store_rpop.
    + done.
    + done.
    + done.
    + intros j. destruct (decide (j = job_id)) as [->|Hj'].
      * rewrite !status_history_set_same, status_history_rpop.
        cbn [status_of]. by rewrite !stamp_status.
      * rewrite !status_history_set_other by done.
        by rewrite status_history_rpop, app_nil_r.
  - destruct Hredis as (status & result & t & -> & Hredis).
    assert (Hfs : fs = []).
    { destruct (turn_statuses_cases queue_name kvs q) as [[_ [H|H]]|[_ H]];
        rewrite H in Hts; congruence. }
    subst fs.
    eexists. split; [reflexivity|]. rewrite Hredis.
    cbn [strings lists client store_set log with_expiry with_strings].
    split_and!.
    + by rewrite client_store_rpop.
    + apply lookup_insert_eq.
    + apply stamp_nonempty.
    + cbn [last]. by rewrite stamp_status.
    + destruct result; by rewrite !stamp_other.
    + intros k Hk. rewrite !lookup_insert_ne by done. by rewrite strings_store_rpop.
    + done.
    + done.
    + done.
    + intros j. destruct (decide (j = job_id)) as [->|Hj'].
      * rewrite !status_history_set_same, status_history_rpop.
        cbn [status_of]. rewrite !stamp_status. by rewrite <- app_assoc.
      * rewrite !status_history_set_other by done.
        by rewrite status_history_rpop, app_nil_r.
Qed.

(** **** C2 *)

(** C2, as amended.  On a connected store, two [add_job] calls with the
    same non-empty id both return it; the second document replaces the
    first; the id is then twice in the queue list; and, on a queue that
    held nothing else, the first turn of the worker pops one occurrence
    and processes the job, leaving the other, which the next turn pops and
    processes again: the handler of the queue is invoked twice with the
    data of the second document, and the status goes through processing
    twice, each time settled as the handler's outcome decides. *)
Theorem duplicate_id_reprocessed queue_name d1 d2 job_id q :
  client (redis q) = true ->
  job_id ≠ EmptyString ->
  let r1 := add_job queue_name d1 (Some job_id) q in
  let r2 := add_job queue_name d2 (Some job_id) (final r1) in
  outcome r1 = Ok job_id
  /\ outcome r2 = Ok job_id
  /\ (exists created updated,
        strings (redis (final r1)) !! job_key job_id
          = Some (Dumps (queued_job job_id queue_name d1 created updated)))
  /\ (exists created updated,
        strings (redis (final r2)) !! job_key job_id
          = Some (Dumps (queued_job job_id queue_name d2 created updated)))
  /\ lists (redis (final r2)) !! queue_key queue_name
     = Some (job_id :: job_id :: default [] (lists (redis q) !! queue_key queue_name))
  /\ (lists (redis q) !! queue_key queue_name = None ->
      let t1 := final (process_queue_turn queue_name (final r2)) in
      let t2 := final (process_queue_turn queue_name t1) in
      let once := match handlers q !! queue_name with
                  | Some h => settles (h d2)
                  | None => [failed]
                  end in
      lists (redis t1) !! queue_key queue_name = Some [job_id]
      /\ lists (redis t2) !! queue_key queue_name = None
      /\ journal t2
         = match handlers q !! queue_name with
           | Some _ => Invoked queue_name d2 :: Invoked queue_name d2 :: journal q
           | None => journal q
           end
      /\ status_history job_id (redis t2)
         = (status_history job_id (redis q)
            ++ [queued; queued] ++ (processing :: once) ++ (processing :: once))%list).
Proof.
  intros Hc Hid r1 r2. subst r2 r1.
  pose proof (add_job_journal queue_name d1 (Some job_id) q Hc) as Hj1.
  destruct (add_job_facts queue_name d1 (Some job_id) q Hc)
    as (id1 & q1 & c1 & u1 & Hrun1 & _ & Hid1 & Hc1 & Hdoc1 & _ & Hl1 & Hhs1 & Hh1).
  rewrite (Hid1 job_id eq_refl Hid) in *. clear Hid1.
  rewrite Hrun1 in Hj1 |- *. unfold outcome, final in Hj1 |- *. cbn [fst snd] in Hj1 |- *.
  pose proof (add_job_journal queue_name d2 (Some job_id) q1 Hc1) as Hj2.
  destruct (add_job_facts queue_name d2 (Some job_id) q1 Hc1)
    as (id2 & q2 & c2 & u2 & Hrun2 & _ & Hid2 & Hc2 & Hdoc2 & _ & Hl2 & Hhs2 & Hh2).
  rewrite (Hid2 job_id eq_refl Hid) in *. clear Hid2.
  rewrite Hrun2 in Hj2 |- *. unfold final in Hj2. cbn [fst snd] in Hj2 |- *.
  assert (Hq2 : lists (redis q2) !! queue_key queue_name
    = Some (job_id :: job_id :: default [] (lists (redis q) !! queue_key queue_name))).
  { rewrite Hl2, lookup_insert_eq, Hl1, lookup_insert_eq. done. }
  split_and!; [done|done|by eexists _, _|by eexists _, _|done|].
  intros Hempty. rewrite Hempty in Hq2.
  change (default [] None) with (@nil string) in Hq2.
  set (kvs0 := [("id", JStr job_id); ("queue", JStr queue_name); ("data", d2);
                ("status", JStr "queued"); ("created_at", JStr c2);
                ("updated_at", JStr u2)]).
  assert (Hdoc2' : strings (redis q2) !! job_key job_id = Some (Dumps (JObj kvs0)))
    by exact Hdoc2.
  assert (Hd0 : Dict.get "data" kvs0 = Some d2) by done.
  destruct (turn_on_job queue_name job_id [job_id] kvs0 q2 Hc2 Hq2 Hid Hdoc2')
    as (t1 & kvs1 & Hturn1 & Hc3 & Hdoc3 & Hne3 & _ & Hd1 & _ & Hl3 & Hhs3 & Hj3 & Hh3);
    [done|].
  rewrite Hturn1. cbn [snd].
  assert (Hq3 : lists (redis t1) !! queue_key queue_name = Some ([] ++ [job_id])%list).
  { rewrite Hl3, lists_store_rpop, Hq2.
    change (default [] (Some [job_id; job_id])) with ([job_id] ++ [job_id])%list.
    rewrite pop_tail_snoc. by rewrite lookup_insert_eq. }
  destruct (turn_on_job queue_name job_id [] kvs1 t1 Hc3 Hq3 Hid Hdoc3 Hne3)
    as (t2 & kvs2 & Hturn2 & _ & _ & _ & _ & _ & _ & Hl4 & _ & Hj4 & Hh4).
  rewrite Hturn2. cbn [snd].
  assert (Hts1 : turn_statuses queue_name kvs0 q2
                 = match handlers q !! queue_name with
                   | Some h => settles (h d2)
                   | None => [failed]
                   end).
  { unfold turn_statuses. rewrite Hhs2, Hhs1, Hd0. done. }
  assert (Hts2 : turn_statuses queue_name kvs1 t1
                 = match handlers q !! queue_name with
                   | Some h => settles (h d2)
                   | None => [failed]
                   end).
  { unfold turn_statuses. rewrite Hhs3, Hhs2, Hhs1, Hd1, Hd0. done. }
  split_and!; [done| | |].
  - rewrite Hl4, lists_store_rpop, Hq3.
    change (default [] (Some ([] ++ [job_id])%list)) with ([] ++ [job_id])%list.
    rewrite pop_tail_snoc. by rewrite lookup_delete_eq.
  - rewrite Hj4. unfold turn_journal. rewrite Hhs3, Hhs2, Hhs1, Hd1, Hd0.
    rewrite Hj3. unfold turn_journal. rewrite Hhs2, Hhs1, Hd0.
    rewrite Hj2, Hj1. by destruct (handlers q !! queue_name).
  - rewrite Hh4, Hh3, Hh2, Hh1. rewrite !decide_True by done.
    rewrite Hts1, Hts2. by rewrite <- !app_assoc.
Qed.

(** *** Occurrences of an id in the queue lists *)

Lemma occurrences_fresh j k l (m : gmap string (list string)) :
  m !! k = None ->
  occurrences j (<[k := l]> m) = (count j l + occurrences j m)%nat.
Proof.
  intros Hk. unfold occurrences.
  rewrite map_fold_insert_L; [done| |done]. intros; lia.
Qed.

Lemma occurrences_lookup j k l (m : gmap string (list string)) :
  m !! k = Some l ->
  occurrences j m = (count j l + occurrences j (base.delete k m))%nat.
Proof.
  intros Hk. unfold occurrences.
  rewrite (map_fold_delete_L _ _ k l m); [done| |done]. intros; lia.
Qed.

Lemma occurrences_delete j k (m : gmap string (list string)) :
  (occurrences j (base.delete k m) + count j (default [] (m !! k)))%nat
    = occurrences j m.
Proof.
  destruct (m !! k) as [l|] eqn:Hk.
  - change (default [] (Some l)) with l.
    rewrite (occurrences_lookup j k l m Hk). lia.
  - change (default [] None) with (@nil string).
    rewrite delete_id by done. unfold count. rewrite filter_nil. cbn [length]. lia.
Qed.

Lemma occurrences_insert j k l (m : gmap string (list string)) :
  (occurrences j (<[k := l]> m) + count j (default [] (m !! k)))%nat
    = (occurrences j m + count j l)%nat.
Proof.
  rewrite <- (insert_delete_eq m k l).
  rewrite occurrences_fresh by apply lookup_delete_eq.
  pose proof (occurrences_delete j k m). lia.
Qed.

Lemma count_cons j x l :
  count j (x :: l) = ((if decide (x = j) then 1 else 0) + count j l)%nat.
Proof. unfold count. rewrite filter_cons. by destruct (decide (x = j)). Qed.

Lemma count_snoc j x l :
  count j (l ++ [x]) = (count j l + (if decide (x = j) then 1 else 0))%nat.
Proof.
  unfold count. rewrite filter_app, length_app, filter_cons.
  by destruct (decide (x = j)).
Qed.

Lemma occurrences_lpush j k x r :
  occurrences j (lists (store_lpush k x r))
    = (occurrences j (lists r) + (if decide (x = j) then 1 else 0))%nat.
Proof.
  cbn [lists store_lpush log with_lists].
  pose proof (occurrences_insert j k (x :: default [] (lists r !! k)) (lists r)) as H.
  rewrite count_cons in H. lia.
Qed.

(** The id at the tail of a list, if any. *)
Lemma occurrences_rpop j k r :
  (occurrences j (lists (store_rpop k r))
   + match pop_tail (default [] (lists r !! k)) with
     | Some (x, _) => if decide (x = j) then 1 else 0
     | None => 0
     end)%nat
    = occurrences j (lists r).
Proof.
  rewrite lists_store_rpop.
  destruct (pop_tail (default [] (lists r !! k))) as [[x l']|] eqn:Hpop; [|lia].
  apply pop_tail_Some in Hpop.
  assert (Hc : count j (default [] (lists r !! k))
               = (count j l' + (if decide (x = j) then 1 else 0))%nat)
    by (by rewrite Hpop, count_snoc).
  destruct l' as [|y l'].
  - pose proof (occurrences_delete j k (lists r)). cbn in Hc. lia.
  - pose proof (occurrences_insert j k (y :: l') (lists r)). lia.
Qed.

Lemma occurrences_ge j k l (m : gmap string (list string)) :
  m !! k = Some l -> (count j l <= occurrences j m)%nat.
Proof. intros Hk. rewrite (occurrences_lookup j k l m Hk). lia. Qed.

(** *** Any turn of the worker *)

Lemma turn_unconnected queue_name q :
  client (redis q) = false ->
  process_queue_turn queue_name q = (Ok tt, record (Slept 5) q).
Proof.
  intros Hc. destruct q as [[c strs ex ls subs cmds] jobs hs n jnl].
  cbn in Hc. subst c. reflexivity.
Qed.

(** A connected turn either pops the id of a stored job, or only pops. *)
Lemma turn_cases queue_name q :
  client (redis q) = true ->
  (exists job_id l kvs,
      lists (redis q) !! queue_key queue_name = Some (l ++ [job_id])%list
      /\ job_id ≠ EmptyString
      /\ strings (redis q) !! job_key job_id = Some (Dumps (JObj kvs))
      /\ kvs ≠ [])
  \/ ((outcome (process_queue_turn queue_name q) = Ok tt
       /\ handlers (final (process_queue_turn queue_name q)) = handlers q
       /\ redis (final (process_queue_turn queue_name q))
          = store_rpop (queue_key queue_name) (redis q))
      /\ forall job_id l kvs,
           lists (redis q) !! queue_key queue_name = Some (l ++ [job_id])%list ->
           job_id ≠ EmptyString ->
           strings (redis q) !! job_key job_id = Some (Dumps (JObj kvs)) ->
           kvs = []).
Proof.
  intros Hc.
  destruct (pop_tail (default [] (lists (redis q) !! queue_key queue_name)))
    as [[job_id l]|] eqn:Hpop.
  - pose proof (pop_tail_Some _ _ _ Hpop) as Hl.
    assert (Hl' : lists (redis q) !! queue_key queue_name = Some (l ++ [job_id])%list).
    { destruct (lists (redis q) !! queue_key queue_name) as [l0|]; cbn in Hl.
      - by rewrite Hl.
      - by destruct l. }
    assert (Huniq : forall job_id' l',
      lists (redis q) !! queue_key queue_name = Some (l' ++ [job_id'])%list ->
      job_id' = job_id).
    { intros job_id' l' H. rewrite Hl' in H. injection H as H.
      by apply app_inj_tail in H as [_ ->]. }
    destruct job_id as [|a job_id'] eqn:Hj.
    { right. split.
      - destruct q as [[c strs ex ls subs cmds] jobs hs n jnl]. cbn in *. subst c.
        unfold QueueManager.process_queue_turn, on_redis, client_rpop, sleep.
        unfold_monad. cbn. rewrite Hpop. cbn. unfold store_rpop. cbn. rewrite Hpop.
        split_and!; reflexivity.
      - intros ? ? ? H Hne. apply Huniq in H. done. }
    rewrite <- Hj in *. assert (Htr : str_truthy job_id = true) by (by subst).
    clear Hj.
    destruct (strings (redis q) !! job_key job_id) as [doc|] eqn:Hdoc.
    + destruct doc as [raw|[ |b|z|str|xs|kvs]].
      all: try (right; split;
        [ destruct q as [[c strs ex ls subs cmds] jobs hs n jnl]; cbn in *; subst c;
          unfold QueueManager.process_queue_turn, QueueManager.update_job_status,
            QueueManager.get_job, on_redis, client_rpop, RedisManager.get, sleep,
            json_loads, py_setitem;
          unfold_monad; cbn; rewrite Hpop; cbn; rewrite Htr; cbn;
          unfold store_rpop; cbn; rewrite ?Hpop; cbn;
          repeat match goal with
          | |- context [match ?l with [] => _ | _ :: _ => _ end] =>
              destruct l; cbn; rewrite ?Hdoc; cbn
          end; rewrite ?Hdoc; cbn;
          repeat match goal with
          | |- context [str_truthy ?x] => destruct (str_truthy x); cbn; rewrite ?Hdoc; cbn
          | |- context [if ?b then _ else _] => destruct b; cbn; rewrite ?Hdoc; cbn
          | |- context [(?z =? 0)%Z] => destruct (z =? 0)%Z; cbn; rewrite ?Hdoc; cbn
          end; split_and!; reflexivity
        | intros ? ? ? H Hne Hd; apply Huniq in H; subst; rewrite Hdoc in Hd; done ]).
      destruct kvs as [|kv kvs].
      * right. split; [|intros ? ? ? H Hne Hd; apply Huniq in H; subst;
                        rewrite Hdoc in Hd; by injection Hd as <-].
        destruct q as [[c strs ex ls subs cmds] jobs hs n jnl]; cbn in *; subst c.
        unfold QueueManager.process_queue_turn, QueueManager.get_job, on_redis,
          client_rpop, RedisManager.get, json_loads.
        unfold_monad; cbn; rewrite Hpop; cbn; rewrite Htr; cbn.
        unfold store_rpop; cbn; rewrite ?Hpop; cbn.
        destruct l; cbn; rewrite Hdoc; split_and!; reflexivity.
      * left. exists job_id, l, (kv :: kvs). split_and!; try done. by destruct job_id.
    + right. split; [|intros ? ? ? H Hne Hd; apply Huniq in H; subst;
                      rewrite Hdoc in Hd; done].
      destruct q as [[c strs ex ls subs cmds] jobs hs n jnl]; cbn in *; subst c.
      unfold QueueManager.process_queue_turn, QueueManager.get_job, on_redis,
        client_rpop, RedisManager.get, json_loads.
      unfold_monad; cbn; rewrite Hpop; cbn; rewrite Htr; cbn.
      unfold store_rpop; cbn; rewrite ?Hpop; cbn.
      destruct l; cbn; rewrite Hdoc; split_and!; reflexivity.
  - right. split.
    + destruct q as [[c strs ex ls subs cmds] jobs hs n jnl]. cbn in *. subst c.
      unfold QueueManager.process_queue_turn, on_redis, client_rpop, sleep.
      unfold_monad. cbn. rewrite Hpop. cbn. unfold store_rpop. cbn. rewrite Hpop.
        split_and!; reflexivity.
    + intros job_id l kvs H. rewrite H in Hpop. cbn in Hpop.
      by rewrite pop_tail_snoc in Hpop.
Qed.

(** *** The lifecycle of a job enqueued once *)

Lemma frame_refl j r r' : r' = r -> frame j r r'.
Proof. by intros ->. Qed.

Lemma inv_frame j b q q' :
  frame j (redis q) (redis q') -> lifecycle_inv j b q -> lifecycle_inv j b q'.
Proof.
  intros (Hc & Hs & Hh & Ho). unfold lifecycle_inv. cbn zeta.
  rewrite Hs, Hh, Ho. destruct b; [|done].
  intros [(? & ? & ? & ? & ?)|[?|?]]; [left|right; left|right; right]; auto.
Qed.

Lemma frame_rpop j k r :
  (forall l, lists r !! k = Some (l ++ [j])%list -> False) ->
  frame j r (store_rpop k r).
Proof.
  intros Htail. split_and!.
  - by rewrite client_store_rpop.
  - by rewrite strings_store_rpop.
  - apply status_history_rpop.
  - pose proof (occurrences_rpop j k r) as H.
    destruct (pop_tail (default [] (lists r !! k))) as [[x l]|] eqn:Hpop; [|lia].
    destruct (decide (x = j)) as [->|]; [|lia].
    exfalso. apply pop_tail_Some in Hpop.
    destruct (lists r !! k) as [l0|] eqn:Hk; cbn in Hpop.
    + apply (Htail l). by rewrite Hpop.
    + by destruct l.
Qed.

Lemma inv_not_at_tail j b q k l :
  lifecycle_inv j b q ->
  lists (redis q) !! k = Some (l ++ [j])%list ->
  b = true /\ client (redis q) = true /\ j ≠ EmptyString
  /\ occurrences j (lists (redis q)) = 1%nat
  /\ status_history j (redis q) = [queued]
  /\ exists kvs, strings (redis q) !! job_key j = Some (Dumps (JObj kvs)) /\ kvs ≠ []
                 /\ Dict.get "status" kvs = Some (JStr "queued").
Proof.
  intros Hinv Hk. pose proof (occurrences_ge j k _ _ Hk) as Hge.
  rewrite count_snoc, decide_True in Hge by done.
  unfold lifecycle_inv in Hinv. cbn zeta in Hinv. destruct b.
  - destruct Hinv as [(? & ? & ? & ? & ?)|[[Ho _]|[Ho _]]]; [done|lia|lia].
  - destruct Hinv as [Ho _]. lia.
Qed.

Lemma inv_turn j b queue_name q :
  lifecycle_inv j b q ->
  lifecycle_inv j b (final (process_queue_turn queue_name q)).
Proof.
  intros Hinv.
  destruct (client (redis q)) eqn:Hc.
  2:{ eapply inv_frame; [|done]. apply frame_refl.
      by rewrite turn_unconnected. }
  destruct (turn_cases queue_name q Hc)
    as [(job_id & l & kvs & Hl & Hid & Hdoc & Hne)|[(_ & _ & Hredis) Hidle]].
  - destruct (turn_on_job queue_name job_id l kvs q Hc Hl Hid Hdoc Hne)
      as (q' & kvs' & Hturn & Hc' & Hdoc' & Hne' & Hstatus & _ & Hother
          & Hlists & _ & _ & Hhist).
    rewrite Hturn. unfold final. cbn [snd].
    destruct (decide (job_id = j)) as [->|Hj].
    + destruct (inv_not_at_tail j b q _ l Hinv Hl)
        as (-> & _ & _ & Hocc & Hh & _).
      assert (Hzero : occurrences j (lists (redis q')) = 0%nat).
      { rewrite Hlists.
        pose proof (occurrences_rpop j (queue_key queue_name) (redis q)) as H.
        rewrite Hl in H.
        change (default [] (Some (l ++ [j])%list)) with (l ++ [j])%list in H.
        rewrite pop_tail_snoc, decide_True in H by done. lia. }
      specialize (Hhist j). rewrite decide_True, Hh in Hhist by done.
      unfold lifecycle_inv. cbn zeta. right.
      destruct (turn_statuses_cases queue_name kvs q) as [[_ [Hts|Hts]]|[_ Hts]];
        rewrite Hts in Hstatus, Hhist; cbn [last] in Hstatus;
        injection Hstatus as Hstatus.
      * left. split; [done|]. exists completed. split_and!; [by left|done|].
        rewrite Hdoc'. cbn. by rewrite <- Hstatus.
      * left. split; [done|]. exists failed. split_and!; [by right|done|].
        rewrite Hdoc'. cbn. by rewrite <- Hstatus.
      * right. split_and!; [done|done|].
        rewrite Hdoc'. cbn. by rewrite <- Hstatus.
    + eapply inv_frame; [|done]. split_and!.
      * done.
      * apply Hother. intros H. by apply job_key_inj in H.
      * rewrite Hhist, decide_False by done. by rewrite app_nil_r.
      * rewrite Hlists. pose proof (occurrences_rpop j (queue_key queue_name) (redis q)) as H.
        rewrite Hl in H.
        change (default [] (Some (l ++ [job_id])%list)) with (l ++ [job_id])%list in H.
        rewrite pop_tail_snoc, decide_False in H by done. lia.
  - eapply inv_frame; [|done]. rewrite Hredis. apply frame_rpop.
    intros l Hl.
    destruct (inv_not_at_tail j b q _ l Hinv Hl)
      as (_ & _ & Hj & _ & _ & kvs & Hdoc & Hne & _).
    by apply Hne, (Hidle j l kvs).
Qed.

(** *** When a turn returns *)

(** A turn lets an exception out only when the handler of the queue raised
    it, and it is not an [Exception]; it leaves the handlers as they
    were. *)
Lemma process_queue_turn_outcome queue_name q :
  handlers (final (process_queue_turn queue_name q)) = handlers q
  /\ (outcome (process_queue_turn queue_name q) = Ok tt
      \/ exists (h : handler) data e,
           handlers q !! queue_name = Some h /\ h data = Raise e
           /\ is_exception e = false
           /\ outcome (process_queue_turn queue_name q) = Raise e).
Proof.
  destruct (client (redis q)) eqn:Hc.
  2:{ rewrite turn_unconnected by done. split; [done|by left]. }
  destruct (turn_cases queue_name q Hc)
    as [(job_id & l & kvs & Hl & Hid & Hdoc & Hne)|[(Hout & Hh & _) _]].
  - destruct (turn_on_job queue_name job_id l kvs q Hc Hl Hid Hdoc Hne)
      as (q' & kvs' & Hturn & _ & _ & _ & _ & _ & _ & _ & Hh & _).
    rewrite Hturn. unfold final, outcome. cbn [fst snd]. split; [done|].
    destruct (turn_result_cases queue_name kvs q)
      as [->|(h & data & e & Hh' & _ & Hr & He & ->)]; [by left|right].
    by exists h, data, e.
  - split; [done|by left].
Qed.

Lemma process_queue_turn_returns queue_name q :
  catchable queue_name q -> outcome (process_queue_turn queue_name q) = Ok tt.
Proof.
  intros Hcatch.
  destruct (process_queue_turn_outcome queue_name q)
    as [_ [H|(h & data & e & Hh & Hr & He & _)]]; [done|].
  rewrite (Hcatch h data e Hh Hr) in He. done.
Qed.

Lemma process_queue_returns turns queue_name q :
  catchable queue_name q -> outcome (process_queue turns queue_name q) = Ok tt.
Proof.
  revert q. induction turns as [|n IH]; intros q Hcatch; simpl; [done|].
  unfold mbind, M_bind, bind.
  pose proof (process_queue_turn_returns queue_name q Hcatch) as H.
  destruct (process_queue_turn_outcome queue_name q) as [Hh _].
  unfold outcome, final in H, Hh.
  destruct (process_queue_turn queue_name q) as [[[]|e] q']; simpl in H, Hh; [|done].
  apply IH. unfold catchable. rewrite Hh. exact Hcatch.
Qed.

(** **** C7 *)

(** C7. When a turn pops an id that has no document in the store, it only
    pops: nothing is written, nothing is invoked, there is no sleep and no
    exception, and the loop goes on with its next turn; the later turns
    return as well, whatever they pop, as long as the handler of the queue
    raises nothing but [Exception]s. *)
Theorem missing_record_skipped queue_name job_id l q :
  client (redis q) = true ->
  lists (redis q) !! queue_key queue_name = Some (l ++ [job_id])%list ->
  job_id ≠ EmptyString ->
  strings (redis q) !! job_key job_id = None ->
  let q' := with_redis (store_rpop (queue_key queue_name) (redis q)) q in
  process_queue_turn queue_name q = (Ok tt, q')
  /\ strings (redis q') = strings (redis q)
  /\ commands (redis q') = RPOP (queue_key queue_name) :: commands (redis q)
  /\ journal q' = journal q
  /\ (forall turns,
        process_queue (S turns) queue_name q = process_queue turns queue_name q'
        /\ (catchable queue_name q ->
            outcome (process_queue (S turns) queue_name q) = Ok tt)).
Proof.
  intros Hc Hl Hid Hdoc q'.
  assert (Hturn : process_queue_turn queue_name q = (Ok tt, q')).
  { unfold QueueManager.process_queue_turn, try_except.
    unfold mbind at 1. unfold M_bind, bind.
    unfold on_redis, zoom. rewrite client_rpop_connected by done.
    rewrite Hl.
    change (default [] (Some (l ++ [job_id])%list)) with (l ++ [job_id])%list.
    rewrite pop_tail_snoc. cbn [fmap option_fmap option_map fst].
    fold q'. assert (Htr : str_truthy job_id = true) by (by destruct job_id).
    rewrite Htr. cbn [negb].
    unfold mbind at 1. unfold M_bind, bind.
    unfold QueueManager.get_job, on_redis, zoom, RedisManager.get.
    unfold_monad.
    assert (Hc' : client (redis q') = true)
      by (subst q'; unfold with_redis; cbn [redis]; by rewrite client_store_rpop).
    assert (Hdoc' : strings (redis q') !! job_key job_id = None)
      by (subst q'; unfold with_redis; cbn [redis]; by rewrite strings_store_rpop).
    rewrite Hc'. cbn [negb]. rewrite Hdoc'.
    destruct q' as [r' ? ? ? ?]. reflexivity. }
  split_and!.
  - done.
  - subst q'. unfold with_redis. cbn [redis]. apply strings_store_rpop.
  - subst q'. unfold with_redis. cbn [redis]. apply commands_store_rpop.
  - done.
  - intros turns. split; [|by apply process_queue_returns].
    cbn [QueueManager.process_queue]. unfold mbind, M_bind, bind.
    by rewrite Hturn.
Qed.


Lemma final_add_job_op queue_name job_data job_id q :
  final (run_op now isoformat (AddJob queue_name job_data job_id) q)
    = final (add_job queue_name job_data job_id q).
Proof.
  cbn [run_op]. unfold_monad.
  by destruct (QueueManager.add_job _ _ _ _ _ q) as [[]].
Qed.

Lemma inv_step j b q o :
  lifecycle_inv j b q -> ¬ enqueues now isoformat j o q ->
  lifecycle_inv j b (final (run_op now isoformat o q)).
Proof.
  intros Hinv Hnot. destruct o as [|queue_name h|queue_name job_data job_id|queue_name].
  - eapply inv_frame; [|done]. by destruct q as [[]].
  - eapply inv_frame; [|done]. by destruct q as [[]].
  - rewrite final_add_job_op. cbn [enqueues] in Hnot.
    destruct (client (redis q)) eqn:Hc.
    + destruct (add_job_facts queue_name job_data job_id q Hc)
        as (id & q' & c & u & Hrun & _ & _ & Hc' & _ & Hother & Hlists & _ & Hhist).
      rewrite Hrun in *. unfold outcome, final in *. cbn [fst snd] in *.
      assert (Hid : id ≠ j) by congruence.
      eapply inv_frame; [|done]. split_and!.
      * done.
      * apply Hother. intros H. by apply job_key_inj in H.
      * rewrite Hhist, decide_False by done. by rewrite app_nil_r.
      * rewrite Hlists.
        pose proof (occurrences_lpush j (queue_key queue_name) id (redis q)) as H.
        cbn [lists store_lpush log with_lists] in H.
        rewrite H, decide_False by done. lia.
    + eapply inv_frame; [|done]. apply frame_refl.
      by apply add_job_unconnected.
  - by apply inv_turn.
Qed.

Lemma inv_enqueue j q o :
  lifecycle_inv j false q -> enqueues now isoformat j o q ->
  lifecycle_inv j true (final (run_op now isoformat o q)).
Proof.
  intros [Hocc Hh] Henq. destruct o as [| |queue_name job_data job_id|]; try done.
  rewrite final_add_job_op. cbn [enqueues] in Henq.
  destruct (client (redis q)) eqn:Hc.
  2:{ destruct (add_job_unconnected queue_name job_data job_id q Hc) as [H _].
      congruence. }
  destruct (add_job_facts queue_name job_data job_id q Hc)
    as (id & q' & c & u & Hrun & Htr & _ & Hc' & Hdoc & _ & Hlists & _ & Hhist).
  rewrite Hrun in *. unfold outcome, final in *. cbn [fst snd] in *.
  injection Henq as ->.
  unfold lifecycle_inv. cbn zeta. left. split_and!.
  - done.
  - by destruct j.
  - rewrite Hlists.
    pose proof (occurrences_lpush j (queue_key queue_name) j (redis q)) as H.
    cbn [lists store_lpush log with_lists] in H.
    rewrite H, decide_True by done. lia.
  - rewrite Hhist, Hh, decide_True by done. done.
  - eexists. split; [exact Hdoc|done].
Qed.


Lemma inv_reach j q0 b q :
  lifecycle_inv j false q0 -> reach now isoformat j q0 b q -> lifecycle_inv j b q.
Proof.
  intros H0. induction 1 as [|b q o _ IH Hnot|q o _ IH Henq].
  - done.
  - by apply inv_step.
  - by apply inv_enqueue.
Qed.

(** **** C1 *)

(** C1, as amended.  For a job id that is fresh (in no queue list, never
    written) and that the operations enqueue at most once, with the status
    written by [add_job] and the worker only: every status the store ever
    held for the job, in order, is a prefix-closed run of queued,
    processing, completed or failed (it stops at processing when the
    handler's exception ended the turn); it only moves forward, and the
    document in the store carries the last of them. *)
Theorem status_forward_when_enqueued_once j q0 b q :
  occurrences j (lists (redis q0)) = 0%nat ->
  status_history j (redis q0) = [] ->
  reach now isoformat j q0 b q ->
  let h := status_history j (redis q) in
  (h = [] \/ h = [queued] \/ h = [queued; processing]
   \/ h = [queued; processing; completed]
   \/ h = [queued; processing; failed])
  /\ forward_only h = true
  /\ (h ≠ [] -> status_of <$> strings (redis q) !! job_key j = last h).
Proof.
  intros Hocc Hh Hreach h. subst h.
  assert (Hinv : lifecycle_inv j b q) by (by eapply inv_reach).
  unfold lifecycle_inv in Hinv. cbn zeta in Hinv. destruct b.
  - destruct Hinv as [(_ & _ & _ & -> & kvs & Hdoc & _ & Hst)
                     |[(_ & f & [->| ->] & -> & Hdoc)|(_ & -> & Hdoc)]].
    + split_and!; [by right; left|done|]. intros _. rewrite Hdoc. cbn. by rewrite Hst.
    + split_and!; [by right; right; right; left|done|done].
    + split_and!; [by right; right; right; right|done|done].
    + split_and!; [by right; right; left|done|done].
  - destruct Hinv as [_ ->]. split_and!; [by left|done|done].
Qed.

(** **** C4 *)

(** C4, as amended.  On a manager that was never connected, [get], [set],
    [delete], [exists], [expire], [publish] and [subscribe] return [None],
    [False], [0], [False], [False], [0] and [None] and leave the store
    alone; [pipeline] raises [RuntimeError] at once; and [add_job] raises
    [AttributeError] when it reaches the list push, its write of the
    document having been dropped. *)
Theorem unconnected_store_calls r :
  client r = false ->
  (forall key, RedisManager.get key r = (Ok None, r))
  /\ (forall key value ex, RedisManager.set key value ex r = (Ok false, r))
  /\ (forall key, RedisManager.delete key r = (Ok 0%Z, r))
  /\ (forall key, RedisManager.exists_ key r = (Ok (JBool false), r))
  /\ (forall key time, RedisManager.expire key time r = (Ok false, r))
  /\ (forall channel message, RedisManager.publish channel message r = (Ok 0%Z, r))
  /\ (forall channels, RedisManager.subscribe channels r = (Ok None, r))
  /\ RedisManager.pipeline r = (Raise (Exn "RuntimeError" "Redis client not connected"), r)
  /\ (forall q queue_name job_data job_id,
        redis q = r ->
        outcome (add_job queue_name job_data job_id q)
          = Raise (Exn "AttributeError" "'NoneType' object has no attribute 'lpush'")
        /\ redis (final (add_job queue_name job_data job_id q)) = r).
Proof.
  intros Hc. split_and!; intros;
    try (unfold RedisManager.get, RedisManager.set, RedisManager.delete,
           RedisManager.exists_, RedisManager.expire, RedisManager.publish,
           RedisManager.subscribe, RedisManager.pipeline;
         unfold_monad; by rewrite Hc).
  subst r. by apply add_job_unconnected.
Qed.

End clock.

(** *** The theorems at concrete states *)

Import Examples.

Local Abbreviation add_job0 := (QueueManager.add_job now0 iso0).
Local Abbreviation turn0 := (QueueManager.process_queue_turn now0 iso0).
Local Abbreviation process_queue0 := (QueueManager.process_queue now0 iso0).

Lemma add_job_record_before_push_witness :
  client (redis q0) = true
  /\ exists id created updated,
       (forall i, @None string = Some i -> i ≠ EmptyString -> id = i)
       /\ (@None string = None ->
           id = "jobs" +:+ "_" +:+ pretty (now0 (clock_reads q0) ÷ 1000)%Z)
       /\ (@None string = Some EmptyString ->
           id = "jobs" +:+ "_" +:+ pretty (now0 (clock_reads q0) ÷ 1000)%Z)
       /\ outcome (add_job0 "jobs" payload None q0) = Ok id
       /\ let job := JObj [("id", JStr id);
                           ("queue", JStr "jobs");
                           ("data", payload);
                           ("status", JStr "queued");
                           ("created_at", JStr (iso0 (now0 created)));
                           ("updated_at", JStr (iso0 (now0 updated)))] in
          redis (final (add_job0 "jobs" payload None q0)) =
            store_lpush (queue_key "jobs") id
              (store_set (job_key id) (Dumps job) None (redis q0))
          /\ commands (redis (final (add_job0 "jobs" payload None q0))) =
               LPUSH (queue_key "jobs") id
                 :: SET (job_key id) (Dumps job) None :: commands (redis q0)
          /\ strings (redis (final (add_job0 "jobs" payload None q0)))
               !! job_key id = Some (Dumps job)
          /\ lists (redis (final (add_job0 "jobs" payload None q0)))
               !! queue_key "jobs" =
               Some (id :: default [] (lists (redis q0) !! queue_key "jobs")).
Proof.
  split; [reflexivity|].
  apply (add_job_record_before_push now0 iso0 "jobs" payload None q0). reflexivity.
Defined.

(** C5 fails as stated: on a manager that was never connected [add_job]
    raises and returns no id, with nothing persisted; and an empty id
    given by the caller is not the id returned. *)
Lemma add_job_not_unconditional :
  client (redis q_off) = false
  /\ outcome (add_job0 "jobs" payload (Some "a") q_off)
     = Raise (Exn "AttributeError" "'NoneType' object has no attribute 'lpush'")
  /\ strings (redis (final (add_job0 "jobs" payload (Some "a") q_off))) !! job_key "a"
     = None
  /\ lists (redis (final (add_job0 "jobs" payload (Some "a") q_off))) !! queue_key "jobs"
     = None
  /\ outcome (add_job0 "jobs" payload (Some EmptyString) q0)
     = Ok "jobs_1700000000000".
Proof. split_and!; vm_compute; reflexivity. Qed.

Lemma duplicate_id_reprocessed_witness :
  client (redis q_worker) = true /\ "a" ≠ EmptyString
  /\ lists (redis q_worker) !! queue_key "jobs" = None
  /\ handlers q_worker !! "jobs" = Some echo
  /\ let r1 := add_job0 "jobs" payload (Some "a") q_worker in
     let r2 := add_job0 "jobs" (JNum 2) (Some "a") (final r1) in
     let t1 := final (turn0 "jobs" (final r2)) in
     let t2 := final (turn0 "jobs" t1) in
     outcome r1 = Ok "a"
     /\ outcome r2 = Ok "a"
     /\ (exists created updated,
           strings (redis (final r1)) !! job_key "a"
             = Some (Dumps (queued_job "a" "jobs" payload created updated)))
     /\ (exists created updated,
           strings (redis (final r2)) !! job_key "a"
             = Some (Dumps (queued_job "a" "jobs" (JNum 2) created updated)))
     /\ lists (redis (final r2)) !! queue_key "jobs" = Some ["a"; "a"]
     /\ lists (redis t1) !! queue_key "jobs" = Some ["a"]
     /\ lists (redis t2) !! queue_key "jobs" = None
     /\ journal t2 = [Invoked "jobs" (JNum 2); Invoked "jobs" (JNum 2)]
     /\ status_history "a" (redis t2)
        = [queued; queued; processing; completed; processing; completed].
Proof.
  split; [reflexivity|]. split; [discriminate|]. split; [reflexivity|].
  split; [reflexivity|].
  destruct (duplicate_id_reprocessed now0 iso0 "jobs" payload (JNum 2) "a" q_worker)
    as (H1 & H2 & H3 & H4 & H5 & H6); [reflexivity|discriminate|].
  destruct (H6 eq_refl) as (H7 & H8 & H9 & H10).
  cbn zeta. split_and!;
    [exact H1|exact H2|exact H3|exact H4|exact H5|exact H7|exact H8|exact H9|exact H10].
Defined.

(** C2 fails as stated: on a manager that was never connected both calls
    raise, no record is written and the id is not in the queue list. *)
Lemma duplicate_add_job_unconnected :
  let r1 := add_job0 "jobs" payload (Some "a") q_off in
  let r2 := add_job0 "jobs" (JNum 2) (Some "a") (final r1) in
  client (redis q_off) = false
  /\ outcome r1 = Raise (Exn "AttributeError" "'NoneType' object has no attribute 'lpush'")
  /\ outcome r2 = Raise (Exn "AttributeError" "'NoneType' object has no attribute 'lpush'")
  /\ strings (redis (final r2)) !! job_key "a" = None
  /\ lists (redis (final r2)) !! queue_key "jobs" = None.
Proof. split_and!; vm_compute; reflexivity. Qed.

Lemma failed_job_not_requeued_witness :
  (client (redis q_a) = true
   /\ lists (redis q_a) !! queue_key "jobs" = Some ([] ++ ["a"])%list
   /\ "a" ≠ EmptyString
   /\ strings (redis q_a) !! job_key "a" = Some (Dumps (JObj fields_a))
   /\ fields_a ≠ []
   /\ handlers q_a !! "jobs" = None
   /\ let run := turn0 "jobs" q_a in
      let q' := final run in
      outcome run = Ok tt
      /\ (exists doc, strings (redis q') !! job_key "a" = Some doc
                      /\ status_of doc = Some (JStr "failed")
                      /\ result_of doc = Some (JStr "No handler"))
      /\ journal q' = journal q_a
      /\ lists (redis q') !! queue_key "jobs" = None
      /\ (forall key value,
            LPUSH key value ∈ commands (redis q') ->
            LPUSH key value ∈ commands (redis q_a)))
  /\ (client (redis q_broken) = true
      /\ lists (redis q_broken) !! queue_key "jobs" = Some ([] ++ ["a"])%list
      /\ strings (redis q_broken) !! job_key "a" = Some (Dumps (JObj fields_a))
      /\ handlers q_broken !! "jobs" = Some broken
      /\ Dict.get "data" fields_a = Some payload
      /\ broken payload = Raise (Exn "ValueError" "broken")
      /\ is_exception (Exn "ValueError" "broken") = true
      /\ let run := turn0 "jobs" q_broken in
         let q' := final run in
         outcome run = Ok tt
         /\ (exists doc, strings (redis q') !! job_key "a" = Some doc
                         /\ status_of doc = Some (JStr "failed")
                         /\ result_of doc = Some (JStr "broken"))
         /\ journal q' = Invoked "jobs" payload :: journal q_broken
         /\ lists (redis q') !! queue_key "jobs" = None)
  /\ (handlers q_cancelled !! "jobs" = Some cancelled
      /\ cancelled payload = Raise (Exn "CancelledError" EmptyString)
      /\ is_exception (Exn "CancelledError" EmptyString) = false
      /\ let run := turn0 "jobs" q_cancelled in
         let q' := final run in
         outcome run = Raise (Exn "CancelledError" EmptyString)
         /\ (exists doc, strings (redis q') !! job_key "a" = Some doc
                         /\ status_of doc = Some (JStr "processing")
                         /\ result_of doc = Dict.get "result" fields_a)
         /\ journal q' = Invoked "jobs" payload :: journal q_cancelled
         /\ lists (redis q') !! queue_key "jobs" = None).
Proof.
  split_and!.
  - reflexivity.
  - reflexivity.
  - discriminate.
  - reflexivity.
  - discriminate.
  - reflexivity.
  - destruct (failed_job_not_requeued now0 iso0 "jobs" "a" [] fields_a q_a)
      as (H1 & _ & _ & _ & H5 & H6);
      [reflexivity|reflexivity|discriminate|reflexivity|discriminate|].
    destruct (H1 eq_refl) as (Ho & Hdoc & Hj).
    cbn zeta. split_and!; [exact Ho|exact Hdoc|exact Hj|exact H5|exact H6].
  - reflexivity.
  - reflexivity.
  - reflexivity.
  - reflexivity.
  - reflexivity.
  - reflexivity.
  - reflexivity.
  - destruct (failed_job_not_requeued now0 iso0 "jobs" "a" [] fields_a q_broken)
      as (_ & H2 & _ & _ & H5 & _);
      [reflexivity|reflexivity|discriminate|reflexivity|discriminate|].
    destruct (H2 broken payload (Exn "ValueError" "broken")
                eq_refl eq_refl eq_refl eq_refl) as (Ho & Hdoc & Hj).
    cbn zeta. split_and!; [exact Ho|exact Hdoc|exact Hj|exact H5].
  - reflexivity.
  - reflexivity.
  - reflexivity.
  - destruct (failed_job_not_requeued now0 iso0 "jobs" "a" [] fields_a q_cancelled)
      as (_ & _ & H3 & _ & H5 & _);
      [reflexivity|reflexivity|discriminate|reflexivity|discriminate|].
    destruct (H3 cancelled payload (Exn "CancelledError" EmptyString)
                eq_refl eq_refl eq_refl eq_refl) as (Ho & Hdoc & Hj).
    cbn zeta. split_and!; [exact Ho|exact Hdoc|exact Hj|exact H5].
Defined.

(** C6 fails as stated: a handler that is cancelled while it runs raises
    outside [Exception]; the exception leaves the turn, and the job is
    left processing, not failed. *)
Lemma cancelled_handler_leaves_processing :
  handlers q_cancelled !! "jobs" = Some cancelled
  /\ cancelled payload = Raise (Exn "CancelledError" EmptyString)
  /\ outcome (turn0 "jobs" q_cancelled) = Raise (Exn "CancelledError" EmptyString)
  /\ status_of <$> strings (redis (final (turn0 "jobs" q_cancelled))) !! job_key "a"
     = Some processing
  /\ status_history "a" (redis (final (turn0 "jobs" q_cancelled)))
     = [queued; processing]
  /\ outcome (process_queue0 3 "jobs" q_cancelled)
     = Raise (Exn "CancelledError" EmptyString).
Proof. split_and!; vm_compute; reflexivity. Qed.

Lemma missing_record_skipped_witness :
  client (redis q_ghost) = true
  /\ lists (redis q_ghost) !! queue_key "jobs" = Some ([] ++ ["ghost"])%list
  /\ "ghost" ≠ EmptyString
  /\ strings (redis q_ghost) !! job_key "ghost" = None
  /\ let q' := with_redis (store_rpop (queue_key "jobs") (redis q_ghost)) q_ghost in
     turn0 "jobs" q_ghost = (Ok tt, q')
     /\ strings (redis q') = strings (redis q_ghost)
     /\ commands (redis q') = RPOP (queue_key "jobs") :: commands (redis q_ghost)
     /\ journal q' = journal q_ghost
     /\ (forall turns,
           process_queue0 (S turns) "jobs" q_ghost = process_queue0 turns "jobs" q'
           /\ (catchable "jobs" q_ghost ->
               outcome (process_queue0 (S turns) "jobs" q_ghost) = Ok tt)).
Proof.
  split; [reflexivity|]. split; [reflexivity|]. split; [discriminate|].
  split; [reflexivity|].
  apply (missing_record_skipped now0 iso0 "jobs" "ghost" [] q_ghost);
    [reflexivity|reflexivity|discriminate|reflexivity].
Defined.

(** C1 fails as stated: enqueueing the id of a processed job again takes its
    status from failed back to queued. *)
Lemma status_moves_backward :
  occurrences "a" (lists (redis q0)) = 0%nat
  /\ status_history "a" (redis q0) = []
  /\ reach_any now0 iso0 q0 q_again
  /\ status_history "a" (redis q_again) = [queued; processing; failed; queued]
  /\ forward_only (status_history "a" (redis q_again)) = false.
Proof.
  split; [reflexivity|]. split; [reflexivity|]. split.
  - unfold q_again, q_processed. repeat apply any_op. apply any_start.
  - split; vm_compute; reflexivity.
Qed.

Lemma status_forward_when_enqueued_once_witness :
  occurrences "a" (lists (redis q0)) = 0%nat
  /\ status_history "a" (redis q0) = []
  /\ reach now0 iso0 "a" q0 true q_processed
  /\ let h := status_history "a" (redis q_processed) in
     (h = [] \/ h = [queued] \/ h = [queued; processing]
      \/ h = [queued; processing; completed]
      \/ h = [queued; processing; failed])
     /\ forward_only h = true
     /\ (h ≠ [] -> status_of <$> strings (redis q_processed) !! job_key "a" = last h).
Proof.
  assert (Hreach : reach now0 iso0 "a" q0 true q_processed).
  { unfold q_processed. apply reach_step.
    - apply reach_enqueue; [apply reach_start|]. reflexivity.
    - intros []. }
  split; [reflexivity|]. split; [reflexivity|]. split; [exact Hreach|].
  apply (status_forward_when_enqueued_once now0 iso0 "a" q0 true q_processed);
    [reflexivity|reflexivity|exact Hreach].
Defined.

(** C4 fails as stated: [get] on a manager that was never connected
    returns [None] and raises nothing. *)
Lemma get_on_unconnected_store_returns :
  client RedisManager.init = false
  /\ RedisManager.get "job:a" RedisManager.init = (Ok None, RedisManager.init)
  /\ RedisManager.set "job:a" (Raw "x") None RedisManager.init
     = (Ok false, RedisManager.init)
  /\ ¬ raises (outcome (RedisManager.get "job:a" RedisManager.init))
  /\ ¬ raises (outcome (RedisManager.set "job:a" (Raw "x") None RedisManager.init)).
Proof.
  split_and!; try reflexivity; intros [e He]; discriminate He.
Qed.

Lemma unconnected_store_calls_witness :
  client RedisManager.init = false
  /\ (forall key, RedisManager.get key RedisManager.init = (Ok None, RedisManager.init))
  /\ (forall key value ex,
        RedisManager.set key value ex RedisManager.init = (Ok false, RedisManager.init))
  /\ (forall key, RedisManager.delete key RedisManager.init = (Ok 0%Z, RedisManager.init))
  /\ (forall key,
        RedisManager.exists_ key RedisManager.init = (Ok (JBool false), RedisManager.init))
  /\ (forall key time,
        RedisManager.expire key time RedisManager.init = (Ok false, RedisManager.init))
  /\ (forall channel message,
        RedisManager.publish channel message RedisManager.init
          = (Ok 0%Z, RedisManager.init))
  /\ (forall channels,
        RedisManager.subscribe channels RedisManager.init = (Ok None, RedisManager.init))
  /\ RedisManager.pipeline RedisManager.init
     = (Raise (Exn "RuntimeError" "Redis client not connected"), RedisManager.init)
  /\ (forall q queue_name job_data job_id,
        redis q = RedisManager.init ->
        outcome (add_job0 queue_name job_data job_id q)
          = Raise (Exn "AttributeError" "'NoneType' object has no attribute 'lpush'")
        /\ redis (final (add_job0 queue_name job_data job_id q)) = RedisManager.init).
Proof.
  split; [reflexivity|].
  apply (unconnected_store_calls now0 iso0 RedisManager.init). reflexivity.
Defined.

End QueueFacts.


(** ** The connection registry *)

Module RegistryFacts.
Import WebSocketServer Registry.

(** *** The loops over [user_connections] *)

Lemma owner_None c ucs u s :
  owner c ucs = None -> Dict.get u ucs = Some s -> c ∉ s.
Proof.
  induction ucs as [|[u0 s0] ucs IH]; simpl; [done|].
  destruct (decide (c ∈ s0)); [done|]. intros Ho.
  destruct (decide (u0 = u)) as [->|]; [by intros [= <-]|]. by apply IH.
Qed.

Lemma owner_Some c ucs u0 :
  NoDup (Dict.keys ucs) -> owner c ucs = Some u0 ->
  exists s0, Dict.get u0 ucs = Some s0 /\ c ∈ s0.
Proof.
  unfold Dict.keys. induction ucs as [|[u1 s1] ucs IH]; csimpl; [done|].
  rewrite NoDup_cons. intros [Hu1 Hnd].
  destruct (decide (c ∈ s1)).
  - intros [= <-]. exists s1. by rewrite decide_True.
  - intros Ho. destruct (IH Hnd Ho) as (s0 & Hget & Hc).
    exists s0. split; [|done]. rewrite decide_False; [done|].
    intros ->. apply Hu1. by apply (DictFacts.get_Some_keys _ _ _ Hget).
Qed.

Lemma owner_get c ucs x s :
  NoDup (Dict.keys ucs) ->
  (forall u1 s1 u2 s2 c',
      Dict.get u1 ucs = Some s1 -> Dict.get u2 ucs = Some s2 ->
      c' ∈ s1 -> c' ∈ s2 -> u1 = u2) ->
  Dict.get x ucs = Some s -> c ∈ s -> owner c ucs = Some x.
Proof.
  intros Hnd Hsingle Hget Hc.
  destruct (owner c ucs) as [u0|] eqn:Ho.
  - destruct (owner_Some c ucs u0 Hnd Ho) as (s0 & Hget0 & Hc0).
    f_equal. by eapply Hsingle.
  - by destruct (owner_None c ucs x s Ho Hget).
Qed.

Lemma forget_not_owned c ucs : owner c ucs = None -> forget c ucs = ucs.
Proof.
  induction ucs as [|[u0 s0] ucs IH]; simpl; [done|].
  destruct (decide (c ∈ s0)); [done|]. intros Ho. by rewrite IH.
Qed.

Lemma get_forget_other c ucs u0 u :
  owner c ucs = Some u0 -> u ≠ u0 ->
  Dict.get u (forget c ucs) = Dict.get u ucs.
Proof.
  induction ucs as [|[u1 s1] ucs IH]; simpl; [done|].
  destruct (decide (c ∈ s1)).
  - intros [= <-] Hne. rewrite (decide_False (P := u1 = u)) by congruence.
    destruct (decide (s1 ∖ {[c]} = ∅)); [done|].
    simpl. by rewrite decide_False by congruence.
  - intros Ho Hne. simpl. destruct (decide (u1 = u)); [done|]. by apply IH.
Qed.

Lemma get_forget_owner c ucs u0 s0 :
  NoDup (Dict.keys ucs) -> owner c ucs = Some u0 -> Dict.get u0 ucs = Some s0 ->
  Dict.get u0 (forget c ucs)
    = if decide (s0 ∖ {[c]} = ∅) then None else Some (s0 ∖ {[c]}).
Proof.
  unfold Dict.keys. induction ucs as [|[u1 s1] ucs IH]; csimpl; [done|].
  rewrite NoDup_cons. intros [Hu1 Hnd].
  destruct (decide (c ∈ s1)).
  - intros [= <-]. rewrite decide_True by done. intros [= <-].
    destruct (decide (s1 ∖ {[c]} = ∅)).
    + by apply DictFacts.get_None.
    + simpl. by rewrite decide_True.
  - intros Ho. destruct (decide (u1 = u0)) as [->|Hne].
    + destruct (owner_Some c ucs u0 Hnd Ho) as (s & Hget & _).
      destruct Hu1. by apply (DictFacts.get_Some_keys _ _ _ Hget).
    + intros Hget. simpl. rewrite decide_False by done. by apply IH.
Qed.

Lemma keys_forget_subseteq c ucs : Dict.keys (forget c ucs) ⊆ Dict.keys ucs.
Proof.
  unfold Dict.keys. induction ucs as [|[u1 s1] ucs IH]; csimpl; [done|].
  destruct (decide (c ∈ s1)).
  - destruct (decide (s1 ∖ {[c]} = ∅)); csimpl; [|done].
    intros x Hx. by apply list_elem_of_further.
  - csimpl. intros x. rewrite !elem_of_cons. intros [->|?]; [by left|right; by apply IH].
Qed.

Lemma NoDup_forget c ucs : NoDup (Dict.keys ucs) -> NoDup (Dict.keys (forget c ucs)).
Proof.
  unfold Dict.keys. induction ucs as [|[u1 s1] ucs IH]; csimpl; [done|].
  rewrite NoDup_cons. intros [Hu1 Hnd].
  destruct (decide (c ∈ s1)).
  - destruct (decide (s1 ∖ {[c]} = ∅)); csimpl; [done|]. by apply NoDup_cons.
  - csimpl. apply NoDup_cons. split; [|auto].
    intros Hin. apply Hu1. by apply (keys_forget_subseteq c ucs).
Qed.

Lemma owner_forget_ne c c' ucs :
  c ≠ c' -> owner c (forget c' ucs) = owner c ucs.
Proof.
  intros Hne. induction ucs as [|[u1 s1] ucs IH]; simpl; [done|].
  destruct (decide (c' ∈ s1)).
  - destruct (decide (s1 ∖ {[c']} = ∅)) as [He|He].
    + rewrite decide_False; [done|]. set_solver.
    + simpl. destruct (decide (c ∈ s1)).
      * rewrite decide_True; [done|]. set_solver.
      * rewrite decide_False; [done|]. set_solver.
  - simpl. destruct (decide (c ∈ s1)); [done|]. apply IH.
Qed.

(** *** What the operations do to the registry *)

Lemma disconnect_absent c w :
  Dict.get c (active_connections w) = None -> disconnect c w = (Ok tt, w).
Proof. intros H. unfold disconnect. unfold_monad. by rewrite H. Qed.

Lemma disconnect_present c ws w :
  Dict.get c (active_connections w) = Some ws ->
  disconnect c w =
    (Ok tt,
     with_users (forget c (user_connections w))
       (with_active (Dict.del c (active_connections w))
          (if closes ws then record (Closed c) w else w))).
Proof.
  intros H. unfold disconnect, ws_close. unfold_monad. rewrite H.
  destruct (closes ws); by destruct w.
Qed.

Lemma disconnect_returns c w : outcome (disconnect c w) = Ok tt.
Proof.
  destruct (Dict.get c (active_connections w)) as [ws|] eqn:H.
  - by rewrite (disconnect_present c ws w H).
  - by rewrite (disconnect_absent c w H).
Qed.

Lemma send_to_connection_cases c m w :
  (Dict.get c (active_connections w) = None
   /\ send_to_connection c m w = (Ok false, w))
  \/ (exists ws, Dict.get c (active_connections w) = Some ws /\ sends ws m = true
                 /\ send_to_connection c m w = (Ok true, record (Sent c m) w))
  \/ (exists ws, Dict.get c (active_connections w) = Some ws /\ sends ws m = false
                 /\ send_to_connection c m w = (Ok false, final (disconnect c w))).
Proof.
  destruct (Dict.get c (active_connections w)) as [ws|] eqn:H.
  - right. destruct (sends ws m) eqn:Hs; [left|right]; exists ws; split_and!; try done.
    + unfold send_to_connection, ws_send_json. unfold_monad. by rewrite H, Hs.
    + unfold send_to_connection, ws_send_json. unfold_monad. rewrite H, Hs.
      pose proof (disconnect_returns c w) as Hr. unfold outcome in Hr.
      by destruct (disconnect c w) as [[[]|e] w'].
  - left. split; [done|]. unfold send_to_connection. unfold_monad. by rewrite H.
Qed.

Lemma connect_refused uuid4 ws user_id w :
  accepts ws = false -> final (connect uuid4 ws user_id w) = w.
Proof. intros H. unfold connect, ws_accept. unfold_monad. by rewrite H. Qed.

(** The two dictionaries after an accepted [connect]. *)
Lemma connect_accepted uuid4 ws user_id w :
  accepts ws = true ->
  let c := uuid4 (uuids w) in
  let w' := final (connect uuid4 ws user_id w) in
  outcome (connect uuid4 ws user_id w) = Ok c
  /\ active_connections w' = Dict.set c ws (active_connections w)
  /\ user_connections w' =
       match user_id with
       | Some u =>
           if str_truthy u
           then Dict.set u (default ∅ (Dict.get u (user_connections w)) ∪ {[c]})
                  (user_connections w)
           else user_connections w
       | None => user_connections w
       end
  /\ wire w' = wire w
  /\ tasks w' = match redis w with
                | Some _ => (tasks w ++ [Pending])%list
                | None => tasks w
                end
  /\ pubsub_task w' = match redis w with
                      | Some _ => Some (length (tasks w))
                      | None => pubsub_task w
                      end.
Proof.
  intros Ha. destruct w as [r ac ucs pt ts n wr].
  unfold connect, ws_accept, new_uuid, create_task. unfold_monad. rewrite Ha. cbn.
  assert (Hucs : forall u,
    Dict.set u
      (default ∅ (Dict.get u (if negb (Dict.mem u ucs) then Dict.set u ∅ ucs else ucs))
         ∪ {[uuid4 n]})
      (if negb (Dict.mem u ucs) then Dict.set u ∅ ucs else ucs)
    = Dict.set u (default ∅ (Dict.get u ucs) ∪ {[uuid4 n]}) ucs).
  { intros u. unfold Dict.mem. destruct (Dict.get u ucs) eqn:E; cbn.
    - by rewrite E.
    - by rewrite DictFacts.get_set_eq, DictFacts.set_set. }
  destruct user_id as [u|]; [destruct (str_truthy u)|]; destruct r; cbn;
    rewrite ?Hucs; done.
Qed.

(** *** The invariant *)

Lemma inv_maps w w' :
  active_connections w' = active_connections w ->
  user_connections w' = user_connections w ->
  registry_inv w -> registry_inv w'.
Proof.
  unfold registry_inv, well_formed, sets_within_active, sets_nonempty, single_owner.
  by intros -> ->.
Qed.

Lemma inv_init r : registry_inv (init r).
Proof.
  unfold registry_inv, well_formed, sets_within_active, sets_nonempty, single_owner.
  cbn. split_and!; try done; apply NoDup_nil_2.
Qed.

Lemma inv_disconnect c w : registry_inv w -> registry_inv (final (disconnect c w)).
Proof.
  intros Hinv.
  destruct (Dict.get c (active_connections w)) as [ws|] eqn:Hget.
  2:{ by rewrite (disconnect_absent c w Hget). }
  rewrite (disconnect_present c ws w Hget). unfold final. cbn [snd].
  destruct Hinv as ((Hnda & Hndu) & Hwithin & Hnonempty & Hsingle).
  set (ac := active_connections w) in *. set (ucs := user_connections w) in *.
  assert (Hac : active_connections
                  (with_users (forget c ucs)
                     (with_active (Dict.del c ac)
                        (if closes ws then record (Closed c) w else w)))
                = Dict.del c ac) by (by destruct (closes ws)).
  assert (Hucs : user_connections
                  (with_users (forget c ucs)
                     (with_active (Dict.del c ac)
                        (if closes ws then record (Closed c) w else w)))
                = forget c ucs) by (by destruct (closes ws)).
  (* what an entry of the new user dictionary was before *)
  assert (Hbefore : forall u s',
    Dict.get u (forget c ucs) = Some s' ->
    exists s, Dict.get u ucs = Some s /\ (s' ⊆ s) /\ (c ∉ s') /\ s' ≠ ∅).
  { intros u s' Hs'. destruct (owner c ucs) as [u0|] eqn:Ho.
    - destruct (owner_Some c ucs u0 Hndu Ho) as (s0 & Hget0 & Hc0).
      destruct (decide (u = u0)) as [->|Hne].
      + rewrite (get_forget_owner c ucs u0 s0 Hndu Ho Hget0) in Hs'.
        destruct (decide (s0 ∖ {[c]} = ∅)); [done|]. injection Hs' as <-.
        exists s0. split_and!; [done|set_solver|set_solver|done].
      + rewrite (get_forget_other c ucs u0 u Ho Hne) in Hs'.
        exists s'. split_and!; [done|done| |by eapply Hnonempty].
        intros Hc. apply Hne. by eapply Hsingle.
    - rewrite (forget_not_owned c ucs Ho) in Hs'.
      exists s'. split_and!; [done|done|by eapply owner_None|by eapply Hnonempty]. }
  unfold registry_inv, well_formed, sets_within_active, sets_nonempty, single_owner.
  rewrite Hac, Hucs. split_and!.
  - by apply DictFacts.NoDup_del.
  - by apply NoDup_forget.
  - intros u s' c' Hs' Hc'. destruct (Hbefore u s' Hs') as (s & Hs & Hsub & Hnc & _).
    rewrite DictFacts.get_del_ne; [eapply Hwithin; [exact Hs|set_solver]|].
    intros ->. done.
  - intros u s' Hs'. by destruct (Hbefore u s' Hs') as (s & _ & _ & _ & Hne).
  - intros u1 s1 u2 s2 c' H1 H2 Hc1 Hc2.
    destruct (Hbefore u1 s1 H1) as (s1' & Hs1 & Hsub1 & _).
    destruct (Hbefore u2 s2 H2) as (s2' & Hs2 & Hsub2 & _).
    eapply (Hsingle u1 s1' u2 s2' c'); [done|done|set_solver|set_solver].
Qed.

Lemma inv_send_to_connection c m w :
  registry_inv w -> registry_inv (final (send_to_connection c m w)).
Proof.
  intros Hinv.
  destruct (send_to_connection_cases c m w)
    as [[_ ->]|[(ws & _ & _ & ->)|(ws & _ & _ & ->)]]; unfold final at 1; cbn [snd].
  - done.
  - by eapply inv_maps.
  - by apply inv_disconnect.
Qed.

Lemma send_to_connection_returns c m w :
  exists ok, outcome (send_to_connection c m w) = Ok ok.
Proof.
  destruct (send_to_connection_cases c m w)
    as [[_ ->]|[(ws & _ & _ & ->)|(ws & _ & _ & ->)]]; by eexists.
Qed.

Lemma inv_send_each ids m n w :
  registry_inv w -> registry_inv (final (send_each ids m n w)).
Proof.
  revert n w. induction ids as [|c ids IH]; intros n w Hinv; [done|].
  cbn [send_each]. unfold mbind, M_bind, bind.
  pose proof (inv_send_to_connection c m w Hinv) as H1.
  destruct (send_to_connection_returns c m w) as [ok Hok].
  unfold outcome, final in *.
  destruct (send_to_connection c m w) as [[ok'|e] w1]; [|done]. cbn [snd] in H1.
  by apply IH.
Qed.

Lemma inv_broadcast_loop items m x n w :
  registry_inv w -> registry_inv (final (broadcast_loop items m x n w)).
Proof.
  revert n w. induction items as [|[c ws] items IH]; intros n w Hinv; [done|].
  cbn [broadcast_loop]. unfold mbind at 1. unfold M_bind, bind.
  set (skip := match x with Some x => _ | None => _ end).
  assert (Hskip : exists b, skip w = (Ok b, w)).
  { subst skip. destruct x as [x|]; [destruct (str_truthy x)|]; by eexists. }
  destruct Hskip as [b ->]. destruct b; [by apply IH|].
  unfold mbind, M_bind, bind.
  pose proof (inv_send_to_connection c m w Hinv) as H1.
  destruct (send_to_connection_returns c m w) as [ok Hok].
  unfold outcome, final in *.
  destruct (send_to_connection c m w) as [[ok'|e] w1]; [|done]. cbn [snd] in H1.
  by apply IH.
Qed.

Lemma inv_disconnect_each ids w :
  registry_inv w ->
  registry_inv (final (disconnect_each ids w))
  /\ outcome (disconnect_each ids w) = Ok tt.
Proof.
  revert w. induction ids as [|c ids IH]; intros w Hinv; [done|].
  cbn [disconnect_each]. unfold mbind, M_bind, bind.
  pose proof (inv_disconnect c w Hinv) as H1.
  pose proof (disconnect_returns c w) as Hr.
  unfold outcome, final in *.
  destruct (disconnect c w) as [[[]|e] w1]; [|done]. cbn [snd] in H1.
  by apply IH.
Qed.

Lemma cancel_and_join_maps task w :
  let m := task_cancel task;;
           try_except_only "CancelledError" (task_await task) (ret tt) in
  outcome (m w) = Ok tt
  /\ active_connections (final (m w)) = active_connections w
  /\ user_connections (final (m w)) = user_connections w.
Proof.
  destruct w as [r ac ucs pt ts n wr].
  unfold task_cancel, task_await, set_task, try_except_only. unfold_monad. cbn.
  destruct (ts !! task) as [st|] eqn:E; cbn.
  - destruct (running st); cbn.
    + destruct (<[task:=Cancelled]> ts !! task) as [[]|]; cbn; done.
    + rewrite E. destruct st; cbn; done.
  - rewrite E. done.
Qed.

Lemma inv_cleanup w : registry_inv w -> registry_inv (final (cleanup w)).
Proof.
  intros Hinv. unfold cleanup. unfold mbind at 1. unfold M_bind, bind, gets.
  unfold mbind at 1. unfold M_bind, bind.
  destruct (inv_disconnect_each (Dict.keys (active_connections w)) w Hinv) as [H1 Hr].
  unfold outcome, final in *.
  destruct (disconnect_each _ w) as [[[]|e] w1]; [|done]. cbn [fst snd] in *.
  unfold mbind at 1. unfold M_bind, bind.
  destruct (pubsub_task w1) as [task|]; [|done].
  destruct (cancel_and_join_maps task w1) as (_ & Ha & Hu).
  eapply inv_maps; [exact Ha|exact Hu|exact H1].
Qed.

Lemma inv_connect uuid4 ws user_id w :
  uuid4 (uuids w) ∉ Dict.keys (active_connections w) ->
  registry_inv w -> registry_inv (final (connect uuid4 ws user_id w)).
Proof.
  intros Hfresh Hinv. destruct (accepts ws) eqn:Ha.
  2:{ by rewrite connect_refused. }
  destruct (connect_accepted uuid4 ws user_id w Ha) as (_ & Hac & Hucs & _).
  set (c := uuid4 (uuids w)) in *.
  destruct Hinv as ((Hnda & Hndu) & Hwithin & Hnonempty & Hsingle).
  assert (Hmono : forall c', is_Some (Dict.get c' (active_connections w)) ->
                  is_Some (Dict.get c' (Dict.set c ws (active_connections w)))).
  { intros c' H. destruct (decide (c = c')) as [->|Hne].
    - rewrite DictFacts.get_set_eq. by eexists.
    - by rewrite DictFacts.get_set_ne. }
  assert (Hnot : forall u s, Dict.get u (user_connections w) = Some s -> c ∉ s).
  { intros u s Hs Hc. destruct (Hwithin u s c Hs Hc) as [x Hx].
    apply Hfresh. by apply (DictFacts.get_Some_keys _ _ _ Hx). }
  unfold registry_inv, well_formed, sets_within_active, sets_nonempty, single_owner.
  rewrite Hac, Hucs. clear Hac Hucs.
  assert (Hold : registry_inv
    (with_users (user_connections w)
       (with_active (Dict.set c ws (active_connections w)) w))).
  { unfold registry_inv, well_formed, sets_within_active, sets_nonempty, single_owner.
    cbn. split_and!; [by apply DictFacts.NoDup_set|done| |done|done].
    intros u s c' Hs Hc'. apply Hmono. by eapply Hwithin. }
  destruct user_id as [u|]; [destruct (str_truthy u)|]; [|exact Hold|exact Hold].
  clear Hold. set (su := default ∅ (Dict.get u (user_connections w))).
  assert (Hsu : forall c', c' ∈ su ->
                exists s, Dict.get u (user_connections w) = Some s /\ c' ∈ s).
  { subst su. intros c'. destruct (Dict.get u (user_connections w)) as [s|]; cbn.
    - intros H. by exists s.
    - set_solver. }
  assert (Hnew : forall u' s',
    Dict.get u' (Dict.set u (su ∪ {[c]}) (user_connections w)) = Some s' ->
    (u' = u /\ s' = su ∪ {[c]})
    \/ (u' ≠ u /\ Dict.get u' (user_connections w) = Some s')).
  { intros u' s'. destruct (decide (u = u')) as [->|Hne].
    - rewrite DictFacts.get_set_eq. intros [= <-]. by left.
    - rewrite DictFacts.get_set_ne by done. intros H. right. split; [congruence|done]. }
  split_and!.
  - by apply DictFacts.NoDup_set.
  - by apply DictFacts.NoDup_set.
  - intros u' s' c' Hs' Hc'. destruct (Hnew u' s' Hs') as [[-> ->]|[Hne Hs]].
    + apply elem_of_union in Hc' as [Hc'|Hc'].
      * destruct (Hsu c' Hc') as (s & Hs & Hcs). apply Hmono. by eapply Hwithin.
      * apply elem_of_singleton in Hc' as ->. rewrite DictFacts.get_set_eq. by eexists.
    + apply Hmono. by eapply Hwithin.
  - intros u' s' Hs'. destruct (Hnew u' s' Hs') as [[-> ->]|[Hne Hs]].
    + set_solver.
    + by eapply Hnonempty.
  - intros u1 s1 u2 s2 c' H1 H2 Hc1 Hc2.
    destruct (Hnew u1 s1 H1) as [[-> ->]|[Hne1 Hs1]];
      destruct (Hnew u2 s2 H2) as [[-> ->]|[Hne2 Hs2]]; [done| | |by eapply Hsingle].
    + apply elem_of_union in Hc1 as [Hc1|Hc1].
      * destruct (Hsu c' Hc1) as (s & Hs & Hcs). by eapply Hsingle.
      * apply elem_of_singleton in Hc1 as ->. by destruct (Hnot u2 s2 Hs2).
    + apply elem_of_union in Hc2 as [Hc2|Hc2].
      * destruct (Hsu c' Hc2) as (s & Hs & Hcs). by eapply Hsingle.
      * apply elem_of_singleton in Hc2 as ->. by destruct (Hnot u1 s1 Hs1).
Qed.

(** **** C10 *)

(** C10. The registry starts with, and [connect] (drawing an id not in
    use), [disconnect], [send_to_connection] (its cleanup on a failed send
    included), [send_to_user], [broadcast] and [cleanup] keep: every id in
    a user's set is a key of the active connections, no user's set is
    empty, and an id is in the set of at most one user. *)
Theorem registry_invariant_preserved uuid4 w :
  registry_inv w ->
  (forall ws user_id,
      uuid4 (uuids w) ∉ Dict.keys (active_connections w) ->
      registry_inv (final (connect uuid4 ws user_id w)))
  /\ (forall c, registry_inv (final (disconnect c w)))
  /\ (forall c m, registry_inv (final (send_to_connection c m w)))
  /\ (forall u m, registry_inv (final (send_to_user u m w)))
  /\ (forall m x, registry_inv (final (broadcast m x w)))
  /\ registry_inv (final (cleanup w))
  /\ registry_inv (init (redis w)).
Proof.
  intros Hinv. split_and!.
  - intros ws user_id Hfresh. by apply inv_connect.
  - intros c. by apply inv_disconnect.
  - intros c m. by apply inv_send_to_connection.
  - intros u m. unfold send_to_user. unfold_monad.
    destruct (Dict.get u (user_connections w)); [|done].
    by apply inv_send_each.
  - intros m x. unfold broadcast. unfold_monad. by apply inv_broadcast_loop.
  - by apply inv_cleanup.
  - apply inv_init.
Qed.

(** *** Deliveries *)

Lemma delivered_disconnect c c' w :
  delivered c (final (disconnect c' w)) = delivered c w.
Proof.
  destruct (Dict.get c' (active_connections w)) as [ws|] eqn:H.
  - rewrite (disconnect_present c' ws w H). unfold final, delivered. cbn [snd].
    by destruct (closes ws).
  - by rewrite (disconnect_absent c' w H).
Qed.

Lemma owner_disconnect c c' w :
  c ≠ c' ->
  owner c (user_connections (final (disconnect c' w))) = owner c (user_connections w).
Proof.
  intros Hne. destruct (Dict.get c' (active_connections w)) as [ws|] eqn:H.
  - rewrite (disconnect_present c' ws w H). unfold final. cbn [snd].
    destruct (closes ws); cbn; by apply owner_forget_ne.
  - by rewrite (disconnect_absent c' w H).
Qed.

(** A send to another connection delivers nothing to [c] and leaves its
    owner in place. *)
Lemma send_to_connection_other c c' m w :
  c ≠ c' ->
  let w' := final (send_to_connection c' m w) in
  delivered c w' = delivered c w
  /\ owner c (user_connections w') = owner c (user_connections w).
Proof.
  intros Hne.
  destruct (send_to_connection_cases c' m w)
    as [[_ ->]|[(ws & _ & _ & ->)|(ws & _ & _ & ->)]]; cbn zeta.
  - done.
  - unfold final. cbn [snd]. split; [|done].
    unfold delivered. cbn. by rewrite decide_False by congruence.
  - change (final (Ok false, final (disconnect c' w))) with (final (disconnect c' w)).
    split; [apply delivered_disconnect|by apply owner_disconnect].
Qed.

Lemma broadcast_loop_excluded items m x n w c :
  str_truthy x = true ->
  owner c (user_connections w) = Some x ->
  delivered c (final (broadcast_loop items m (Some x) n w)) = delivered c w.
Proof.
  intros Hx. revert n w. induction items as [|[c' ws] items IH]; intros n w Ho; [done|].
  cbn [broadcast_loop]. rewrite Hx. unfold mbind at 1. unfold M_bind, bind.
  unfold mbind at 1. unfold M_bind, bind, gets, ret.
  destruct (bool_decide (owner c' (user_connections w) = Some x)) eqn:Hskip.
  - by apply IH.
  - assert (Hne : c ≠ c').
    { intros ->. apply bool_decide_eq_false in Hskip. done. }
    unfold mbind, M_bind, bind.
    destruct (send_to_connection_other c c' m w Hne) as [Hd Hown].
    destruct (send_to_connection_returns c' m w) as [ok Hok].
    unfold outcome, final in *.
    destruct (send_to_connection c' m w) as [[ok'|e] w1]; [|done]. cbn [snd] in *.
    rewrite <- Hd. apply IH. by rewrite Hown.
Qed.

Lemma broadcast_loop_all_excluded items m x n w :
  str_truthy x = true ->
  (forall c ws, (c, ws) ∈ items -> owner c (user_connections w) = Some x) ->
  broadcast_loop items m (Some x) n w = (Ok n, w).
Proof.
  intros Hx. revert n. induction items as [|[c' ws] items IH]; intros n Hall; [done|].
  cbn [broadcast_loop]. rewrite Hx. unfold mbind at 1. unfold M_bind, bind.
  unfold mbind at 1. unfold M_bind, bind, gets, ret.
  rewrite bool_decide_eq_true_2 by (eapply Hall; apply list_elem_of_here).
  apply IH. intros c ws' Hin. eapply Hall. by apply list_elem_of_further.
Qed.

(** **** C9 *)

(** C9. [send_to_user] for a user without an entry returns 0 and changes
    nothing; [broadcast] with a user to exclude delivers nothing to the
    connections in that user's set, and returns 0, changing nothing, when
    every active connection is in that set. *)
Theorem send_to_user_and_broadcast_exclusion w :
  registry_inv w ->
  (forall u m, Dict.get u (user_connections w) = None ->
               send_to_user u m w = (Ok 0%Z, w))
  /\ (forall x m,
        x ≠ EmptyString ->
        (forall c s, Dict.get x (user_connections w) = Some s -> c ∈ s ->
                     delivered c (final (broadcast m (Some x) w)) = delivered c w)
        /\ ((forall c, is_Some (Dict.get c (active_connections w)) ->
                       exists s, Dict.get x (user_connections w) = Some s /\ c ∈ s) ->
            broadcast m (Some x) w = (Ok 0%Z, w))).
Proof.
  intros ((Hnda & Hndu) & Hwithin & Hnonempty & Hsingle). split.
  - intros u m Hu. unfold send_to_user. unfold_monad. by rewrite Hu.
  - intros x m Hx. assert (Htr : str_truthy x = true) by (by destruct x).
    assert (Hown : forall c s, Dict.get x (user_connections w) = Some s -> c ∈ s ->
                   owner c (user_connections w) = Some x).
    { intros c s Hs Hc. by eapply owner_get. }
    split.
    + intros c s Hs Hc. unfold broadcast. unfold mbind, M_bind, bind, gets.
      apply broadcast_loop_excluded; [done|by eapply Hown].
    + intros Hall. unfold broadcast. unfold mbind, M_bind, bind, gets.
      apply broadcast_loop_all_excluded; [done|].
      intros c ws Hin. destruct (Hall c) as (s & Hs & Hc).
      * apply DictFacts.elem_keys_get. unfold Dict.keys.
        apply list_elem_of_fmap. by exists (c, ws).
      * by eapply Hown.
Qed.

(** **** C8 *)

(** C8. [disconnect] never raises; on an id that is not connected it
    changes nothing, so a second call on the same id is a no-op; on a
    connected id it removes the id from the active connections and from the
    set of its user, whose entry goes when the set becomes empty, and
    touches nothing else. *)
Theorem disconnect_idempotent c w :
  registry_inv w ->
  let w' := final (disconnect c w) in
  outcome (disconnect c w) = Ok tt
  /\ (Dict.get c (active_connections w) = None -> disconnect c w = (Ok tt, w))
  /\ disconnect c w' = (Ok tt, w')
  /\ Dict.get c (active_connections w') = None
  /\ (forall c', c' ≠ c ->
        Dict.get c' (active_connections w') = Dict.get c' (active_connections w))
  /\ (forall u s, Dict.get u (user_connections w) = Some s -> c ∈ s ->
        Dict.get u (user_connections w')
          = if decide (s ∖ {[c]} = ∅) then None else Some (s ∖ {[c]}))
  /\ (forall u s, Dict.get u (user_connections w) = Some s -> c ∉ s ->
        Dict.get u (user_connections w') = Some s).
Proof.
  intros ((Hnda & Hndu) & Hwithin & Hnonempty & Hsingle) w'. subst w'.
  split; [apply disconnect_returns|]. split; [apply disconnect_absent|].
  destruct (Dict.get c (active_connections w)) as [ws|] eqn:Hget.
  - rewrite (disconnect_present c ws w Hget). unfold final. cbn [snd].
    set (w1 := if closes ws then record (Closed c) w else w).
    assert (Hgone : Dict.get c (Dict.del c (active_connections w)) = None)
      by (by apply DictFacts.get_del_eq).
    cbn [active_connections user_connections with_users with_active].
    split_and!.
    + apply disconnect_absent. exact Hgone.
    + exact Hgone.
    + intros c' Hne. apply DictFacts.get_del_ne. congruence.
    + intros u s Hs Hc.
      apply get_forget_owner; [done| |done]. by eapply owner_get.
    + intros u s Hs Hc.
      destruct (owner c (user_connections w)) as [u0|] eqn:Ho.
      * rewrite (get_forget_other c _ u0 u Ho); [done|].
        intros ->. destruct (owner_Some c _ u0 Hndu Ho) as (s0 & Hs0 & Hc0).
        congruence.
      * by rewrite forget_not_owned.
  - rewrite (disconnect_absent c w Hget). unfold final. cbn [snd].
    split_and!; [by apply disconnect_absent|done|done| |done].
    intros u s Hs Hc. destruct (Hwithin u s c Hs Hc) as [ws Hws]. congruence.
Qed.

(** **** C3 *)

(** C3 fails on the code.  Two clients connect to a registry that has a
    store manager: each [connect] creates a listener task, so two tasks
    listen and the channel has two subscriptions; [cleanup] cancels the
    task [pubsub_task] refers to, the second, and the first keeps
    listening. *)
Theorem first_listener_survives_cleanup :
  tasks Examples.w_two = [Listening; Listening]
  /\ (RedisManager.subscriptions <$> redis Examples.w_two)
     = Some ["websocket_broadcast"; "websocket_broadcast"]
  /\ pubsub_task Examples.w_two = Some 1%nat
  /\ outcome (cleanup Examples.w_two) = Ok tt
  /\ tasks Examples.w_torn_down = [Listening; Cancelled]
  /\ running_tasks Examples.w_torn_down = [0%nat]
  /\ active_connections Examples.w_torn_down = [].
Proof. vm_compute. split_and!; reflexivity. Qed.

(** *** The theorems at concrete states *)

Import Examples.

Ltac fresh_id := apply (bool_decide_unpack _); vm_compute; exact I.

Lemma inv_w_only_alice : registry_inv w_only_alice.
Proof.
  unfold w_only_alice.
  apply inv_connect; [fresh_id|]. apply inv_connect; [fresh_id|]. apply inv_init.
Qed.

Lemma inv_w_alice : registry_inv w_alice.
Proof.
  unfold w_alice. apply inv_connect; [fresh_id|]. apply inv_w_only_alice.
Qed.

Lemma registry_invariant_preserved_witness :
  registry_inv w_alice
  /\ (forall ws user_id,
        uuid0 (uuids w_alice) ∉ Dict.keys (active_connections w_alice) ->
        registry_inv (final (connect uuid0 ws user_id w_alice)))
  /\ (forall c, registry_inv (final (disconnect c w_alice)))
  /\ (forall c m, registry_inv (final (send_to_connection c m w_alice)))
  /\ (forall u m, registry_inv (final (send_to_user u m w_alice)))
  /\ (forall m x, registry_inv (final (broadcast m x w_alice)))
  /\ registry_inv (final (cleanup w_alice))
  /\ registry_inv (init (redis w_alice)).
Proof.
  split; [exact inv_w_alice|].
  apply (registry_invariant_preserved uuid0 w_alice). exact inv_w_alice.
Defined.

Lemma send_to_user_and_broadcast_exclusion_witness :
  registry_inv w_only_alice
  /\ (forall u m, Dict.get u (user_connections w_only_alice) = None ->
                  send_to_user u m w_only_alice = (Ok 0%Z, w_only_alice))
  /\ (forall x m,
        x ≠ EmptyString ->
        (forall c s, Dict.get x (user_connections w_only_alice) = Some s -> c ∈ s ->
                     delivered c (final (broadcast m (Some x) w_only_alice))
                       = delivered c w_only_alice)
        /\ ((forall c, is_Some (Dict.get c (active_connections w_only_alice)) ->
                       exists s, Dict.get x (user_connections w_only_alice) = Some s
                                 /\ c ∈ s) ->
            broadcast m (Some x) w_only_alice = (Ok 0%Z, w_only_alice))).
Proof.
  split; [exact inv_w_only_alice|].
  apply (send_to_user_and_broadcast_exclusion w_only_alice). exact inv_w_only_alice.
Defined.

Lemma disconnect_idempotent_witness :
  registry_inv w_alice
  /\ let w' := final (disconnect "1" w_alice) in
     outcome (disconnect "1" w_alice) = Ok tt
     /\ (Dict.get "1" (active_connections w_alice) = None ->
         disconnect "1" w_alice = (Ok tt, w_alice))
     /\ disconnect "1" w' = (Ok tt, w')
     /\ Dict.get "1" (active_connections w') = None
     /\ (forall c', c' ≠ "1" ->
           Dict.get c' (active_connections w') = Dict.get c' (active_connections w_alice))
     /\ (forall u s, Dict.get u (user_connections w_alice) = Some s -> "1" ∈ s ->
           Dict.get u (user_connections w')
             = if decide (s ∖ {["1"]} = ∅) then None else Some (s ∖ {["1"]}))
     /\ (forall u s, Dict.get u (user_connections w_alice) = Some s -> "1" ∉ s ->
           Dict.get u (user_connections w') = Some s).
Proof.
  split; [exact inv_w_alice|].
  apply (disconnect_idempotent "1" w_alice). exact inv_w_alice.
Defined.

(** What the example registries hold: alice owns "0" and "1"; a broadcast
    that excludes her reaches the anonymous connection "2" only, and one
    that excludes her when she is alone reaches nobody. *)
Lemma broadcast_examples :
  Dict.keys (active_connections w_alice) = ["0"; "1"; "2"]
  /\ Dict.get "alice" (user_connections w_alice) = Some {["0"; "1"]}
  /\ outcome (broadcast (JStr "hi") (Some "alice") w_alice) = Ok 1%Z
  /\ wire (final (broadcast (JStr "hi") (Some "alice") w_alice)) = [Sent "2" (JStr "hi")]
  /\ broadcast (JStr "hi") (Some "alice") w_only_alice = (Ok 0%Z, w_only_alice)
  /\ outcome (send_to_user "bob" (JStr "hi") w_alice) = Ok 0%Z
  /\ outcome (send_to_user "alice" (JStr "hi") w_alice) = Ok 1%Z.
Proof. split_and!; vm_compute; reflexivity. Qed.

End RegistryFacts.

(** * Further properties of the code *)

(** ** The job queue *)

Module QueueExtras.
Import RedisManager QueueManager Lifecycle RedisFacts QueueFacts.

Section clock.
Context (now : nat -> Z) (isoformat : Z -> string).

Local Abbreviation add_job := (QueueManager.add_job now isoformat).
Local Abbreviation update_job_status := (QueueManager.update_job_status now isoformat).
Local Abbreviation process_queue_turn := (QueueManager.process_queue_turn now isoformat).
Local Abbreviation process_queue := (QueueManager.process_queue now isoformat).
Local Abbreviation start_worker := (QueueManager.start_worker now isoformat).
Local Abbreviation written := (Lifecycle.written now isoformat).
Local Abbreviation after_turn := (Lifecycle.after_turn now isoformat).

Lemma get_job_stored job_id j q :
  client (redis q) = true ->
  strings (redis q) !! job_key job_id = Some (Dumps j) ->
  get_job job_id q = (Ok (Some j), q).
Proof.
  intros Hc Hdoc. destruct q as [[c strs ex ls subs cmds] jobs hs n jnl].
  cbn in Hc, Hdoc. subst c.
  unfold get_job, on_redis, RedisManager.get, json_loads. unfold_monad. cbn.
  by rewrite Hdoc.
Qed.

(** X2. A job that was enqueued is read back by [get_job] as the document
    [add_job] built: the resolved id, the queue, the payload, status
    queued. *)
Theorem get_job_after_add_job queue_name job_data job_id q :
  client (redis q) = true ->
  exists id created updated,
    outcome (add_job queue_name job_data job_id q) = Ok id
    /\ get_job id (final (add_job queue_name job_data job_id q))
       = (Ok (Some (queued_job id queue_name job_data created updated)),
          final (add_job queue_name job_data job_id q)).
Proof.
  intros Hc.
  destruct (add_job_facts now isoformat queue_name job_data job_id q Hc)
    as (id & q' & created & updated & Hrun & _ & _ & Hc' & Hdoc & _).
  exists id, created, updated. rewrite Hrun. split; [done|].
  unfold final. cbn [snd]. by apply get_job_stored.
Qed.

Lemma get_job_none job_id q :
  client (redis q) = false
  \/ strings (redis q) !! job_key job_id = None
  \/ strings (redis q) !! job_key job_id = Some (Raw EmptyString) ->
  get_job job_id q = (Ok None, q).
Proof.
  destruct q as [[c strs ex ls subs cmds] jobs hs n jnl]. cbn.
  unfold get_job, on_redis, RedisManager.get, json_loads. unfold_monad. cbn.
  intros [->|[H|H]]; [done| |]; destruct c; cbn; rewrite ?H; done.
Qed.

(** X3. [get_job] gives [None], and changes nothing, when the manager was never
    connected, when nothing is stored under the id, and when the stored
    text is empty. *)
Theorem get_job_absent job_id q :
  client (redis q) = false
  \/ strings (redis q) !! job_key job_id = None
  \/ strings (redis q) !! job_key job_id = Some (Raw EmptyString) ->
  get_job job_id q = (Ok None, q).
Proof. exact (get_job_none job_id q). Qed.

(** X4. [update_job_status] on an id without a document, or on a manager that
    was never connected, does nothing: no write, no clock reading, no
    mirror entry. *)
Theorem update_job_status_missing job_id status result q :
  client (redis q) = false \/ strings (redis q) !! job_key job_id = None ->
  update_job_status job_id status result q = (Ok tt, q).
Proof.
  intros H. unfold QueueManager.update_job_status. unfold mbind at 1.
  unfold M_bind, bind.
  rewrite get_job_none; [done|]. destruct H; auto.
Qed.

(** X5. [update_job_status] on a stored job rewrites the whole document with
    the new status and a new [updated_at]; a result that is not [None]
    is stored, [None] keeps the result the document had; every other field
    (id, queue, data, created_at) keeps its value; the mirror gets the same
    document, and no other key of the store changes. *)
Theorem update_job_status_rewrites job_id status (result : json) kvs q :
  client (redis q) = true ->
  strings (redis q) !! job_key job_id = Some (Dumps (JObj kvs)) ->
  kvs ≠ [] ->
  let q' := final (update_job_status job_id status result q) in
  exists kvs',
    outcome (update_job_status job_id status result q) = Ok tt
    /\ strings (redis q') !! job_key job_id = Some (Dumps (JObj kvs'))
    /\ jobs q' !! job_id = Some (JObj kvs')
    /\ Dict.get "status" kvs' = Some (JStr status)
    /\ Dict.get "updated_at" kvs' = Some (JStr (isoformat (now (clock_reads q))))
    /\ (result ≠ JNull -> Dict.get "result" kvs' = Some result)
    /\ (result = JNull -> Dict.get "result" kvs' = Dict.get "result" kvs)
    /\ (forall k, k ≠ "status" -> k ≠ "updated_at" -> k ≠ "result" ->
                  Dict.get k kvs' = Dict.get k kvs)
    /\ (forall k, k ≠ job_key job_id ->
                  strings (redis q') !! k = strings (redis q) !! k)
    /\ lists (redis q') = lists (redis q).
Proof.
  intros Hc Hdoc Hne q'. subst q'.
  rewrite (update_job_status_dict now isoformat job_id status result kvs q Hc Hdoc Hne).
  unfold final, outcome. cbn [fst snd].
  eexists. split; [done|].
  cbn [redis jobs Lifecycle.written strings lists store_set log with_expiry with_strings].
  split_and!.
  - apply lookup_insert_eq.
  - apply lookup_insert_eq.
  - apply stamp_status.
  - apply stamp_updated_at.
  - apply stamp_result.
  - intros ->. apply stamp_keeps_result.
  - intros k. apply stamp_other.
  - intros k Hk. by rewrite lookup_insert_ne.
  - done.
Qed.

(** X6. When the handler of the queue returns, the turn returns and the
    handler was called once, with the job's data.  A value that
    [json.dumps] accepts leaves the job completed: when it is not [None] it
    is stored as the result, [None] leaves the result field as it was.  A
    value that [json.dumps] refuses leaves the job failed, with the text of
    that error as the result.  [get_job] reads the document back, and the
    id is gone from the queue. *)
Theorem completed_job_round_trip queue_name job_id l kvs (h : handler) data v q :
  client (redis q) = true ->
  lists (redis q) !! queue_key queue_name = Some (l ++ [job_id])%list ->
  job_id ≠ EmptyString ->
  strings (redis q) !! job_key job_id = Some (Dumps (JObj kvs)) ->
  handlers q !! queue_name = Some h ->
  Dict.get "data" kvs = Some data ->
  h data = Ok v ->
  let run := process_queue_turn queue_name q in
  let q' := final run in
  exists kvs',
    outcome run = Ok tt
    /\ get_job job_id q' = (Ok (Some (JObj kvs')), q')
    /\ match v with
       | Json result =>
           Dict.get "status" kvs' = Some (JStr "completed")
           /\ (result ≠ JNull -> Dict.get "result" kvs' = Some result)
           /\ (result = JNull -> Dict.get "result" kvs' = Dict.get "result" kvs)
       | Refused d =>
           Dict.get "status" kvs' = Some (JStr "failed")
           /\ Dict.get "result" kvs' = Some (JStr (exn_str (dumps_exn d)))
       end
    /\ Dict.get "data" kvs' = Some data
    /\ journal q' = Invoked queue_name data :: journal q
    /\ lists (redis q') = lists (store_rpop (queue_key queue_name) (redis q)).
Proof.
  intros Hc Hl Hid Hdoc Hh Hd Hr run q'. subst q' run.
  assert (Hne : kvs ≠ []) by (intros ->; done).
  rewrite (process_queue_turn_job now isoformat queue_name job_id l kvs q)
    by (try done; by destruct job_id).
  unfold final, outcome. cbn [fst snd].
  unfold Lifecycle.after_turn, turn_result. rewrite Hh, Hd, Hr. cbn zeta.
  destruct v as [result|d].
  - eexists. split; [done|]. split; [|split_and!].
    + apply get_job_stored.
      * cbn [redis Lifecycle.written client store_set log with_expiry with_strings
               record with_redis].
        by rewrite client_store_rpop.
      * cbn [redis Lifecycle.written strings store_set log with_expiry with_strings
               record with_redis].
        apply lookup_insert_eq.
    + apply stamp_status.
    + apply stamp_result.
    + intros ->. by rewrite !stamp_keeps_result.
    + by rewrite !stamp_other.
    + done.
    + done.
  - eexists. split; [done|]. split; [|split_and!].
    + apply get_job_stored.
      * cbn [redis Lifecycle.written client store_set log with_expiry with_strings
               record with_redis with_clock_reads].
        by rewrite client_store_rpop.
      * cbn [redis Lifecycle.written strings store_set log with_expiry with_strings
               record with_redis with_clock_reads].
        apply lookup_insert_eq.
    + apply stamp_status.
    + apply stamp_result. by destruct d.
    + by rewrite !stamp_other.
    + done.
    + done.
Qed.

(** X7. A turn on a connected store whose queue is empty waits one second and
    touches no job: the store sees one pop and nothing else. *)
Theorem empty_queue_waits queue_name q :
  client (redis q) = true ->
  lists (redis q) !! queue_key queue_name = None ->
  process_queue_turn queue_name q
    = (Ok tt, record (Slept 1) (with_redis (log (RPOP (queue_key queue_name)) (redis q)) q)).
Proof.
  intros Hc Hl. destruct q as [[c strs ex ls subs cmds] jobs hs n jnl].
  cbn in Hc, Hl. subst c.
  unfold QueueManager.process_queue_turn, on_redis, client_rpop, sleep, store_rpop.
  unfold_monad. cbn. rewrite Hl. reflexivity.
Qed.

Lemma unconnected_turn queue_name q :
  client (redis q) = false ->
  process_queue_turn queue_name q = (Ok tt, record (Slept 5) q).
Proof.
  intros Hc. destruct q as [[c strs ex ls subs cmds] jobs hs n jnl].
  cbn in Hc. subst c. reflexivity.
Qed.

(** X8. A worker on a manager that was never connected does not stop and does
    not report: every turn waits five seconds, so [turns] turns leave
    [turns] waits in the journal and the manager as it was. *)
Theorem unconnected_worker_backs_off turns queue_name q :
  client (redis q) = false ->
  let q' := final (start_worker turns queue_name q) in
  outcome (start_worker turns queue_name q) = Ok tt
  /\ journal q' = (replicate turns (Slept 5) ++ journal q)%list
  /\ redis q' = redis q
  /\ jobs q' = jobs q.
Proof.
  unfold QueueManager.start_worker. revert q.
  induction turns as [|n IH]; intros q Hc; [done|].
  cbn [QueueManager.process_queue]. unfold mbind, M_bind, bind.
  rewrite (unconnected_turn queue_name q Hc).
  destruct (IH (record (Slept 5) q)) as (Ho & Hj & Hr & Hjobs); [by destruct q|].
  cbn zeta in *. split_and!; [done| |by rewrite Hr|by rewrite Hjobs].
  rewrite Hj. cbn [journal record]. rewrite replicate_S.
  change (Slept 5 :: journal q) with ([Slept 5] ++ journal q)%list.
  rewrite app_assoc. f_equal.
  clear. induction n as [|n IH]; [done|]. cbn. by rewrite IH.
Qed.


(** X10. A popped id whose stored text is not JSON, or is JSON but not an
    object, is lost: the turn writes no status, waits five seconds, and the
    id is no longer in the queue. *)
Theorem malformed_record_dropped queue_name job_id l doc q :
  client (redis q) = true ->
  lists (redis q) !! queue_key queue_name = Some (l ++ [job_id])%list ->
  job_id ≠ EmptyString ->
  strings (redis q) !! job_key job_id = Some doc ->
  match doc with
  | Raw s => s ≠ EmptyString
  | Dumps j => truthy j = true /\ forall kvs, j ≠ JObj kvs
  end ->
  process_queue_turn queue_name q
    = (Ok tt, record (Slept 5) (with_redis (store_rpop (queue_key queue_name) (redis q)) q)).
Proof.
  intros Hc Hl Hid Hdoc Hbad.
  assert (Htr : str_truthy job_id = true) by (by destruct job_id).
  assert (Hpop : pop_tail (default [] (lists (redis q) !! queue_key queue_name))
                 = Some (job_id, l)) by (rewrite Hl; apply pop_tail_snoc).
  destruct q as [[c strs ex ls subs cmds] jobs hs n jnl]. cbn in *. subst c.
  unfold QueueManager.process_queue_turn, QueueManager.update_job_status,
    QueueManager.get_job, on_redis, client_rpop, RedisManager.get, sleep,
    json_loads, py_setitem, store_rpop.
  unfold_monad. cbn. rewrite Hpop. cbn. rewrite Htr. cbn.
  destruct doc as [s|j].
  - destruct l; cbn; rewrite Hdoc; cbn; destruct s; done.
  - destruct Hbad as [Hj Hobj].
    destruct j as [ |b|z|s|xs|kvs]; [done| | | | |by destruct (Hobj kvs)];
      destruct l; cbn; rewrite Hdoc; cbn; cbn in Hj; rewrite ?Hj; cbn;
      rewrite ?Hdoc; cbn; rewrite ?Hj; try done;
      destruct xs; done.
Qed.

(** X11. A stored job without a [data] field, on a queue that has a handler, is
    left failed with the text of the [KeyError] as result; the handler is
    not called. *)
Theorem job_without_data_fails queue_name job_id l kvs (h : handler) q :
  client (redis q) = true ->
  lists (redis q) !! queue_key queue_name = Some (l ++ [job_id])%list ->
  job_id ≠ EmptyString ->
  strings (redis q) !! job_key job_id = Some (Dumps (JObj kvs)) ->
  kvs ≠ [] ->
  handlers q !! queue_name = Some h ->
  Dict.get "data" kvs = None ->
  let q' := final (process_queue_turn queue_name q) in
  exists kvs',
    strings (redis q') !! job_key job_id = Some (Dumps (JObj kvs'))
    /\ Dict.get "status" kvs' = Some (JStr "failed")
    /\ Dict.get "result" kvs' = Some (JStr "'data'")
    /\ journal q' = journal q.
Proof.
  intros Hc Hl Hid Hdoc Hne Hh Hd q'. subst q'.
  rewrite (process_queue_turn_job now isoformat queue_name job_id l kvs q)
    by (try done; by destruct job_id).
  unfold final. cbn [snd]. unfold Lifecycle.after_turn.
  destruct (handlers q !! queue_name) as [h'|]; [|done]. rewrite Hd.
  eexists. split_and!.
  - cbn [redis Lifecycle.written strings store_set log with_expiry with_strings].
    apply lookup_insert_eq.
  - apply stamp_status.
  - by apply stamp_result.
  - done.
Qed.

Lemma get_queue_stats_run queue_name q active completed failed :
  client (redis q) = true ->
  count_jobs queue_name "processing" (map_to_list (jobs q)).*2 q = (Ok active, q) ->
  count_jobs queue_name "completed" (map_to_list (jobs q)).*2 q = (Ok completed, q) ->
  count_jobs queue_name "failed" (map_to_list (jobs q)).*2 q = (Ok failed, q) ->
  get_queue_stats queue_name q
    = (Ok (JObj [("queue_length",
                  JNum (Z.of_nat (length (default [] (lists (redis q)
                                                       !! queue_key queue_name)))));
                 ("active_jobs", JNum active);
                 ("completed_jobs", JNum completed);
                 ("failed_jobs", JNum failed)]), q).
Proof.
  intros Hc Ha Hcm Hf.
  unfold get_queue_stats. unfold mbind at 1. unfold M_bind, bind.
  assert (Hlen : on_redis (client_llen (queue_key queue_name)) q
    = (Ok (Z.of_nat (length (default [] (lists (redis q) !! queue_key queue_name)))), q)).
  { destruct q as [[c strs ex ls subs cmds] mirror hs n jnl]. cbn in Hc. subst c.
    reflexivity. }
  rewrite Hlen. unfold mbind at 1. unfold M_bind, bind, gets.
  unfold mbind at 1. unfold M_bind, bind. rewrite Ha.
  unfold mbind at 1. unfold M_bind, bind. rewrite Hcm.
  unfold mbind at 1. unfold M_bind, bind. rewrite Hf.
  reflexivity.
Qed.

Lemma job_matches_document queue_name status j q :
  job_document j = true ->
  job_matches queue_name status j q = (Ok (in_status queue_name status j), q).
Proof.
  unfold job_document, in_status, job_matches, py_getitem.
  destruct j as [ | | | | |kvs]; try done.
  destruct (Dict.get "queue" kvs) as [qn|]; [|done].
  destruct (Dict.get "status" kvs) as [st|]; [|done]. intros _.
  unfold_monad.
  destruct qn as [ | | |qn| | ]; try done.
  destruct (decide (qn = queue_name)) as [Hq|Hq].
  - rewrite (bool_decide_eq_true_2 _ Hq). by destruct st.
  - rewrite (bool_decide_eq_false_2 _ Hq). by destruct st.
Qed.

Lemma count_jobs_documents queue_name status js q :
  forallb job_document js = true ->
  count_jobs queue_name status js q = (Ok (number_in_status queue_name status js), q).
Proof.
  unfold number_in_status.
  induction js as [|j js IH]; [done|]. cbn [forallb].
  intros [Hj Hjs]%andb_true_iff. cbn [count_jobs].
  unfold mbind at 1. unfold M_bind, bind. rewrite job_matches_document by done.
  unfold mbind at 1. unfold M_bind, bind. rewrite IH by done.
  unfold mret, M_ret, ret. rewrite filter_cons.
  destruct (in_status queue_name status j).
  - rewrite decide_True by done. cbn [length]. f_equal. f_equal. lia.
  - by rewrite decide_False by done.
Qed.

(** X13. The statistics of a queue give the length of the store's list as
    [queue_length], and count the processing, completed and failed jobs of
    the queue among the documents of this manager's own mirror, whatever
    the store holds for them; the mirror's documents are taken to have a
    queue and a status, as the ones [add_job] and the worker put there
    have. *)
Theorem get_queue_stats_counts_mirror queue_name q :
  client (redis q) = true ->
  forallb job_document (map_to_list (jobs q)).*2 = true ->
  let mirror := (map_to_list (jobs q)).*2 in
  get_queue_stats queue_name q
    = (Ok (JObj [("queue_length",
                  JNum (Z.of_nat (length (default [] (lists (redis q)
                                                       !! queue_key queue_name)))));
                 ("active_jobs", JNum (number_in_status queue_name "processing" mirror));
                 ("completed_jobs", JNum (number_in_status queue_name "completed" mirror));
                 ("failed_jobs", JNum (number_in_status queue_name "failed" mirror))]),
       q).
Proof.
  intros Hc Hdocs mirror. subst mirror.
  apply get_queue_stats_run; [done|..]; by apply count_jobs_documents.
Qed.

(** X14. On a manager that was never connected the statistics are not
    guarded as the worker is: the call raises [AttributeError], and changes
    nothing. *)
Theorem get_queue_stats_unconnected queue_name q :
  client (redis q) = false ->
  exists e, get_queue_stats queue_name q = (Raise e, q)
            /\ exn_class e = "AttributeError".
Proof.
  intros Hc. destruct q as [[c strs ex ls subs cmds] jobs hs n jnl].
  cbn in Hc. subst c.
  unfold get_queue_stats, on_redis, client_llen. unfold_monad. cbn.
  by eexists.
Qed.

End clock.

Import Examples.

Lemma get_queue_stats_unconnected_witness :
  client (redis q_off) = false
  /\ exists e, get_queue_stats "jobs" q_off = (Raise e, q_off)
               /\ exn_class e = "AttributeError".
Proof.
  split; [reflexivity|]. apply (get_queue_stats_unconnected "jobs" q_off). reflexivity.
Defined.

Lemma get_job_after_add_job_witness :
  client (redis q0) = true
  /\ exists id created updated,
       outcome (add_job now0 iso0 "jobs" payload (Some "a") q0) = Ok id
       /\ get_job id (final (add_job now0 iso0 "jobs" payload (Some "a") q0))
          = (Ok (Some (queued_job id "jobs" payload created updated)),
             final (add_job now0 iso0 "jobs" payload (Some "a") q0)).
Proof.
  split; [reflexivity|].
  apply (get_job_after_add_job now0 iso0 "jobs" payload (Some "a") q0). reflexivity.
Defined.

Lemma get_job_absent_witness :
  (client (redis q_a) = false
   \/ strings (redis q_a) !! job_key "z" = None
   \/ strings (redis q_a) !! job_key "z" = Some (Raw EmptyString))
  /\ get_job "z" q_a = (Ok None, q_a).
Proof.
  assert (H : client (redis q_a) = false
              \/ strings (redis q_a) !! job_key "z" = None
              \/ strings (redis q_a) !! job_key "z" = Some (Raw EmptyString))
    by (right; left; reflexivity).
  split; [exact H|]. apply (get_job_absent "z" q_a). exact H.
Defined.

Lemma update_job_status_missing_witness :
  (client (redis q_a) = false \/ strings (redis q_a) !! job_key "z" = None)
  /\ update_job_status now0 iso0 "z" "completed" (JNum 1) q_a = (Ok tt, q_a).
Proof.
  assert (H : client (redis q_a) = false \/ strings (redis q_a) !! job_key "z" = None)
    by (right; reflexivity).
  split; [exact H|].
  apply (update_job_status_missing now0 iso0 "z" "completed" (JNum 1) q_a). exact H.
Defined.

Lemma update_job_status_rewrites_witness :
  client (redis q_a) = true
  /\ strings (redis q_a) !! job_key "a" = Some (Dumps (JObj fields_a))
  /\ fields_a ≠ []
  /\ let q' := final (update_job_status now0 iso0 "a" "processing" JNull q_a) in
     exists kvs',
       outcome (update_job_status now0 iso0 "a" "processing" JNull q_a) = Ok tt
       /\ strings (redis q') !! job_key "a" = Some (Dumps (JObj kvs'))
       /\ jobs q' !! "a" = Some (JObj kvs')
       /\ Dict.get "status" kvs' = Some (JStr "processing")
       /\ Dict.get "updated_at" kvs' = Some (JStr (iso0 (now0 (clock_reads q_a))))
       /\ (JNull ≠ JNull -> Dict.get "result" kvs' = Some JNull)
       /\ (JNull = JNull -> Dict.get "result" kvs' = Dict.get "result" fields_a)
       /\ (forall k, k ≠ "status" -> k ≠ "updated_at" -> k ≠ "result" ->
                     Dict.get k kvs' = Dict.get k fields_a)
       /\ (forall k, k ≠ job_key "a" ->
                     strings (redis q') !! k = strings (redis q_a) !! k)
       /\ lists (redis q') = lists (redis q_a).
Proof.
  split; [reflexivity|]. split; [reflexivity|]. split; [discriminate|].
  apply (update_job_status_rewrites now0 iso0 "a" "processing" JNull fields_a q_a);
    [reflexivity|reflexivity|discriminate].
Defined.

Lemma completed_job_round_trip_witness :
  (client (redis q_handled) = true
   /\ lists (redis q_handled) !! queue_key "jobs" = Some ([] ++ ["a"])%list
   /\ "a" ≠ EmptyString
   /\ strings (redis q_handled) !! job_key "a" = Some (Dumps (JObj fields_a))
   /\ handlers q_handled !! "jobs" = Some echo
   /\ Dict.get "data" fields_a = Some payload
   /\ echo payload = Ok (Json payload)
   /\ let run := process_queue_turn now0 iso0 "jobs" q_handled in
      let q' := final run in
      exists kvs',
        outcome run = Ok tt
        /\ get_job "a" q' = (Ok (Some (JObj kvs')), q')
        /\ (Dict.get "status" kvs' = Some (JStr "completed")
            /\ (payload ≠ JNull -> Dict.get "result" kvs' = Some payload)
            /\ (payload = JNull -> Dict.get "result" kvs' = Dict.get "result" fields_a))
        /\ Dict.get "data" kvs' = Some payload
        /\ journal q' = Invoked "jobs" payload :: journal q_handled
        /\ lists (redis q') = lists (store_rpop (queue_key "jobs") (redis q_handled)))
  /\ (handlers q_gives_set !! "jobs" = Some gives_set
      /\ gives_set payload = Ok (Refused (NotSerializable "set"))
      /\ let run := process_queue_turn now0 iso0 "jobs" q_gives_set in
         let q' := final run in
         exists kvs',
           outcome run = Ok tt
           /\ get_job "a" q' = (Ok (Some (JObj kvs')), q')
           /\ (Dict.get "status" kvs' = Some (JStr "failed")
               /\ Dict.get "result" kvs'
                  = Some (JStr "Object of type set is not JSON serializable"))
           /\ Dict.get "data" kvs' = Some payload
           /\ journal q' = Invoked "jobs" payload :: journal q_gives_set
           /\ lists (redis q')
              = lists (store_rpop (queue_key "jobs") (redis q_gives_set))).
Proof.
  split.
  - split; [reflexivity|]. split; [reflexivity|]. split; [discriminate|].
    split; [reflexivity|]. split; [reflexivity|]. split; [reflexivity|].
    split; [reflexivity|].
    apply (completed_job_round_trip now0 iso0 "jobs" "a" [] fields_a echo payload
             (Json payload) q_handled);
      [reflexivity|reflexivity|discriminate|reflexivity|reflexivity|reflexivity
      |reflexivity].
  - split; [reflexivity|]. split; [reflexivity|].
    apply (completed_job_round_trip now0 iso0 "jobs" "a" [] fields_a gives_set payload
             (Refused (NotSerializable "set")) q_gives_set);
      [reflexivity|reflexivity|discriminate|reflexivity|reflexivity|reflexivity
      |reflexivity].
Defined.

Lemma empty_queue_waits_witness :
  client (redis q0) = true
  /\ lists (redis q0) !! queue_key "jobs" = None
  /\ process_queue_turn now0 iso0 "jobs" q0
     = (Ok tt, record (Slept 1) (with_redis (log (RPOP (queue_key "jobs")) (redis q0)) q0)).
Proof.
  split; [reflexivity|]. split; [reflexivity|].
  apply (empty_queue_waits now0 iso0 "jobs" q0); reflexivity.
Defined.

Lemma unconnected_worker_backs_off_witness :
  client (redis q_off) = false
  /\ let q' := final (start_worker now0 iso0 3 "jobs" q_off) in
     outcome (start_worker now0 iso0 3 "jobs" q_off) = Ok tt
     /\ journal q' = (replicate 3 (Slept 5) ++ journal q_off)%list
     /\ redis q' = redis q_off
     /\ jobs q' = jobs q_off.
Proof.
  split; [reflexivity|].
  apply (unconnected_worker_backs_off now0 iso0 3 "jobs" q_off). reflexivity.
Defined.

Lemma malformed_record_dropped_witness :
  client (redis q_raw) = true
  /\ lists (redis q_raw) !! queue_key "jobs" = Some ([] ++ ["bad"])%list
  /\ "bad" ≠ EmptyString
  /\ strings (redis q_raw) !! job_key "bad" = Some (Raw "not json")
  /\ "not json" ≠ EmptyString
  /\ process_queue_turn now0 iso0 "jobs" q_raw
     = (Ok tt, record (Slept 5) (with_redis (store_rpop (queue_key "jobs") (redis q_raw))
                                   q_raw)).
Proof.
  split; [reflexivity|]. split; [reflexivity|]. split; [discriminate|].
  split; [reflexivity|]. split; [discriminate|].
  apply (malformed_record_dropped now0 iso0 "jobs" "bad" [] (Raw "not json") q_raw);
    [reflexivity|reflexivity|discriminate|reflexivity|discriminate].
Defined.

Lemma job_without_data_fails_witness :
  client (redis q_nodata) = true
  /\ lists (redis q_nodata) !! queue_key "jobs" = Some ([] ++ ["b"])%list
  /\ "b" ≠ EmptyString
  /\ strings (redis q_nodata) !! job_key "b" = Some (Dumps (JObj fields_b))
  /\ fields_b ≠ []
  /\ handlers q_nodata !! "jobs" = Some echo
  /\ Dict.get "data" fields_b = None
  /\ let q' := final (process_queue_turn now0 iso0 "jobs" q_nodata) in
     exists kvs',
       strings (redis q') !! job_key "b" = Some (Dumps (JObj kvs'))
       /\ Dict.get "status" kvs' = Some (JStr "failed")
       /\ Dict.get "result" kvs' = Some (JStr "'data'")
       /\ journal q' = journal q_nodata.
Proof.
  split; [reflexivity|]. split; [reflexivity|]. split; [discriminate|].
  split; [reflexivity|]. split; [discriminate|]. split; [reflexivity|].
  split; [reflexivity|].
  apply (job_without_data_fails now0 iso0 "jobs" "b" [] fields_b echo q_nodata);
    [reflexivity|reflexivity|discriminate|reflexivity|discriminate|reflexivity|reflexivity].
Defined.

Lemma get_queue_stats_counts_mirror_witness :
  client (redis q_processed) = true
  /\ forallb job_document (map_to_list (jobs q_processed)).*2 = true
  /\ number_in_status "jobs" "failed" (map_to_list (jobs q_processed)).*2 = 1%Z
  /\ let mirror := (map_to_list (jobs q_processed)).*2 in
     get_queue_stats "jobs" q_processed
       = (Ok (JObj [("queue_length",
                     JNum (Z.of_nat (length (default [] (lists (redis q_processed)
                                                          !! queue_key "jobs")))));
                    ("active_jobs", JNum (number_in_status "jobs" "processing" mirror));
                    ("completed_jobs", JNum (number_in_status "jobs" "completed" mirror));
                    ("failed_jobs", JNum (number_in_status "jobs" "failed" mirror))]),
          q_processed).
Proof.
  split; [reflexivity|]. split; [vm_compute; reflexivity|].
  split; [vm_compute; reflexivity|].
  apply (get_queue_stats_counts_mirror "jobs" q_processed);
    [reflexivity|vm_compute; reflexivity].
Defined.


End QueueExtras.

(** ** The connection registry *)

Module RegistryExtras.
Import WebSocketServer Registry RegistryFacts.

(** *** One send *)

Lemma active_send_other c c' m w :
  c ≠ c' ->
  Dict.get c (active_connections (final (send_to_connection c' m w)))
    = Dict.get c (active_connections w).
Proof.
  intros Hne.
  destruct (send_to_connection_cases c' m w)
    as [[_ ->]|[(ws & _ & _ & ->)|(ws & Hget & _ & ->)]].
  - done.
  - done.
  - change (final (Ok false, final (disconnect c' w))) with (final (disconnect c' w)).
    rewrite (disconnect_present c' ws w Hget). unfold final. cbn [snd].
    cbn [active_connections with_users with_active].
    apply DictFacts.get_del_ne. congruence.
Qed.

Lemma inv_no_owner_of_inactive c w u s :
  registry_inv w -> Dict.get c (active_connections w) = None ->
  Dict.get u (user_connections w) = Some s -> c ∉ s.
Proof.
  intros (_ & Hwithin & _) Hc Hs Hin.
  destruct (Hwithin u s c Hs Hin) as [ws Hws]. congruence.
Qed.

Lemma send_outcomes c m w :
  registry_inv w ->
  let w' := final (send_to_connection c m w) in
  match Dict.get c (active_connections w) with
  | None => send_to_connection c m w = (Ok false, w)
  | Some ws =>
      if sends ws m
      then send_to_connection c m w = (Ok true, record (Sent c m) w)
      else outcome (send_to_connection c m w) = Ok false
           /\ w' = final (disconnect c w)
           /\ Dict.get c (active_connections w') = None
           /\ (forall u s, Dict.get u (user_connections w') = Some s -> c ∉ s)
           /\ delivered c w' = delivered c w
           /\ (forall c', c' ≠ c ->
                 Dict.get c' (active_connections w') = Dict.get c' (active_connections w))
  end.
Proof.
  intros Hinv w'. subst w'.
  destruct (send_to_connection_cases c m w)
    as [[Hget ->]|[(ws & Hget & Hs & ->)|(ws & Hget & Hs & Hrun)]];
    rewrite Hget; rewrite ?Hs; [done|done|].
  rewrite Hrun. unfold outcome. cbn [fst].
  change (final (Ok false, final (disconnect c w))) with (final (disconnect c w)).
  assert (Hgone : Dict.get c (active_connections (final (disconnect c w))) = None).
  { rewrite (disconnect_present c ws w Hget). unfold final. cbn [snd].
    cbn [active_connections with_users with_active].
    apply DictFacts.get_del_eq. by destruct Hinv as ((? & _) & _). }
  split_and!; [done|done|done| | |].
  - intros u s. apply inv_no_owner_of_inactive; [by apply inv_disconnect|done].
  - apply delivered_disconnect.
  - intros c' Hne. rewrite (disconnect_present c ws w Hget). unfold final. cbn [snd].
    cbn [active_connections with_users with_active].
    apply DictFacts.get_del_ne. congruence.
Qed.

(** X15. [send_to_connection] gives [False] and changes nothing for an id that
    is not connected; delivers and gives [True] when the handle sends; and
    when the send fails gives [False], delivers nothing and removes the
    connection, from the active connections and from every user's set, as
    [disconnect] does, leaving the other connections in place. *)
Theorem send_to_connection_outcomes c m w :
  registry_inv w ->
  let w' := final (send_to_connection c m w) in
  match Dict.get c (active_connections w) with
  | None => send_to_connection c m w = (Ok false, w)
  | Some ws =>
      if sends ws m
      then send_to_connection c m w = (Ok true, record (Sent c m) w)
      else outcome (send_to_connection c m w) = Ok false
           /\ w' = final (disconnect c w)
           /\ Dict.get c (active_connections w') = None
           /\ (forall u s, Dict.get u (user_connections w') = Some s -> c ∉ s)
           /\ delivered c w' = delivered c w
           /\ (forall c', c' ≠ c ->
                 Dict.get c' (active_connections w') = Dict.get c' (active_connections w))
  end.
Proof. exact (send_outcomes c m w). Qed.

(** *** The counting loops *)

(** What one send does to the connection it addresses and to the others. *)
Lemma send_step c0 m w :
  registry_inv w ->
  let w1 := final (send_to_connection c0 m w) in
  outcome (send_to_connection c0 m w) = Ok (will_send m w c0)
  /\ delivered c0 w1 = (if will_send m w c0 then m :: delivered c0 w else delivered c0 w)
  /\ Dict.get c0 (active_connections w1)
       = (if will_send m w c0 then Dict.get c0 (active_connections w) else None)
  /\ (forall c, c ≠ c0 ->
        delivered c w1 = delivered c w
        /\ Dict.get c (active_connections w1) = Dict.get c (active_connections w)
        /\ owner c (user_connections w1) = owner c (user_connections w)).
Proof.
  intros Hinv w1. subst w1. split_and!.
  - unfold will_send.
    destruct (send_to_connection_cases c0 m w)
      as [[Hget ->]|[(ws & Hget & Hs & ->)|(ws & Hget & Hs & ->)]];
      by rewrite Hget, ?Hs.
  - pose proof (send_outcomes c0 m w Hinv) as H. cbn zeta in H.
    unfold will_send. destruct (Dict.get c0 (active_connections w)) as [ws|].
    + destruct (sends ws m).
      * rewrite H. unfold final, delivered. cbn. by rewrite decide_True.
      * by destruct H as (_ & _ & _ & _ & -> & _).
    + by rewrite H.
  - pose proof (send_outcomes c0 m w Hinv) as H. cbn zeta in H.
    unfold will_send. destruct (Dict.get c0 (active_connections w)) as [ws|] eqn:Hget.
    + destruct (sends ws m).
      * by rewrite H.
      * by destruct H as (_ & _ & -> & _).
    + by rewrite H.
  - intros c Hne. destruct (send_to_connection_other c c0 m w Hne) as [Hd Ho].
    split_and!; [done| |done]. by apply active_send_other.
Qed.

Lemma will_send_ext m w w1 c :
  Dict.get c (active_connections w1) = Dict.get c (active_connections w) ->
  will_send m w1 c = will_send m w c.
Proof. unfold will_send. by intros ->. Qed.

Lemma reached_ext m x w w1 c :
  Dict.get c (active_connections w1) = Dict.get c (active_connections w) ->
  owner c (user_connections w1) = owner c (user_connections w) ->
  reached m x w1 c = reached m x w c.
Proof.
  intros Ha Ho. unfold reached, excluded. rewrite (will_send_ext m w w1 c Ha).
  destruct x as [x|]; [|done]. by rewrite Ho.
Qed.

Lemma filter_length_ext (f g : string -> bool) (l : list string) :
  (forall c, c ∈ l -> f c = g c) ->
  length (filter (fun c => f c = true) l) = length (filter (fun c => g c = true) l).
Proof.
  induction l as [|a l IH]; intros H; [done|].
  rewrite !filter_cons. rewrite <- (H a) by left.
  destruct (decide (f a = true)); cbn [length]; rewrite IH; try done;
    intros c Hc; apply H; by right.
Qed.

(** The loop of [broadcast] over any list of distinct ids. *)
Lemma broadcast_loop_spec items m x n w :
  registry_inv w -> NoDup items.*1 ->
  let w' := final (broadcast_loop items m x n w) in
  outcome (broadcast_loop items m x n w)
    = Ok (n + Z.of_nat (length (filter (fun c => reached m x w c = true) items.*1)))%Z
  /\ forall c,
       delivered c w'
         = (if bool_decide (c ∈ items.*1) && reached m x w c
            then m :: delivered c w else delivered c w)
       /\ Dict.get c (active_connections w')
         = (if bool_decide (c ∈ items.*1) && negb (excluded x w c) && negb (will_send m w c)
            then None else Dict.get c (active_connections w)).
Proof.
  revert n w. induction items as [|[c0 ws0] items IH]; intros n w Hinv Hnd.
  { cbn. split; [f_equal; lia|]. intros c. done. }
  rewrite fmap_cons in Hnd. cbn [fst] in Hnd. apply NoDup_cons in Hnd as [Hc0 Hnd].
  assert (Hstep : broadcast_loop ((c0, ws0) :: items) m x n w
                  = if excluded x w c0 then broadcast_loop items m x n w
                    else (ok ← send_to_connection c0 m;
                          broadcast_loop items m x
                            (if ok : bool then n + 1 else n)%Z) w).
  { cbn [broadcast_loop]. unfold mbind at 1. unfold M_bind, bind.
    set (skip := match x with Some x => _ | None => _ end).
    assert (Hskip : skip w = (Ok (excluded x w c0), w)).
    { subst skip. unfold excluded.
      destruct x as [x|]; [destruct (str_truthy x)|]; done. }
    rewrite Hskip. by destruct (excluded x w c0). }
  rewrite Hstep. clear Hstep.
  rewrite fmap_cons, filter_cons. cbn [fst].
  assert (Hr0 : reached m x w c0 = negb (excluded x w c0) && will_send m w c0) by done.
  destruct (excluded x w c0) eqn:Hex; cbn [negb andb] in Hr0.
  - destruct (IH n w Hinv Hnd) as [Hout Hrest]. split.
    + rewrite decide_False by (by rewrite Hr0). exact Hout.
    + intros c. destruct (Hrest c) as (Hd & Ha).
      destruct (decide (c = c0)) as [->|Hne].
      * rewrite bool_decide_eq_false_2 in Hd, Ha by done. cbn [andb] in Hd, Ha.
        unfold reached. rewrite Hex. cbn [negb andb]. rewrite !andb_false_r. done.
      * assert (Hb : bool_decide (c ∈ c0 :: items.*1) = bool_decide (c ∈ items.*1)).
        { apply bool_decide_ext. rewrite elem_of_cons. naive_solver. }
        rewrite Hb. done.
  - unfold mbind, M_bind, bind.
    destruct (send_step c0 m w Hinv) as (Hok & Hd0 & Ha0 & Hoth).
    pose proof (inv_send_to_connection c0 m w Hinv) as Hinv1.
    unfold outcome, final in Hok, Hd0, Ha0, Hoth, Hinv1.
    destruct (send_to_connection c0 m w) as [[ok|e] w1]; [|done].
    cbn [fst snd] in Hok, Hd0, Ha0, Hoth, Hinv1. injection Hok as ->.
    destruct (IH (if will_send m w c0 then n + 1 else n)%Z w1 Hinv1 Hnd) as [Hout Hrest].
    assert (Hlen : length (filter (fun c => reached m x w1 c = true) items.*1)
                   = length (filter (fun c => reached m x w c = true) items.*1)).
    { apply filter_length_ext. intros c Hc.
      assert (c ≠ c0) as Hne by (intros ->; done).
      destruct (Hoth c Hne) as (_ & Ha & Ho). by apply reached_ext. }
    split.
    + rewrite Hout, Hlen. f_equal.
      destruct (will_send m w c0).
      * rewrite decide_True by done. cbn [length]. lia.
      * rewrite decide_False by (by rewrite Hr0). lia.
    + intros c. destruct (Hrest c) as (Hd & Ha).
      destruct (decide (c = c0)) as [->|Hne].
      * rewrite bool_decide_eq_false_2 in Hd, Ha by done. cbn [andb] in Hd, Ha.
        rewrite bool_decide_eq_true_2 by left. cbn [andb].
        unfold reached. rewrite Hex. cbn [negb andb].
        rewrite Hd, Ha, Hd0, Ha0.
        destruct (will_send m w c0); cbn [negb]; split_and!; done.
      * assert (Hb : bool_decide (c ∈ c0 :: items.*1) = bool_decide (c ∈ items.*1)).
        { apply bool_decide_ext. rewrite elem_of_cons. naive_solver. }
        destruct (Hoth c Hne) as (Hdc & Hac & Hoc).
        rewrite Hb, Hd, Ha, Hdc, Hac.
        rewrite (reached_ext m x w w1 c Hac Hoc).
        rewrite (will_send_ext m w w1 c Hac).
        assert (Hexc : excluded x w1 c = excluded x w c).
        { unfold excluded. destruct x as [x|]; [|done]. by rewrite Hoc. }
        rewrite Hexc. done.
Qed.

(** The loop of [send_to_user] is the loop of [broadcast] without an
    excluded user; the handles paired with the ids are not looked at. *)
Lemma send_each_broadcast_loop ws0 ids m n w :
  send_each ids m n w = broadcast_loop (map (fun c => (c, ws0)) ids) m None n w.
Proof.
  revert n w. induction ids as [|c ids IH]; intros n w; [done|].
  cbn [send_each map broadcast_loop]. unfold mbind, M_bind, bind, mret, M_ret, ret.
  destruct (send_to_connection c m w) as [[ok|e] w1]; [|done]. apply IH.
Qed.

Lemma send_each_spec ids m n w :
  registry_inv w -> NoDup ids ->
  let w' := final (send_each ids m n w) in
  outcome (send_each ids m n w)
    = Ok (n + Z.of_nat (length (filter (fun c => will_send m w c = true) ids)))%Z
  /\ forall c,
       delivered c w'
         = (if bool_decide (c ∈ ids) && will_send m w c
            then m :: delivered c w else delivered c w)
       /\ Dict.get c (active_connections w')
         = (if bool_decide (c ∈ ids) && negb (will_send m w c)
            then None else Dict.get c (active_connections w)).
Proof.
  intros Hinv Hnd. cbn zeta.
  set (ws0 := {| accepts := true; sends := fun _ => true; closes := true |}).
  rewrite (send_each_broadcast_loop ws0).
  assert (Hfst : (map (fun c => (c, ws0)) ids).*1 = ids).
  { clear. induction ids as [|c ids IH]; [done|]. cbn. by rewrite IH. }
  pose proof (broadcast_loop_spec (map (fun c => (c, ws0)) ids) m None n w Hinv) as H.
  rewrite Hfst in H. specialize (H Hnd). cbn zeta in H. destruct H as [Hout Hrest].
  split; [exact Hout|]. intros c. destruct (Hrest c) as [Hd Ha].
  cbn [excluded negb] in Ha. rewrite andb_true_r in Ha. done.
Qed.

(** *** Broadcast and send to a user *)

(** X16. [broadcast] returns the number of connections it reaches: the
    registered connections whose handle takes the message and that the
    excluded user, if one is given, does not own.  Each of them receives
    the message once and no other connection receives anything; a
    connection that is not excluded and whose send fails is no longer
    registered afterwards, and all others stay as they were. *)
Theorem broadcast_counts_deliveries m x w :
  registry_inv w ->
  let w' := final (broadcast m x w) in
  outcome (broadcast m x w)
    = Ok (Z.of_nat (length (filter (fun c => reached m x w c = true)
                              (Dict.keys (active_connections w)))))
  /\ forall c,
       delivered c w' = (if reached m x w c then m :: delivered c w else delivered c w)
       /\ Dict.get c (active_connections w')
          = (if excluded x w c || will_send m w c
             then Dict.get c (active_connections w) else None).
Proof.
  intros Hinv. cbn zeta.
  assert (Hnd : NoDup (Dict.keys (active_connections w))) by apply Hinv.
  unfold broadcast. unfold mbind, M_bind, bind, gets.
  destruct (broadcast_loop_spec (active_connections w) m x 0 w Hinv Hnd) as [Hout Hrest].
  split; [by rewrite Hout|].
  intros c. destruct (Hrest c) as [Hd Ha]. rewrite Hd, Ha. clear Hd Ha.
  unfold reached, will_send.
  destruct (Dict.get c (active_connections w)) as [ws|] eqn:Hget.
  - rewrite bool_decide_eq_true_2 by (by eapply DictFacts.get_Some_keys).
    cbn [andb]. destruct (excluded x w c), (sends ws m); done.
  - rewrite !andb_false_r. by destruct (bool_decide _), (excluded x w c).
Qed.

(** X17. [send_to_user] returns [0] and changes nothing for a user without
    connections; otherwise it returns the number of the user's connections
    whose handle takes the message: each of them receives it once, no other
    connection receives anything, and the user's connections whose send
    fails are no longer registered. *)
Theorem send_to_user_counts_deliveries u m w :
  registry_inv w ->
  let w' := final (send_to_user u m w) in
  match Dict.get u (user_connections w) with
  | None => send_to_user u m w = (Ok 0%Z, w)
  | Some s =>
      outcome (send_to_user u m w)
        = Ok (Z.of_nat (length (filter (fun c => will_send m w c = true) (elements s))))
      /\ forall c,
           delivered c w'
             = (if bool_decide (c ∈ s) && will_send m w c
                then m :: delivered c w else delivered c w)
           /\ Dict.get c (active_connections w')
             = (if bool_decide (c ∈ s) && negb (will_send m w c)
                then None else Dict.get c (active_connections w))
  end.
Proof.
  intros Hinv. cbn zeta. unfold send_to_user. unfold mbind, M_bind, bind, gets.
  destruct (Dict.get u (user_connections w)) as [s|]; [|done].
  destruct (send_each_spec (elements s) m 0 w Hinv (NoDup_elements s)) as [Hout Hrest].
  split; [by rewrite Hout|].
  intros c. destruct (Hrest c) as [Hd Ha]. rewrite Hd, Ha.
  assert (Hb : bool_decide (c ∈ elements s) = bool_decide (c ∈ s)).
  { apply bool_decide_ext. apply elem_of_elements. }
  by rewrite Hb.
Qed.

(** *** Cleanup *)

Lemma get_del_None {V} (k k' : string) (d : list (string * V)) :
  Dict.get k d = None -> Dict.get k (Dict.del k' d) = None.
Proof.
  induction d as [|[k0 v0] d IH]; [done|]. cbn [Dict.get Dict.del].
  destruct (decide (k0 = k)) as [->|Hk]; [done|]. intros H.
  destruct (decide (k0 = k')); [done|]. cbn [Dict.get].
  rewrite decide_False by done. by apply IH.
Qed.

Lemma disconnect_gone c w :
  registry_inv w -> Dict.get c (active_connections (final (disconnect c w))) = None.
Proof.
  intros Hinv. destruct (Dict.get c (active_connections w)) as [ws|] eqn:Hget.
  - rewrite (disconnect_present c ws w Hget). unfold final. cbn [snd].
    cbn [active_connections with_users with_active].
    apply DictFacts.get_del_eq. by destruct Hinv as ((? & _) & _).
  - by rewrite (disconnect_absent c w Hget).
Qed.

Lemma disconnect_stays_gone c c' w :
  Dict.get c (active_connections w) = None ->
  Dict.get c (active_connections (final (disconnect c' w))) = None.
Proof.
  intros Hc. destruct (Dict.get c' (active_connections w)) as [ws|] eqn:Hget.
  - rewrite (disconnect_present c' ws w Hget). unfold final. cbn [snd].
    cbn [active_connections with_users with_active]. by apply get_del_None.
  - by rewrite (disconnect_absent c' w Hget).
Qed.

Lemma disconnect_each_removes ids w c :
  registry_inv w ->
  c ∈ ids \/ Dict.get c (active_connections w) = None ->
  Dict.get c (active_connections (final (disconnect_each ids w))) = None.
Proof.
  revert w. induction ids as [|c0 ids IH]; intros w Hinv Hc.
  { destruct Hc as [Hc|Hc]; [by apply elem_of_nil in Hc|done]. }
  cbn [disconnect_each]. unfold mbind, M_bind, bind.
  pose proof (inv_disconnect c0 w Hinv) as H1.
  pose proof (disconnect_returns c0 w) as Hr.
  pose proof (disconnect_gone c0 w Hinv) as Hg.
  pose proof (disconnect_stays_gone c c0 w) as Hs.
  unfold outcome, final in H1, Hr, Hg, Hs.
  destruct (disconnect c0 w) as [[[]|e] w1]; [|done]. cbn [fst snd] in H1, Hg, Hs.
  apply IH; [done|]. destruct Hc as [Hc|Hc]; [|by right; apply Hs].
  apply elem_of_cons in Hc as [->|Hc]; [by right|by left].
Qed.

Lemma delivered_disconnect_each ids w c :
  delivered c (final (disconnect_each ids w)) = delivered c w.
Proof.
  revert w. induction ids as [|c0 ids IH]; intros w; [done|].
  cbn [disconnect_each]. unfold mbind, M_bind, bind.
  pose proof (delivered_disconnect c c0 w) as Hd.
  pose proof (disconnect_returns c0 w) as Hr.
  unfold outcome, final in Hd, Hr.
  destruct (disconnect c0 w) as [[[]|e] w1]; [|done]. cbn [fst snd] in Hd.
  rewrite <- Hd. apply IH.
Qed.

Lemma get_None_all_nil {V} (d : list (string * V)) :
  (forall k, Dict.get k d = None) -> d = [].
Proof.
  destruct d as [|[k v] d]; [done|]. intros H. specialize (H k).
  cbn [Dict.get] in H. by rewrite decide_True in H.
Qed.

(** The end of [cleanup]: the listener task is cancelled and joined. *)
Lemma cleanup_tail w :
  let m := task ← gets pubsub_task;
           match task with
           | Some task =>
               task_cancel task;;
               try_except_only "CancelledError" (task_await task) (ret tt)
           | None => ret tt
           end in
  outcome (m w) = Ok tt
  /\ active_connections (final (m w)) = active_connections w
  /\ wire (final (m w)) = wire w.
Proof.
  destruct w as [r ac ucs pt ts n wr].
  destruct pt as [task|]; [|done].
  unfold task_cancel, task_await, set_task, try_except_only. unfold_monad. cbn.
  destruct (ts !! task) as [st|] eqn:E; cbn.
  - destruct (running st); cbn.
    + destruct (<[task:=Cancelled]> ts !! task) as [[]|]; cbn; done.
    + rewrite E. destruct st; cbn; done.
  - rewrite E. done.
Qed.

(** X18. [cleanup] returns, and leaves no connection and no user registered:
    both counts are zero afterwards.  It delivers no message. *)
Theorem cleanup_empties_registry w :
  registry_inv w ->
  let w' := final (cleanup w) in
  outcome (cleanup w) = Ok tt
  /\ active_connections w' = []
  /\ user_connections w' = []
  /\ outcome (get_connection_count w') = Ok 0%Z
  /\ outcome (get_user_count w') = Ok 0%Z
  /\ forall c, delivered c w' = delivered c w.
Proof.
  intros Hinv. cbn zeta.
  pose proof (inv_cleanup w Hinv) as Hinv'.
  assert (H : outcome (cleanup w) = Ok tt
              /\ (forall c, Dict.get c (active_connections (final (cleanup w))) = None)
              /\ forall c, delivered c (final (cleanup w)) = delivered c w).
  { clear Hinv'.
    assert (Hsplit : exists w1,
              (forall c, Dict.get c (active_connections w1) = None)
              /\ (forall c, delivered c w1 = delivered c w)
              /\ cleanup w
                 = (task ← gets pubsub_task;
                    match task with
                    | Some task =>
                        task_cancel task;;
                        try_except_only "CancelledError" (task_await task) (ret tt)
                    | None => ret tt
                    end) w1).
    { unfold cleanup. unfold mbind at 1. unfold M_bind, bind, gets.
      unfold mbind at 1. unfold M_bind, bind.
      destruct (inv_disconnect_each (Dict.keys (active_connections w)) w Hinv) as [H1 Hr].
      pose proof (fun c =>
                    disconnect_each_removes (Dict.keys (active_connections w)) w c Hinv)
        as Hrm.
      pose proof (delivered_disconnect_each (Dict.keys (active_connections w)) w) as Hdl.
      unfold outcome, final in H1, Hr, Hrm, Hdl.
      destruct (disconnect_each _ w) as [[[]|e] w1]; [|done]. cbn [fst snd] in H1, Hrm, Hdl.
      exists w1. split_and!; [|done|done].
      intros c. apply Hrm.
      destruct (Dict.get c (active_connections w)) as [ws|] eqn:Hget; [left|by right].
      by eapply DictFacts.get_Some_keys. }
    destruct Hsplit as (w1 & Hall & Hdl & ->).
    destruct (cleanup_tail w1) as (Ho & Ha & Hw). cbn zeta in Ho, Ha, Hw.
    split_and!; [exact Ho|by intros c; rewrite Ha|].
    intros c. rewrite <- Hdl. unfold delivered. by rewrite Hw. }
  destruct H as (Hout & Hnone & Hdel).
  assert (Ha : active_connections (final (cleanup w)) = []) by by apply get_None_all_nil.
  assert (Hu : user_connections (final (cleanup w)) = []).
  { destruct Hinv' as (_ & Hwithin & Hne & _).
    destruct (user_connections (final (cleanup w))) as [|[u s] ucs] eqn:E; [done|].
    exfalso.
    assert (Hs : Dict.get u (user_connections (final (cleanup w))) = Some s).
    { rewrite E. cbn [Dict.get]. by rewrite decide_True. }
    specialize (Hne u s Hs).
    apply set_choose_L in Hne as [c Hc].
    destruct (Hwithin u s c Hs Hc) as [ws Hws]. by rewrite Hnone in Hws. }
  split_and!; [done|done|done| | |done].
  - unfold get_connection_count, gets, outcome. cbn [fst]. by rewrite Ha.
  - unfold get_user_count, gets, outcome. cbn [fst]. by rewrite Hu.
Qed.

(** *** The receive loop *)

Lemma disconnect_other c c' w :
  c' ≠ c ->
  Dict.get c' (active_connections (final (disconnect c w)))
    = Dict.get c' (active_connections w).
Proof.
  intros Hne. destruct (Dict.get c (active_connections w)) as [ws|] eqn:Hget.
  - rewrite (disconnect_present c ws w Hget). unfold final. cbn [snd].
    cbn [active_connections with_users with_active].
    apply DictFacts.get_del_ne. congruence.
  - by rewrite (disconnect_absent c w Hget).
Qed.

Lemma handle_message_object c kvs w :
  handle_message c (JObj kvs) w
    = (Ok tt, match reply (JObj kvs) with
              | Some m => final (send_to_connection c m w)
              | None => w
              end).
Proof.
  unfold handle_message, reply, py_get.
  unfold mbind at 1. unfold M_bind, bind, mret, M_ret, ret.
  destruct (is_str (Dict.get "type" kvs) "ping").
  { unfold mbind, M_bind, bind.
    destruct (send_to_connection_returns c (JObj [("type", JStr "pong")]) w) as [ok Hok].
    unfold outcome, final in *.
    by destruct (send_to_connection c _ w) as [[ok'|e] w1]. }
  destruct (is_str (Dict.get "type" kvs) "subscribe"); [done|].
  destruct (is_str (Dict.get "type" kvs) "unsubscribe"); [done|].
  unfold mbind, M_bind, bind.
  destruct (send_to_connection_returns c
              (JObj [("type", JStr "echo"); ("data", JObj kvs)]) w) as [ok Hok].
  unfold outcome, final in *.
  by destruct (send_to_connection c _ w) as [[ok'|e] w1].
Qed.

Lemma handle_message_other c data w :
  breaks (Message data) = true ->
  handle_message c data w
    = (Raise (Exn "AttributeError" "object has no attribute 'get'"), w).
Proof. destruct data; intros H; done. Qed.

Lemma receive_loop_spec c inbox w :
  registry_inv w ->
  let r := receive_loop c inbox w in
  outcome r = match loop_exit inbox with Some e => Raise e | None => Ok tt end
  /\ registry_inv (final r)
  /\ forall c', c' ≠ c ->
       delivered c' (final r) = delivered c' w
       /\ Dict.get c' (active_connections (final r)) = Dict.get c' (active_connections w).
Proof.
  revert w. induction inbox as [|[data|e] inbox IH]; intros w Hinv; cbn zeta.
  - done.
  - cbn [receive_loop].
    destruct (breaks (Message data)) eqn:Hb.
    + unfold mbind, M_bind, bind. rewrite (handle_message_other c data w Hb).
      split_and!; [by destruct data|done|done].
    + destruct data as [| | | | |kvs]; try done.
      unfold mbind, M_bind, bind. rewrite handle_message_object. cbn [loop_exit].
      set (w1 := match reply (JObj kvs) with Some m => _ | None => w end).
      assert (H1 : registry_inv w1
                   /\ forall c', c' ≠ c ->
                        delivered c' w1 = delivered c' w
                        /\ Dict.get c' (active_connections w1)
                           = Dict.get c' (active_connections w)).
      { subst w1. destruct (reply (JObj kvs)) as [m|]; [|done].
        split; [by apply inv_send_to_connection|].
        intros c' Hne. destruct (send_to_connection_other c' c m w Hne) as [Hd _].
        split; [done|by apply active_send_other]. }
      destruct H1 as [Hinv1 Hoth1].
      destruct (IH w1 Hinv1) as (Hout & Hinv2 & Hoth2). cbn zeta in Hout, Hinv2, Hoth2.
      split_and!; [done|done|].
      intros c' Hne. destruct (Hoth1 c' Hne) as [Hd1 Ha1].
      destruct (Hoth2 c' Hne) as [Hd2 Ha2]. by rewrite Hd2, Ha2.
  - cbn. split_and!; done.
Qed.

(** A handle that takes every message stays registered through the loop. *)
Lemma receive_loop_keeps c ws inbox w :
  Dict.get c (active_connections w) = Some ws ->
  (forall m, sends ws m = true) ->
  active_connections (final (receive_loop c inbox w)) = active_connections w.
Proof.
  intros Hget Hs. revert w Hget.
  induction inbox as [|[data|e] inbox IH]; intros w Hget; [done| |done].
  cbn [receive_loop]. unfold mbind, M_bind, bind.
  destruct (breaks (Message data)) eqn:Hb.
  { by rewrite (handle_message_other c data w Hb). }
  destruct data as [| | | | |kvs]; try done.
  rewrite handle_message_object.
  destruct (reply (JObj kvs)) as [m|]; [|by apply IH].
  destruct (send_to_connection_cases c m w)
    as [[Hn _]|[(ws' & _ & _ & ->)|(ws' & Hget' & Hs' & _)]].
  - congruence.
  - unfold final at 2. cbn [snd]. by rewrite IH.
  - rewrite Hget in Hget'. injection Hget' as <-. by rewrite Hs in Hs'.
Qed.

(** X19. Whatever one client sends, no other connection receives anything
    or is removed, and the registry stays well formed.  When the socket
    raises an [Exception] (the peer has disconnected), or gives a message
    that is not an object, [handle_client_messages] returns and the
    connection is no longer registered.  When the socket raises outside
    [Exception] (the task is cancelled), the exception leaves
    [handle_client_messages], no [disconnect] runs, and a connection whose
    handle takes every message is still registered. *)
Theorem handle_client_messages_contained c inbox w :
  registry_inv w ->
  let r := handle_client_messages c inbox w in
  registry_inv (final r)
  /\ (forall c', c' ≠ c ->
        delivered c' (final r) = delivered c' w
        /\ Dict.get c' (active_connections (final r))
           = Dict.get c' (active_connections w))
  /\ match loop_exit inbox with
     | None => outcome r = Ok tt
     | Some e =>
         if is_exception e
         then outcome r = Ok tt /\ Dict.get c (active_connections (final r)) = None
         else match Dict.get c (active_connections w) with
              | None => r = (Ok tt, w)
              | Some ws =>
                  outcome r = Raise e
                  /\ final r = final (receive_loop c inbox w)
                  /\ ((forall m, sends ws m = true) ->
                      Dict.get c (active_connections (final r)) = Some ws)
              end
     end.
Proof.
  intros Hinv. cbn zeta. unfold handle_client_messages.
  unfold mbind, M_bind, bind, gets, try_except.
  destruct (Dict.get c (active_connections w)) as [ws|] eqn:Hget.
  2:{ split_and!; [done|done|].
      destruct (loop_exit inbox) as [e|]; [|done]. by destruct (is_exception e). }
  destruct (receive_loop_spec c inbox w Hinv) as (Hout & Hinv1 & Hoth).
  pose proof (receive_loop_keeps c ws inbox w Hget) as Hkeep.
  cbn zeta in Hout, Hinv1, Hoth.
  unfold outcome, final in Hout, Hinv1, Hoth, Hkeep.
  destruct (receive_loop c inbox w) as [[[]|e] w1];
    cbn [fst snd] in Hout, Hinv1, Hoth, Hkeep.
  - destruct (loop_exit inbox); [done|]. done.
  - destruct (loop_exit inbox) as [e'|]; [|done]. injection Hout as <-.
    destruct (is_exception e) eqn:He.
    + pose proof (disconnect_returns c w1) as Hr.
      split; [by apply inv_disconnect|]. split.
      * intros c' Hne. destruct (Hoth c' Hne) as [Hd Ha].
        rewrite delivered_disconnect, Hd. split; [done|].
        by rewrite disconnect_other.
      * split; [done|]. by apply disconnect_gone.
    + split; [done|]. split; [done|]. split; [done|]. split; [done|].
      intros Hs. unfold final. cbn [snd]. rewrite (Hkeep Hs). done.
Qed.

Lemma receive_loop_replies c ws inbox w :
  Dict.get c (active_connections w) = Some ws ->
  (forall m, sends ws m = true) ->
  existsb breaks inbox = false ->
  let r := receive_loop c inbox w in
  outcome r = Ok tt
  /\ delivered c (final r) = (rev (omap reply_of inbox) ++ delivered c w)%list
  /\ active_connections (final r) = active_connections w
  /\ user_connections (final r) = user_connections w.
Proof.
  intros Hget Hs. revert w Hget.
  induction inbox as [|[data|e] inbox IH]; intros w Hget Hb; cbn zeta; [done| |done].
  cbn [existsb] in Hb. apply orb_false_iff in Hb as [Hb0 Hb].
  destruct data as [| | | | |kvs]; try done.
  cbn [receive_loop]. unfold mbind, M_bind, bind. rewrite handle_message_object.
  change (omap reply_of (Message (JObj kvs) :: inbox))
    with (match reply (JObj kvs) with
          | Some m => m :: omap reply_of inbox
          | None => omap reply_of inbox
          end).
  destruct (reply (JObj kvs)) as [m|].
  - destruct (send_to_connection_cases c m w)
      as [[Hn _]|[(ws' & _ & _ & ->)|(ws' & Hget' & Hs' & _)]].
    + congruence.
    + unfold final at 1 3 4 6. cbn [snd].
      destruct (IH (record (Sent c m) w) Hget Hb) as (Hout & Hd & Ha & Hu).
      cbn zeta in Hout, Hd, Ha, Hu. split_and!; [done| |done|done].
      rewrite Hd. cbn [rev]. rewrite <- app_assoc. f_equal.
      unfold delivered. cbn. by rewrite decide_True.
    + rewrite Hget in Hget'. injection Hget' as <-. by rewrite Hs in Hs'.
  - by apply IH.
Qed.

(** X20. For a registered connection whose handle takes every message, fed
    with objects only, [handle_client_messages] answers in order: a [pong]
    for each ping, nothing for a subscription or unsubscription, an echo
    of the message for everything else; the registry is unchanged. *)
Theorem handle_client_messages_replies c ws inbox w :
  Dict.get c (active_connections w) = Some ws ->
  (forall m, sends ws m = true) ->
  existsb breaks inbox = false ->
  let r := handle_client_messages c inbox w in
  outcome r = Ok tt
  /\ delivered c (final r) = (rev (omap reply_of inbox) ++ delivered c w)%list
  /\ active_connections (final r) = active_connections w
  /\ user_connections (final r) = user_connections w.
Proof.
  intros Hget Hs Hb. cbn zeta. unfold handle_client_messages.
  unfold mbind, M_bind, bind, gets, try_except. rewrite Hget.
  destruct (receive_loop_replies c ws inbox w Hget Hs Hb) as (Hout & Hd & Ha & Hu).
  cbn zeta in Hout, Hd, Ha, Hu. unfold outcome, final in Hout, Hd, Ha, Hu |- *.
  destruct (receive_loop c inbox w) as [[[]|e] w1]; [|done]. done.
Qed.

(** *** Connecting *)

Lemma del_set_fresh {V} (k : string) (v : V) (d : list (string * V)) :
  k ∉ Dict.keys d -> Dict.del k (Dict.set k v d) = d.
Proof.
  unfold Dict.keys. induction d as [|[k0 v0] d IH]; csimpl.
  - intros _. by rewrite decide_True.
  - rewrite not_elem_of_cons. intros [Hne Hk].
    rewrite decide_False by congruence. cbn [Dict.del].
    rewrite decide_False by congruence. by rewrite IH.
Qed.

Lemma forget_set_fresh c u (ucs : list (string * gset string)) :
  owner c ucs = None ->
  (forall s, Dict.get u ucs = Some s -> s ≠ ∅) ->
  forget c (Dict.set u (default ∅ (Dict.get u ucs) ∪ {[c]}) ucs) = ucs.
Proof.
  induction ucs as [|[u0 s0] ucs IH]; cbn [owner Dict.get Dict.set].
  - intros _ _. change (default ∅ None) with (∅ : gset string). cbn [forget].
    rewrite decide_True by set_solver.
    rewrite decide_True by set_solver. done.
  - destruct (decide (c ∈ s0)) as [|Hc]; [done|]. intros Ho Hne.
    destruct (decide (u0 = u)) as [->|Hu].
    + change (default ∅ (Some s0)) with s0. cbn [forget].
      rewrite decide_True by set_solver.
      assert (Hs : (s0 ∪ {[c]}) ∖ {[c]} = s0) by set_solver.
      rewrite Hs. rewrite decide_False by (by apply Hne). done.
    + cbn [forget]. rewrite decide_False by done. f_equal. by apply IH.
Qed.

Lemma inv_fresh_no_owner c w :
  registry_inv w -> c ∉ Dict.keys (active_connections w) ->
  owner c (user_connections w) = None.
Proof.
  intros ((_ & Hnd) & Hwithin & _) Hfresh.
  destruct (owner c (user_connections w)) as [u0|] eqn:Ho; [|done].
  destruct (owner_Some c _ u0 Hnd Ho) as (s0 & Hget & Hc).
  destruct (Hwithin u0 s0 c Hget Hc) as [ws Hws].
  exfalso. apply Hfresh. by eapply DictFacts.get_Some_keys.
Qed.

Section uuid.
Context (uuid4 : nat -> string).

(** X21. An accepted [connect] with a fresh identifier returns it, registers
    the handle under it and, when a user is given, makes that user its
    owner, leaving the other connections as they were; a [disconnect] of
    the new connection then restores both dictionaries exactly. *)
Theorem connect_disconnect_round_trip ws user_id w :
  registry_inv w ->
  uuid4 (uuids w) ∉ Dict.keys (active_connections w) ->
  accepts ws = true ->
  let c := uuid4 (uuids w) in
  let w1 := final (connect uuid4 ws user_id w) in
  let w2 := final (disconnect c w1) in
  outcome (connect uuid4 ws user_id w) = Ok c
  /\ Dict.get c (active_connections w1) = Some ws
  /\ (forall u, user_id = Some u -> str_truthy u = true ->
        owner c (user_connections w1) = Some u)
  /\ (forall c', c' ≠ c ->
        Dict.get c' (active_connections w1) = Dict.get c' (active_connections w))
  /\ active_connections w2 = active_connections w
  /\ user_connections w2 = user_connections w.
Proof.
  intros Hinv Hfresh Hacc. cbn zeta.
  pose proof (inv_connect uuid4 ws user_id w Hfresh Hinv) as Hinv1.
  destruct (connect_accepted uuid4 ws user_id w Hacc) as (Hout & Ha & Hu & _).
  cbn zeta in Hout, Ha, Hu.
  set (c := uuid4 (uuids w)) in *.
  set (w1 := final (connect uuid4 ws user_id w)) in *.
  assert (Hget : Dict.get c (active_connections w1) = Some ws).
  { rewrite Ha. apply DictFacts.get_set_eq. }
  pose proof (inv_fresh_no_owner c w Hinv Hfresh) as Hno.
  split_and!; [done|done| | | |].
  - intros u -> Hu1. rewrite Hu1 in Hu.
    destruct Hinv1 as ((_ & Hnd1) & _ & _ & Hsingle1).
    eapply (owner_get c _ u _ Hnd1 Hsingle1).
    + rewrite Hu. apply DictFacts.get_set_eq.
    + set_solver.
  - intros c' Hne. rewrite Ha. apply DictFacts.get_set_ne. congruence.
  - rewrite (disconnect_present c ws w1 Hget). unfold final. cbn [snd].
    cbn [active_connections with_users with_active]. rewrite Ha.
    by apply del_set_fresh.
  - rewrite (disconnect_present c ws w1 Hget). unfold final. cbn [snd].
    cbn [user_connections with_users].
    rewrite Hu.
    destruct user_id as [u|]; [destruct (str_truthy u)|];
      [|by apply forget_not_owned..].
    apply forget_set_fresh; [done|]. intros s Hs. destruct Hinv as (_ & _ & Hne & _).
    by eapply Hne.
Qed.

End uuid.

(** *** The listener *)

Lemma send_to_connection_tasks c m w :
  tasks (final (send_to_connection c m w)) = tasks w.
Proof.
  destruct (send_to_connection_cases c m w)
    as [[_ ->]|[(ws & _ & _ & ->)|(ws & Hget & _ & ->)]]; [done|done|].
  change (final (Ok false, final (disconnect c w))) with (final (disconnect c w)).
  rewrite (disconnect_present c ws w Hget). unfold final. cbn [snd].
  by destruct (closes ws).
Qed.

Lemma broadcast_loop_tasks items m x n w :
  (exists k, outcome (broadcast_loop items m x n w) = Ok k)
  /\ tasks (final (broadcast_loop items m x n w)) = tasks w.
Proof.
  revert n w. induction items as [|[c ws] items IH]; intros n w; [by split; [eexists|]|].
  assert (Hstep : broadcast_loop ((c, ws) :: items) m x n w
                  = if excluded x w c then broadcast_loop items m x n w
                    else (ok ← send_to_connection c m;
                          broadcast_loop items m x
                            (if ok : bool then n + 1 else n)%Z) w).
  { cbn [broadcast_loop]. unfold mbind at 1. unfold M_bind, bind.
    set (skip := match x with Some x => _ | None => _ end).
    assert (Hskip : skip w = (Ok (excluded x w c), w)).
    { subst skip. unfold excluded.
      destruct x as [x|]; [destruct (str_truthy x)|]; done. }
    rewrite Hskip. by destruct (excluded x w c). }
  rewrite Hstep. clear Hstep. destruct (excluded x w c); [apply IH|].
  unfold mbind, M_bind, bind.
  pose proof (send_to_connection_tasks c m w) as Ht.
  destruct (send_to_connection_returns c m w) as [ok Hok].
  unfold outcome, final in Ht, Hok.
  destruct (send_to_connection c m w) as [[ok'|e] w1]; [|done]. cbn [snd] in Ht.
  rewrite <- Ht. apply IH.
Qed.

Lemma broadcast_returns m x w :
  (exists k, outcome (broadcast m x w) = Ok k)
  /\ tasks (final (broadcast m x w)) = tasks w.
Proof. unfold broadcast. unfold mbind, M_bind, bind, gets. apply broadcast_loop_tasks. Qed.

Lemma listen_pubsub_message_run task kind data w :
  tasks w !! task = Some Listening ->
  listen_pubsub_message task kind data w
    = (Ok tt, match data with
              | Dumps j =>
                  if decide (kind = "message") then final (broadcast j None w) else w
              | Raw _ => w
              end).
Proof.
  intros Ht. unfold listen_pubsub_message.
  unfold mbind at 1. unfold M_bind, bind, gets. rewrite Ht.
  unfold try_except, try_except_only.
  destruct (decide (kind = "message")) as [Hk|Hty].
  - destruct data as [s|j]; [done|].
    unfold json_loads. unfold mbind, M_bind, bind, mret, M_ret, ret.
    destruct (broadcast_returns j None w) as [[k Hk'] _].
    unfold outcome, final in Hk' |- *.
    by destruct (broadcast j None w) as [[k'|e] w1].
  - by destruct data.
Qed.

(** X22. A listening task that is handed a store message relays it and goes
    on listening: a message of kind ["message"] whose data decodes is
    broadcast to every local connection, with no user excluded; data that
    does not decode, or any other kind of message, changes nothing.  The
    listener itself never raises. *)
Theorem pubsub_message_relayed task kind data w :
  tasks w !! task = Some Listening ->
  let r := listen_pubsub_message task kind data w in
  outcome r = Ok tt
  /\ tasks (final r) !! task = Some Listening
  /\ final r = match data with
               | Dumps j =>
                   if decide (kind = "message") then final (broadcast j None w) else w
               | Raw _ => w
               end.
Proof.
  intros Ht. cbn zeta. rewrite (listen_pubsub_message_run task kind data w Ht).
  unfold outcome, final at 1 2. cbn [fst snd]. split_and!; [done| |done].
  destruct data as [s|j]; [done|]. destruct (decide (kind = "message")); [|done].
  destruct (broadcast_returns j None w) as [_ ->]. done.
Qed.

(** X23. The first run of a listener task: without a store manager, or with
    one that was never connected, the task ends at once and nothing is
    subscribed; with a connected one it subscribes to
    [websocket_broadcast], once, and listens.  It never raises and leaves
    the connections alone. *)
Theorem listener_start_outcomes task w :
  tasks w !! task = Some Pending ->
  let r := listen_pubsub_start task w in
  outcome r = Ok tt
  /\ active_connections (final r) = active_connections w
  /\ user_connections (final r) = user_connections w
  /\ match redis w with
     | None =>
         tasks (final r) = <[task := Finished]> (tasks w) /\ redis (final r) = None
     | Some rm =>
         if RedisManager.client rm
         then tasks (final r) = <[task := Listening]> (tasks w)
              /\ exists rm', redis (final r) = Some rm'
                   /\ RedisManager.subscriptions rm'
                      = (RedisManager.subscriptions rm ++ ["websocket_broadcast"])%list
                   /\ RedisManager.commands rm'
                      = RedisManager.SUBSCRIBE ["websocket_broadcast"]
                          :: RedisManager.commands rm
         else tasks (final r) = <[task := Finished]> (tasks w)
              /\ redis (final r) = Some rm
     end.
Proof.
  intros Ht. cbn zeta. destruct w as [r ac ucs pt ts n wr]. cbn in Ht.
  unfold listen_pubsub_start, on_redis, RedisManager.subscribe, set_task.
  unfold_monad. cbn. rewrite Ht.
  destruct r as [rm|]; [|done]. cbn.
  destruct rm as [cl st ex ls subs cmds]. cbn. destruct cl; cbn.
  - split_and!; try done. by eexists.
  - done.
Qed.

(** X24. [publish_message] never raises and delivers nothing locally.  Without
    a store manager, or with one that was never connected, it does nothing.
    With a connected one it publishes one document on the channel, and a
    listening registry that is handed that document broadcasts the message
    that was published. *)
Theorem publish_message_outcomes channel m w :
  let r := publish_message channel m w in
  outcome r = Ok tt
  /\ wire (final r) = wire w
  /\ active_connections (final r) = active_connections w
  /\ user_connections (final r) = user_connections w
  /\ match redis w with
     | None => final r = w
     | Some rm =>
         if RedisManager.client rm
         then exists doc,
                redis (final r)
                  = Some (RedisManager.log (RedisManager.PUBLISH channel doc) rm)
                /\ forall task w2,
                     tasks w2 !! task = Some Listening ->
                     final (listen_pubsub_message task "message" doc w2)
                       = final (broadcast m None w2)
         else final r = w
     end.
Proof.
  cbn zeta. destruct w as [r ac ucs pt ts n wr].
  unfold publish_message, on_redis, RedisManager.publish, json_dumps.
  unfold_monad. cbn.
  destruct r as [rm|]; [|done]. cbn.
  destruct rm as [cl st ex ls subs cmds]. cbn. destruct cl; cbn; [|done].
  split_and!; try done. exists (Dumps m). split; [done|].
  intros task w2 Ht. by rewrite (listen_pubsub_message_run task "message" (Dumps m) w2 Ht).
Qed.

Import Examples.

Lemma send_to_connection_outcomes_witness :
  registry_inv w_alice
  /\ let w' := final (send_to_connection "1" hello w_alice) in
     match Dict.get "1" (active_connections w_alice) with
     | None => send_to_connection "1" hello w_alice = (Ok false, w_alice)
     | Some ws =>
         if sends ws hello
         then send_to_connection "1" hello w_alice
              = (Ok true, record (Sent "1" hello) w_alice)
         else outcome (send_to_connection "1" hello w_alice) = Ok false
              /\ w' = final (disconnect "1" w_alice)
              /\ Dict.get "1" (active_connections w') = None
              /\ (forall u s, Dict.get u (user_connections w') = Some s -> "1" ∉ s)
              /\ delivered "1" w' = delivered "1" w_alice
              /\ (forall c', c' ≠ "1" ->
                    Dict.get c' (active_connections w')
                    = Dict.get c' (active_connections w_alice))
     end.
Proof.
  split; [exact inv_w_alice|].
  apply (send_to_connection_outcomes "1" hello w_alice). exact inv_w_alice.
Defined.

Lemma broadcast_counts_deliveries_witness :
  registry_inv w_alice
  /\ let w' := final (broadcast hello (Some "alice") w_alice) in
     outcome (broadcast hello (Some "alice") w_alice)
       = Ok (Z.of_nat (length (filter (fun c => reached hello (Some "alice") w_alice c = true)
                                 (Dict.keys (active_connections w_alice)))))
     /\ forall c,
          delivered c w'
            = (if reached hello (Some "alice") w_alice c
               then hello :: delivered c w_alice else delivered c w_alice)
          /\ Dict.get c (active_connections w')
             = (if excluded (Some "alice") w_alice c || will_send hello w_alice c
                then Dict.get c (active_connections w_alice) else None).
Proof.
  split; [exact inv_w_alice|].
  apply (broadcast_counts_deliveries hello (Some "alice") w_alice). exact inv_w_alice.
Defined.

Lemma send_to_user_counts_deliveries_witness :
  registry_inv w_alice
  /\ let w' := final (send_to_user "alice" hello w_alice) in
     match Dict.get "alice" (user_connections w_alice) with
     | None => send_to_user "alice" hello w_alice = (Ok 0%Z, w_alice)
     | Some s =>
         outcome (send_to_user "alice" hello w_alice)
           = Ok (Z.of_nat (length (filter (fun c => will_send hello w_alice c = true)
                                     (elements s))))
         /\ forall c,
              delivered c w'
                = (if bool_decide (c ∈ s) && will_send hello w_alice c
                   then hello :: delivered c w_alice else delivered c w_alice)
              /\ Dict.get c (active_connections w')
                = (if bool_decide (c ∈ s) && negb (will_send hello w_alice c)
                   then None else Dict.get c (active_connections w_alice))
     end.
Proof.
  split; [exact inv_w_alice|].
  apply (send_to_user_counts_deliveries "alice" hello w_alice). exact inv_w_alice.
Defined.

Lemma cleanup_empties_registry_witness :
  registry_inv w_alice
  /\ let w' := final (cleanup w_alice) in
     outcome (cleanup w_alice) = Ok tt
     /\ active_connections w' = []
     /\ user_connections w' = []
     /\ outcome (get_connection_count w') = Ok 0%Z
     /\ outcome (get_user_count w') = Ok 0%Z
     /\ forall c, delivered c w' = delivered c w_alice.
Proof.
  split; [exact inv_w_alice|].
  apply (cleanup_empties_registry w_alice). exact inv_w_alice.
Defined.

Lemma handle_client_messages_contained_witness :
  registry_inv w_alice
  /\ (let inbox := [Message ping; Failure (Exn "WebSocketDisconnect" "1001")] in
      let r := handle_client_messages "0" inbox w_alice in
      registry_inv (final r)
      /\ (forall c', c' ≠ "0" ->
            delivered c' (final r) = delivered c' w_alice
            /\ Dict.get c' (active_connections (final r))
               = Dict.get c' (active_connections w_alice))
      /\ outcome r = Ok tt
      /\ Dict.get "0" (active_connections (final r)) = None)
  /\ (let inbox := [Message ping; Failure (Exn "CancelledError" EmptyString)] in
      let r := handle_client_messages "0" inbox w_alice in
      registry_inv (final r)
      /\ (forall c', c' ≠ "0" ->
            delivered c' (final r) = delivered c' w_alice
            /\ Dict.get c' (active_connections (final r))
               = Dict.get c' (active_connections w_alice))
      /\ outcome r = Raise (Exn "CancelledError" EmptyString)
      /\ final r = final (receive_loop "0" inbox w_alice)
      /\ ((forall m, sends ws_ok m = true) ->
          Dict.get "0" (active_connections (final r)) = Some ws_ok)).
Proof.
  split; [exact inv_w_alice|]. split.
  - apply (handle_client_messages_contained "0"
             [Message ping; Failure (Exn "WebSocketDisconnect" "1001")] w_alice).
    exact inv_w_alice.
  - apply (handle_client_messages_contained "0"
             [Message ping; Failure (Exn "CancelledError" EmptyString)] w_alice).
    exact inv_w_alice.
Defined.

Lemma handle_client_messages_replies_witness :
  Dict.get "0" (active_connections w_alice) = Some ws_ok
  /\ (forall m, sends ws_ok m = true)
  /\ existsb breaks [Message ping; Message subscribe_news; Message hello] = false
  /\ let inbox := [Message ping; Message subscribe_news; Message hello] in
     let r := handle_client_messages "0" inbox w_alice in
     outcome r = Ok tt
     /\ delivered "0" (final r) = (rev (omap reply_of inbox) ++ delivered "0" w_alice)%list
     /\ active_connections (final r) = active_connections w_alice
     /\ user_connections (final r) = user_connections w_alice.
Proof.
  split; [reflexivity|]. split; [intros m; reflexivity|]. split; [reflexivity|].
  apply (handle_client_messages_replies "0" ws_ok
           [Message ping; Message subscribe_news; Message hello] w_alice);
    [reflexivity|intros m; reflexivity|reflexivity].
Defined.

Lemma connect_disconnect_round_trip_witness :
  registry_inv w_alice
  /\ (uuid0 (uuids w_alice) ∉ Dict.keys (active_connections w_alice))
  /\ accepts ws_ok = true
  /\ let c := uuid0 (uuids w_alice) in
     let w1 := final (connect uuid0 ws_ok (Some "bob") w_alice) in
     let w2 := final (disconnect c w1) in
     outcome (connect uuid0 ws_ok (Some "bob") w_alice) = Ok c
     /\ Dict.get c (active_connections w1) = Some ws_ok
     /\ (forall u, Some "bob" = Some u -> str_truthy u = true ->
           owner c (user_connections w1) = Some u)
     /\ (forall c', c' ≠ c ->
           Dict.get c' (active_connections w1) = Dict.get c' (active_connections w_alice))
     /\ active_connections w2 = active_connections w_alice
     /\ user_connections w2 = user_connections w_alice.
Proof.
  split; [exact inv_w_alice|]. split; [fresh_id|]. split; [reflexivity|].
  apply (connect_disconnect_round_trip uuid0 ws_ok (Some "bob") w_alice);
    [exact inv_w_alice|fresh_id|reflexivity].
Defined.

Lemma pubsub_message_relayed_witness :
  tasks w_two !! 1 = Some Listening
  /\ let r := listen_pubsub_message 1 "message" (Dumps hello) w_two in
     outcome r = Ok tt
     /\ tasks (final r) !! 1 = Some Listening
     /\ final r = match Dumps hello with
                  | Dumps j =>
                      if decide ("message" = "message")
                      then final (broadcast j None w_two) else w_two
                  | Raw _ => w_two
                  end.
Proof.
  split; [reflexivity|].
  apply (pubsub_message_relayed 1 "message" (Dumps hello) w_two). reflexivity.
Defined.

Lemma listener_start_outcomes_witness :
  tasks w_pending !! 0 = Some Pending
  /\ let r := listen_pubsub_start 0 w_pending in
     outcome r = Ok tt
     /\ active_connections (final r) = active_connections w_pending
     /\ user_connections (final r) = user_connections w_pending
     /\ match redis w_pending with
        | None =>
            tasks (final r) = <[0 := Finished]> (tasks w_pending)
            /\ redis (final r) = None
        | Some rm =>
            if RedisManager.client rm
            then tasks (final r) = <[0 := Listening]> (tasks w_pending)
                 /\ exists rm', redis (final r) = Some rm'
                      /\ RedisManager.subscriptions rm'
                         = (RedisManager.subscriptions rm ++ ["websocket_broadcast"])%list
                      /\ RedisManager.commands rm'
                         = RedisManager.SUBSCRIBE ["websocket_broadcast"]
                             :: RedisManager.commands rm
            else tasks (final r) = <[0 := Finished]> (tasks w_pending)
                 /\ redis (final r) = Some rm
        end.
Proof.
  split; [reflexivity|].
  apply (listener_start_outcomes 0 w_pending). reflexivity.
Defined.

End RegistryExtras.

(** ** Shutdown *)

Module AppExtras.
Import BaseApp.

(** X25. [_shutdown] asks the store manager and the database manager to
    disconnect, and then, when the application has a WebSocket server,
    raises [TypeError]: the registry is left as it was, no connection is
    closed.  Without a WebSocket server it returns. *)
Theorem shutdown_leaves_registry a :
  let r := _shutdown a in
  match websocket_server a with
  | Some _ => exists e, outcome r = Raise e /\ exn_class e = "TypeError"
  | None => outcome r = Ok tt
  end
  /\ websocket_server (final r) = websocket_server a
  /\ redis_manager (final r) = redis_manager a
  /\ db_manager (final r) = db_disconnect <$> db_manager a.
Proof.
  destruct a as [r d w]. cbn zeta. unfold _shutdown, RedisManager.disconnect.
  unfold_monad. cbn.
  destruct r as [r|]; [destruct (RedisManager.client r)|]; cbn;
    destruct d as [d|]; cbn; destruct w as [w|]; cbn; split_and!; try done;
    by eexists.
Qed.

End AppExtras.
